(** * OpenAnalyst prompt blocks: entity, composer, repository and load cache

    A shallow embedding of the prompt-block engine of the OpenAnalyst
    extension (TypeScript) and the properties established about it.

    Source files embedded here:
    - [core/blocks/domain/PromptBlock.ts], [core/blocks/domain/PromptCategory.ts]
    - [core/blocks/usecases/EnhanceSystemPrompt.ts]
    - [core/blocks/usecases/LoadPromptBlocks.ts]
    - [core/blocks/ports/IPromptBlockRepository.ts],
      [core/blocks/ports/IPromptBlockValidator.ts]
    - [adapters/blocks/FileSystemPromptBlockRepository.ts],
      [adapters/blocks/YamlPromptBlockParser.ts]
    - [webview-ui/src/utils/prompt-blocks.ts]

    Conventions.

    - A JavaScript string is the list of its UTF-16 code units; [js] gives
      the code units of an ASCII literal.
    - Priorities, versions and timestamps are integers, as the entity
      documents its priority ("Priority must be positive integer (0-100)"):
      a number is an integer that a double holds.  [NaN], the infinities
      and fractions are numbers of the values of unknown type only
      ([JsNumber]), where the range test of the priority lets [NaN] pass.
    - An insertion-ordered [Map] whose iteration order is observable is an
      association list; a [Map] that is only read by key is a [gmap].
    - Arrays that are shared between the load cache and its callers live
      in a store of arrays addressed by references.
    - [Date.now()] is an argument of the call that reads the clock.
    - A call that the embedding does not cover returns [None]: a sort
      whose comparator meets an undefined priority, and a substitution for
      a variable whose placeholder is a proper regular expression or whose
      lookup yields a member inherited from [Object.prototype] (see
      [PromptBlock.placeholderPattern] and [PromptBlock.lookupValue]).
    - A call that ends in the [SyntaxError] of [new RegExp] returns
      [Some SyntaxError]; a call that returns [v] returns [Some (Value v)].
    - The file system, the YAML parser, the workspace folders of the
      editor and [path.join] are the fields of a [Host].
    - A value of unknown type is a [JsValue]; a call of a validator that
      ends in a [TypeError] returns [None]. *)

From Equations Require Import Equations.
From Stdlib Require Import ZArith NArith QArith Qcanon Ascii String DecimalString.
From stdpp Require Import base option list gmap strings sorting.

Local Open Scope N_scope.

(** ** JavaScript strings *)

Abbreviation jsstring := (list N).

(** The code units of an ASCII literal. *)
Definition js (s : string) : jsstring :=
  (λ a, N_of_ascii a) <$> list_ascii_of_string s.

(** ECMA-262 WhiteSpace and LineTerminator code points, the set removed by
    [String.prototype.trim]; all of them are single code units. *)
Definition isWhiteSpace (c : N) : bool :=
  (c =? 9) || (c =? 10) || (c =? 11) || (c =? 12) || (c =? 13) ||
  (c =? 32) || (c =? 160) || (c =? 5760) ||
  ((8192 <=? c) && (c <=? 8202)) ||
  (c =? 8232) || (c =? 8233) || (c =? 8239) || (c =? 8287) ||
  (c =? 12288) || (c =? 65279).

Fixpoint trimStart (s : jsstring) : jsstring :=
  match s with
  | [] => []
  | c :: r => if isWhiteSpace c then trimStart r else s
  end.

Definition trimEnd (s : jsstring) : jsstring := rev (trimStart (rev s)).

(** [String.prototype.trim]: both ends. *)
Definition trim (s : jsstring) : jsstring := trimEnd (trimStart s).

(** Truthiness of a string value: every string but the empty one. *)
Definition truthy (s : jsstring) : bool :=
  match s with [] => false | _ :: _ => true end.

(** [a || b] where [a] may be [undefined]. *)
Definition orElse (a : option jsstring) (b : jsstring) : jsstring :=
  match a with
  | Some v => if truthy v then v else b
  | None => b
  end.

(** The decimal numeral of an integer. *)
Definition decimalNumeral (z : Z) : jsstring :=
  js (NilZero.string_of_int (Z.to_int z)).

(** The double nearest to a natural number, the one with the even
    significand of two that are as near: the number that an integer stands
    for.  Up to [2 ^ 53] every integer is a double. *)
Definition nearestDouble (a : Z) : Z :=
  if (a <? 2 ^ 53)%Z then a
  else
    let spacing := (2 ^ (Z.log2 a - 52))%Z in
    let significand := (a / spacing)%Z in
    let rest := (a mod spacing)%Z in
    if (spacing <? 2 * rest)%Z || ((spacing =? 2 * rest)%Z && Z.odd significand)
    then ((significand + 1) * spacing)%Z
    else (significand * spacing)%Z.

(** The decimal [c] reads back as the double [a], an integer of at least
    [2 ^ 53]: it lies within half the distance to the next double above
    and to the next below, the bounds included when the significand of [a]
    is even.  The doubles at [a] are [2 ^ (log2 a - 52)] apart, and half as
    far below a power of two; all quantities are taken fourfold. *)
Definition roundsTo (a c : Z) : bool :=
  let spacing := (2 ^ (Z.log2 a - 52))%Z in
  let above := (2 * spacing)%Z in
  let below := (if a =? 2 ^ Z.log2 a then spacing else 2 * spacing)%Z in
  if Z.even (a / spacing)
  then ((4 * a - below <=? 4 * c) && (4 * c <=? 4 * a + above))%Z
  else ((4 * a - below <? 4 * c) && (4 * c <? 4 * a + above))%Z.

(** The decimal with the fewest significant digits that reads back as
    [a]: a multiple of the greatest power of ten, [10 ^ j] at most, that
    has one, and the nearer of two. *)
Fixpoint shortestDecimal (a : Z) (j : nat) : Z :=
  let unit := (10 ^ Z.of_nat j)%Z in
  let low := (a / unit * unit)%Z in
  let high := (low + unit)%Z in
  let found :=
    if roundsTo a low
    then Some (if roundsTo a high && (high - a <? a - low)%Z then high else low)
    else if roundsTo a high then Some high else None in
  match found, j with
  | Some c, _ => c
  | None, S j' => shortestDecimal a j'
  | None, O => a
  end.

Fixpoint dropZeros (s : jsstring) : jsstring :=
  match s with
  | [] => []
  | c :: r => if c =? 48 then dropZeros r else s
  end.

(** [Number.prototype.toString] on an integer (ECMA-262 Number::toString):
    the digits of the shortest decimal that reads back as the number;
    written out when they are at most 21 with the zeros that follow them,
    and with an exponent otherwise.  An integer below [2 ^ 53] in magnitude
    is its own shortest decimal; one that rounds to [2 ^ 1024] or more
    stands for an infinity. *)
Definition numberToString (z : Z) : jsstring :=
  let a := nearestDouble (Z.abs z) in
  let digits :=
    decimalNumeral (if (a <? 2 ^ 53)%Z then a
                    else shortestDecimal a (Z.to_nat (Z.log2 a))) in
  (if (z <? 0)%Z then js "-" else [])
  ++ if (2 ^ 1024 <=? a)%Z then js "Infinity"
     else if (length digits <=? 21)%nat then digits
     else match rev (dropZeros (rev digits)) with
          | [] => digits
          | [d] => d :: js "e+" ++ decimalNumeral (Z.of_nat (length digits) - 1)
          | d :: fraction =>
              d :: js "." ++ fraction ++ js "e+"
                ++ decimalNumeral (Z.of_nat (length digits) - 1)
          end.

(** Outcome of an evaluation that can end in the [SyntaxError] of
    [new RegExp]. *)
Inductive evaluation (A : Type) :=
  | Value (a : A)
  | SyntaxError.
Arguments Value {A} a.
Arguments SyntaxError {A}.

(** [s] begins with [pat]. *)
Fixpoint startsWith (pat s : jsstring) : bool :=
  match pat, s with
  | [], _ => true
  | p :: pat', c :: s' => (p =? c) && startsWith pat' s'
  | _ :: _, [] => false
  end.

(** *** [String.prototype.replace] with a global literal pattern

    ECMA-262 GetSubstitution for a match without capture groups:
    [$$] is a dollar sign, [$&] the matched text, [$`] the text before the
    match, [$'] the text after it; every other code unit of the template
    (also a dollar sign followed by anything else) stands for itself. *)
Fixpoint GetSubstitution (matched before after template : jsstring) : jsstring :=
  match template with
  | [] => []
  | c :: rest =>
      if c =? 36 then
        match rest with
        | d :: rest' =>
            if d =? 36 then 36 :: GetSubstitution matched before after rest'
            else if d =? 96 then before ++ GetSubstitution matched before after rest'
            else if d =? 38 then matched ++ GetSubstitution matched before after rest'
            else if d =? 39 then after ++ GetSubstitution matched before after rest'
            else c :: GetSubstitution matched before after rest
        | [] => [c]
        end
      else c :: GetSubstitution matched before after rest
  end.

(** The scan of [s.replace(new RegExp(pat, "g"), template)] for a pattern
    that matches exactly the text [pat] (non-empty): matches are taken
    leftmost first and do not overlap; [before] is the part of the subject
    already passed, [skip] the number of code units left of the current
    match. *)
Fixpoint replaceFrom (pat template before s : jsstring) (skip : nat) : jsstring :=
  match s with
  | [] => []
  | c :: rest =>
      match skip with
      | S k => replaceFrom pat template (before ++ [c]) rest k
      | O =>
          if startsWith pat s
          then GetSubstitution pat before (drop (length pat) s) template
                 ++ replaceFrom pat template (before ++ [c]) rest (length pat - 1)
          else c :: replaceFrom pat template (before ++ [c]) rest 0
      end
  end.

Definition replaceGlobal (pat template s : jsstring) : jsstring :=
  replaceFrom pat template [] s 0.

(** Characters with a meaning in a regular-expression source. *)
Definition isSyntaxCharacter (c : N) : bool :=
  bool_decide (c ∈ js "^$\.*+?()[]{}|").

Definition isDecimalDigit (c : N) : bool := (48 <=? c) && (c <=? 57).

Fixpoint dropDigits (s : jsstring) : jsstring :=
  match s with
  | [] => []
  | c :: r => if isDecimalDigit c then dropDigits r else s
  end.

(** [n], [n,] and [n,m]: the bodies for which the inner braces of the
    placeholder would be read as a quantifier on the first brace. *)
Definition isQuantifierBody (s : jsstring) : bool :=
  match s with
  | [] => false
  | c :: _ =>
      isDecimalDigit c &&
      match dropDigits s with
      | [] => true
      | d :: r => (d =? 44) && match dropDigits r with [] => true | _ => false end
      end
  end.

(** Own and inherited keys every plain object answers to: a lookup of one
    of them in a [Record<string, string>] does not yield a string. *)
Definition objectPrototypeKeys : list jsstring :=
  js <$> [ "constructor"; "__proto__"; "hasOwnProperty"; "isPrototypeOf";
           "propertyIsEnumerable"; "toLocaleString"; "toString"; "valueOf";
           "__defineGetter__"; "__defineSetter__"; "__lookupGetter__";
           "__lookupSetter__" ]%string.

(** A source with an opening parenthesis and without a closing one, a
    backslash or an opening bracket: the parenthesis is neither escaped
    nor in a character class, and the group it opens is not terminated. *)
Definition unterminatedGroup (source : jsstring) : bool :=
  bool_decide (40 ∈ source) && bool_decide (41 ∉ source)
  && bool_decide (92 ∉ source) && bool_decide (91 ∉ source).

(** [Array.prototype.join(sep)] on an array of strings. *)
Fixpoint join (sep : jsstring) (parts : list jsstring) : jsstring :=
  match parts with
  | [] => []
  | [x] => x
  | x :: rest => x ++ sep ++ join sep rest
  end.

(** [a < b] on strings: the order of the code units, a proper prefix
    before the longer string. *)
Fixpoint stringLess (a b : jsstring) : bool :=
  match a, b with
  | _, [] => false
  | [], _ :: _ => true
  | x :: a', y :: b' => (x <? y) || ((x =? y) && stringLess a' b')
  end.

(** Insertion of [x] in front of the first element that is not less than
    it. *)
Fixpoint insertString (x : jsstring) (l : list jsstring) : list jsstring :=
  match l with
  | [] => [x]
  | y :: r => if stringLess y x then y :: insertString x r else x :: l
  end.

(** [Array.prototype.sort()] without a comparator on an array of strings:
    ascending in the order of [stringLess]; the sort is stable. *)
Definition sortStrings (l : list jsstring) : list jsstring :=
  foldr insertString [] l.

(** [Set.prototype.add] on an insertion-ordered set. *)
Definition setAdd (x : jsstring) (s : list jsstring) : list jsstring :=
  if decide (x ∈ s) then s else s ++ [x].

(** ** PromptCategory *)

Inductive PromptCategory := ANALYSIS | VISUALIZATION | REPORTING | METHODOLOGY.

#[global] Instance PromptCategory_eq_dec : EqDecision PromptCategory.
Proof. solve_decision. Defined.

(** The string value of each enum member. *)
Definition categoryValue (c : PromptCategory) : jsstring :=
  match c with
  | ANALYSIS => js "analysis"
  | VISUALIZATION => js "visualization"
  | REPORTING => js "reporting"
  | METHODOLOGY => js "methodology"
  end.

Definition getAllCategories : list PromptCategory :=
  [ANALYSIS; VISUALIZATION; REPORTING; METHODOLOGY].

(** The enum member whose value is [s], if any. *)
Definition asPromptCategory (s : jsstring) : option PromptCategory :=
  List.find (λ c, bool_decide (categoryValue c = s)) getAllCategories.

Definition isValidCategory (s : jsstring) : bool :=
  bool_decide (s ∈ categoryValue <$> getAllCategories).

Definition getCategoryDisplayName (c : PromptCategory) : jsstring :=
  match c with
  | ANALYSIS => js "Analysis"
  | VISUALIZATION => js "Visualization"
  | REPORTING => js "Reporting"
  | METHODOLOGY => js "Methodology"
  end.

Definition getCategoryDescription (c : PromptCategory) : jsstring :=
  match c with
  | ANALYSIS => js "Instructions for data analysis and exploration"
  | VISUALIZATION => js "Chart creation and visualization guidelines"
  | REPORTING => js "Report generation and formatting instructions"
  | METHODOLOGY => js "Analysis methodology and best practices"
  end.

(** ** PromptBlock (domain entity) *)

Module PromptVariable.
Record t := mk {
  name : jsstring;
  description : jsstring;
  required : bool;
  defaultValue : option jsstring
}.
End PromptVariable.

#[global] Instance PromptVariable_eq_dec : EqDecision PromptVariable.t.
Proof. solve_decision. Defined.

Inductive OutputType := TEXT | CODE | CHART | MARKDOWN.

#[global] Instance OutputType_eq_dec : EqDecision OutputType.
Proof. solve_decision. Defined.

Module PromptOutput.
Record t := mk {
  type : OutputType;
  description : jsstring;
  format : option jsstring
}.
End PromptOutput.

#[global] Instance PromptOutput_eq_dec : EqDecision PromptOutput.t.
Proof. solve_decision. Defined.

(** Raw block data as handed to [PromptBlock.create]; optional members of
    the interface are options. *)
Module PromptBlockData.
Record t := mk {
  name : jsstring;
  description : option jsstring;
  category : jsstring;
  tags : option (list jsstring);
  prompt : jsstring;
  variables : option (list PromptVariable.t);
  outputs : option (list PromptOutput.t);
  priority : option Z;
  enabled : option bool
}.
End PromptBlockData.

#[global] Instance PromptBlockData_eq_dec : EqDecision PromptBlockData.t.
Proof. solve_decision. Defined.

(** [PromptBlockValidationError(message, field)]. *)
Record PromptBlockValidationError := ValidationError {
  message : jsstring;
  field : option jsstring
}.

#[global] Instance PromptBlockValidationError_eq_dec :
  EqDecision PromptBlockValidationError.
Proof. solve_decision. Defined.

(** Outcome of a call that either returns or throws. *)
Inductive completion (A : Type) :=
  | Returns (a : A)
  | Throws (e : PromptBlockValidationError).
Arguments Returns {A} a.
Arguments Throws {A} e.

Module PromptBlock.

Record t := mk {
  name : jsstring;
  description : jsstring;
  category : PromptCategory;
  tags : list jsstring;
  prompt : jsstring;
  variables : list PromptVariable.t;
  outputs : list PromptOutput.t;
  priority : Z;
  enabled : bool
}.

(** [/^[a-zA-Z0-9_-]+$/]. *)
Definition isNameChar (c : N) : bool :=
  ((97 <=? c) && (c <=? 122)) || ((65 <=? c) && (c <=? 90)) ||
  ((48 <=? c) && (c <=? 57)) || (c =? 95) || (c =? 45).

Definition matchesNameFormat (s : jsstring) : bool :=
  truthy s && forallb isNameChar s.

(** [!s?.trim()]. *)
Definition blank (s : jsstring) : bool := negb (truthy (trim s)).

(** The loop over [data.variables]: the first variable without a name
    throws. *)
Definition variablesNamed (vs : option (list PromptVariable.t)) : bool :=
  match vs with
  | Some l => forallb (λ v, negb (blank (PromptVariable.name v))) l
  | None => true
  end.

(** [PromptBlock.create(data)].  The test [isValidCategory(data.category)]
    and the cast [data.category as PromptCategory] are one match on
    [asPromptCategory], which is [None] exactly when [isValidCategory] is
    false. *)
Definition create (data : PromptBlockData.t) : completion t :=
  if blank (PromptBlockData.name data) then
    Throws (ValidationError (js "Name is required") (Some (js "name")))
  else if blank (PromptBlockData.prompt data) then
    Throws (ValidationError (js "Prompt is required") (Some (js "prompt")))
  else if blank (PromptBlockData.category data) then
    Throws (ValidationError (js "Category is required") (Some (js "category")))
  else
    match asPromptCategory (PromptBlockData.category data) with
    | None =>
        Throws (ValidationError
                  (js "Invalid category: " ++ PromptBlockData.category data ++
                   js ". Must be one of: analysis, visualization, reporting, methodology")
                  (Some (js "category")))
    | Some cat =>
        if negb (matchesNameFormat (PromptBlockData.name data)) then
          Throws (ValidationError
                    (js "Name must contain only letters, numbers, underscores, and hyphens")
                    (Some (js "name")))
        else if negb (variablesNamed (PromptBlockData.variables data)) then
          Throws (ValidationError (js "Variable name is required")
                    (Some (js "variables")))
        else
          let priority := default 50%Z (PromptBlockData.priority data) in
          if ((priority <? 0) || (100 <? priority))%Z then
            Throws (ValidationError (js "Priority must be between 0 and 100")
                      (Some (js "priority")))
          else
            Returns {|
              name := trim (PromptBlockData.name data);
              description :=
                orElse (trim <$> PromptBlockData.description data) [];
              category := cat;
              tags := default [] (PromptBlockData.tags data);
              prompt := trim (PromptBlockData.prompt data);
              variables := default [] (PromptBlockData.variables data);
              outputs := default [] (PromptBlockData.outputs data);
              priority := priority;
              enabled := default true (PromptBlockData.enabled data)
            |}
    end.

Definition hasVariables (b : t) : bool :=
  match variables b with [] => false | _ :: _ => true end.

Definition isEnabled (b : t) : bool := enabled b.

(** The placeholder text of a variable, which is also the source of the
    regular expression built from it. *)
Definition placeholder (v : PromptVariable.t) : jsstring :=
  js "{{" ++ PromptVariable.name v ++ js "}}".

(** [variableValues?.[name]]: [undefined] without a map and for a name
    the map does not answer to, the string of an own entry, and [None] for
    a name without an own entry that the object inherits from
    [Object.prototype], where the lookup yields a function or an object. *)
Definition lookupValue (variableValues : option (gmap jsstring jsstring))
    (n : jsstring) : option (option jsstring) :=
  match variableValues with
  | None => Some None
  | Some m =>
      match m !! n with
      | Some s => Some (Some s)
      | None => if bool_decide (n ∈ objectPrototypeKeys) then None else Some None
      end
  end.

(** [variableValues?.[variable.name] || variable.defaultValue || ""]. *)
Definition chosenValue (variableValues : option (gmap jsstring jsstring))
    (v : PromptVariable.t) : option jsstring :=
  supplied ← lookupValue variableValues (PromptVariable.name v);
  Some (orElse supplied (orElse (PromptVariable.defaultValue v) [])).

(** The names for which [new RegExp("{{name}}", "g")] matches the
    placeholder text and nothing else: no syntax character in the name and
    no quantifier between the braces. *)
Definition literalPattern (n : jsstring) : bool :=
  forallb (λ c, negb (isSyntaxCharacter c)) n && negb (isQuantifierBody n).

(** The variable names for which the substitution step is embedded
    whatever the values: the expression matches the placeholder text and
    nothing else, and the name is not a key that a plain object
    inherits. *)
Definition plainVariableName (n : jsstring) : bool :=
  forallb (λ c, negb (isSyntaxCharacter c)) n
  && negb (isQuantifierBody n)
  && bool_decide (n ∉ objectPrototypeKeys).

(** [new RegExp(placeholder, "g")]: an expression that matches the
    placeholder text and nothing else, given by that text; a [SyntaxError]
    for a name that leaves a group unterminated; otherwise a proper
    regular expression, which is outside the embedding. *)
Definition placeholderPattern (v : PromptVariable.t) : option (evaluation jsstring) :=
  if literalPattern (PromptVariable.name v) then Some (Value (placeholder v))
  else if unterminatedGroup (placeholder v) then Some SyntaxError
  else None.

(** One iteration of the loop of [resolvePrompt]: the value is looked up,
    the expression is built, every match is replaced. *)
Definition substituteVariable (variableValues : option (gmap jsstring jsstring))
    (resolvedPrompt : jsstring) (v : PromptVariable.t) : option (evaluation jsstring) :=
  match placeholderPattern v with
  | Some (Value pattern) =>
      value ← chosenValue variableValues v;
      Some (Value (replaceGlobal pattern value resolvedPrompt))
  | Some SyntaxError => Some SyntaxError
  | None => None
  end.

(** The loop of [resolvePrompt] over the declared variables. *)
Fixpoint substituteVariables (variableValues : option (gmap jsstring jsstring))
    (resolvedPrompt : jsstring) (vs : list PromptVariable.t)
    : option (evaluation jsstring) :=
  match vs with
  | [] => Some (Value resolvedPrompt)
  | v :: rest =>
      match substituteVariable variableValues resolvedPrompt v with
      | Some (Value next) => substituteVariables variableValues next rest
      | stopped => stopped
      end
  end.

(** [resolvePrompt(variableValues)]. *)
Definition resolvePrompt (b : t)
    (variableValues : option (gmap jsstring jsstring)) : option (evaluation jsstring) :=
  if negb (hasVariables b) then Some (Value (prompt b))
  else substituteVariables variableValues (prompt b) (variables b).

(** [toData()]: every member present. *)
Definition toData (b : t) : PromptBlockData.t :=
  {| PromptBlockData.name := name b;
     PromptBlockData.description := Some (description b);
     PromptBlockData.category := categoryValue (category b);
     PromptBlockData.tags := Some (tags b);
     PromptBlockData.prompt := prompt b;
     PromptBlockData.variables := Some (variables b);
     PromptBlockData.outputs := Some (outputs b);
     PromptBlockData.priority := Some (priority b);
     PromptBlockData.enabled := Some (enabled b) |}.

(** [getRequiredVariables()]. *)
Definition getRequiredVariables (b : t) : list PromptVariable.t :=
  List.filter PromptVariable.required (variables b).

(** [hasTag(tag)]: [Array.prototype.includes] on an array of strings. *)
Definition hasTag (b : t) (tag : jsstring) : bool := bool_decide (tag ∈ tags b).

(** [getId()]: the category value, a colon, the name. *)
Definition getId (b : t) : jsstring :=
  categoryValue (category b) ++ js ":" ++ name b.

(** [withEnabled(enabled)]: the constructor on the members of [this], with
    the given flag. *)
Definition withEnabled (b : t) (e : bool) : t :=
  {| name := name b;
     description := description b;
     category := category b;
     tags := tags b;
     prompt := prompt b;
     variables := variables b;
     outputs := outputs b;
     priority := priority b;
     enabled := e |}.

End PromptBlock.

#[global] Instance PromptBlock_eq_dec : EqDecision PromptBlock.t.
Proof. solve_decision. Defined.

(** ** EnhanceSystemPrompt (composer use case) *)

Module ActivePromptConfig.
Record t := mk {
  block : PromptBlock.t;
  variables : option (gmap jsstring jsstring);
  priority : option Z
}.
End ActivePromptConfig.

#[global] Instance ActivePromptConfig_eq_dec : EqDecision ActivePromptConfig.t.
Proof. solve_decision. Defined.

Record ConflictResolution := mkConflictResolution {
  category : PromptCategory;
  previousBlock : option jsstring;
  selectedBlock : jsstring;
  reason : jsstring
}.

#[global] Instance ConflictResolution_eq_dec : EqDecision ConflictResolution.
Proof. solve_decision. Defined.

Record SystemPromptResult := mkSystemPromptResult {
  originalPrompt : jsstring;
  enhancedPrompt : jsstring;
  appliedPrompts : list ActivePromptConfig.t;
  conflictResolution : list ConflictResolution;
  totalLength : Z;
  addedLength : Z
}.

Module EnhanceSystemPrompt.

Import ActivePromptConfig.

(** The separator ["\n\n"]. *)
Definition separator : jsstring := [10; 10].

(** [createActivePrompt(block, variables, priority)]. *)
Definition createActivePrompt (b : PromptBlock.t)
    (vars : option (gmap jsstring jsstring)) (prio : option Z) : t :=
  {| block := b; variables := vars;
     priority := Some (default (PromptBlock.priority b) prio) |}.

Definition categoryOf (p : t) : PromptCategory := PromptBlock.category (block p).

(** The number a defined priority stands for. *)
Definition priorityValue (p : t) : Z := default 0%Z (priority p).

Definition hasPriority (p : t) : bool :=
  match priority p with Some _ => true | None => false end.

(** Insertion of [x] in front of the first element it does not have to
    follow: with the comparator [(a, b) => b.priority - a.priority] an
    element stays behind every element of greater or equal priority that
    preceded it. *)
Fixpoint insertByPriority (x : t) (l : list t) : list t :=
  match l with
  | [] => [x]
  | y :: r =>
      if (priorityValue x <? priorityValue y)%Z
      then y :: insertByPriority x r
      else x :: l
  end.

(** [Array.prototype.sort((a, b) => b.priority - a.priority)].  The sort is
    stable (ECMAScript 2019), so its result is the one of a stable
    insertion sort.  An array of at most one element is returned without a
    call of the comparator.  With an undefined priority the comparator
    yields NaN and the order is implementation-defined: [None]. *)
Definition sortDescending (l : list t) : option (list t) :=
  match l with
  | [] | [_] => Some l
  | _ => if forallb hasPriority l then Some (foldr insertByPriority [] l) else None
  end.

(** [categoryMap.get(category).push(prompt)], creating the entry at the end
    of the map when the category is new. *)
Fixpoint pushToCategory (c : PromptCategory) (p : t)
    (categoryMap : list (PromptCategory * list t)) : list (PromptCategory * list t) :=
  match categoryMap with
  | [] => [(c, [p])]
  | (c', ps) :: m =>
      if decide (c' = c) then (c', ps ++ [p]) :: m
      else (c', ps) :: pushToCategory c p m
  end.

(** The first loop of [resolveConflicts]. *)
Definition groupByCategory (activePrompts : list t) : list (PromptCategory * list t) :=
  foldl (λ m p, pushToCategory (categoryOf p) p m) [] activePrompts.

Definition priorityToString (o : option Z) : jsstring :=
  match o with
  | Some z => numberToString z
  | None => js "undefined"
  end.

(** The record pushed for one loser of a category. *)
Definition conflictRecord (c : PromptCategory) (selected conflictPrompt : t)
    : ConflictResolution :=
  {| category := c;
     previousBlock := Some (PromptBlock.name (block conflictPrompt));
     selectedBlock := PromptBlock.name (block selected);
     reason := js "Higher priority (" ++ priorityToString (priority selected)
               ++ js " vs " ++ priorityToString (priority conflictPrompt)
               ++ js ")" |}.

(** The body of the second loop, for one map entry. *)
Definition resolveCategory (entry : PromptCategory * list t)
    : option (t * list ConflictResolution) :=
  match entry.2 with
  | [p] => Some (p, [])
  | prompts =>
      sortedByPriority ← sortDescending prompts;
      match sortedByPriority with
      | selected :: conflicted =>
          Some (selected, conflictRecord entry.1 selected <$> conflicted)
      | [] => None
      end
  end.

(** The second loop: survivors and conflict records in map order. *)
Fixpoint resolveEntries (entries : list (PromptCategory * list t))
    : option (list t * list ConflictResolution) :=
  match entries with
  | [] => Some ([], [])
  | e :: rest =>
      r ← resolveCategory e;
      rs ← resolveEntries rest;
      Some (r.1 :: rs.1, r.2 ++ rs.2)
  end.

Definition resolveConflicts (activePrompts : list t)
    : option (list t * list ConflictResolution) :=
  resolveEntries (groupByCategory activePrompts).

(** [[...prompts].sort(...)]. *)
Definition sortByPriority (prompts : list t) : option (list t) :=
  sortDescending prompts.

(** The loop of [concatenatePrompts]. *)
Fixpoint appendPrompts (enhanced : jsstring) (sortedPrompts : list t)
    : option (evaluation jsstring) :=
  match sortedPrompts with
  | [] => Some (Value enhanced)
  | promptConfig :: rest =>
      match PromptBlock.resolvePrompt (block promptConfig) (variables promptConfig) with
      | Some (Value resolvedPrompt) =>
          appendPrompts (enhanced ++ separator ++ trim resolvedPrompt) rest
      | stopped => stopped
      end
  end.

Definition concatenatePrompts (originalPrompt : jsstring) (sortedPrompts : list t)
    : option (evaluation jsstring) :=
  match sortedPrompts with
  | [] => Some (Value originalPrompt)
  | _ => appendPrompts (trim originalPrompt) sortedPrompts
  end.

(** [execute(originalPrompt, activePrompts)]: the result it returns, or
    the [SyntaxError] of a substitution; [None] when the call leaves the
    embedding. *)
Definition execute (originalPrompt : jsstring) (activePrompts : list t)
    : option (evaluation SystemPromptResult) :=
  rc ← resolveConflicts activePrompts;
  sortedPrompts ← sortByPriority rc.1;
  concatenated ← concatenatePrompts originalPrompt sortedPrompts;
  Some match concatenated with
       | Value enhancedPrompt =>
           Value {| originalPrompt := originalPrompt;
                    enhancedPrompt := enhancedPrompt;
                    appliedPrompts := sortedPrompts;
                    conflictResolution := rc.2;
                    totalLength := Z.of_nat (length enhancedPrompt);
                    addedLength := Z.of_nat (length enhancedPrompt)
                                   - Z.of_nat (length originalPrompt) |}
       | SyntaxError => SyntaxError
       end.

(** [categoryGroups.get(category).push(name)], creating the entry at the
    end of the map when the category is new. *)
Fixpoint pushName (c : PromptCategory) (n : jsstring)
    (categoryGroups : list (PromptCategory * list jsstring))
    : list (PromptCategory * list jsstring) :=
  match categoryGroups with
  | [] => [(c, [n])]
  | (c', ns) :: m =>
      if decide (c' = c) then (c', ns ++ [n]) :: m
      else (c', ns) :: pushName c n m
  end.

(** The first loop of [generatePromptSummary]. *)
Definition groupNames (resolvedPrompts : list t)
    : list (PromptCategory * list jsstring) :=
  foldl (λ m p, pushName (categoryOf p) (PromptBlock.name (block p)) m)
        [] resolvedPrompts.

(** The part of the summary for one map entry. *)
Definition summaryPart (entry : PromptCategory * list jsstring) : jsstring :=
  getCategoryDisplayName entry.1 ++ js ": " ++ join (js ", ") entry.2.

(** [generatePromptSummary(activePrompts)]; [None] when the conflict
    resolution leaves the embedding. *)
Definition generatePromptSummary (activePrompts : list t) : option jsstring :=
  match activePrompts with
  | [] => Some (js "No active prompt blocks")
  | _ =>
      rc ← resolveConflicts activePrompts;
      Some (join (js " | ") (summaryPart <$> groupNames rc.1))
  end.

(** [validateNoDependencyCycles(prompts)]. *)
Definition validateNoDependencyCycles (prompts : list t) : bool := true.

End EnhanceSystemPrompt.

(** ** FileSystemPromptBlockRepository (adapter) *)

(** Outcome of an awaited call of the host or of the YAML parser. *)
Inductive outcome (A : Type) :=
  | Fulfilled (a : A)
  | Rejected (errorMessage : jsstring).
Arguments Fulfilled {A} a.
Arguments Rejected {A} errorMessage.

(** What the repository consumes from its environment: the file system
    ([fileExistsAtPath] and [isDirectory] of [utils/fs], [fs.readdir],
    [fs.readFile]), [YamlPromptBlockParser.parseFromContent] (the external
    YAML parser followed by validation), the editor's
    [vscode.workspace.workspaceFolders] as their [fsPath]s, and
    [path.join].  A rejection carries the text that the caller takes from
    the error. *)
Record Host := mkHost {
  fileExistsAtPath : jsstring → bool;
  isDirectory : jsstring → bool;
  readdir : jsstring → outcome (list jsstring);
  readFile : jsstring → outcome jsstring;
  parseFromContent : jsstring → jsstring → outcome PromptBlockData.t;
  workspaceFolders : list jsstring;
  pathJoin : jsstring → jsstring → jsstring
}.

Record BlockLoadResult := mkBlockLoadResult {
  success : bool;
  block : option PromptBlock.t;
  error : option jsstring;
  source : jsstring;
  filePath : option jsstring
}.

#[global] Instance BlockLoadResult_eq_dec : EqDecision BlockLoadResult.
Proof. solve_decision. Defined.

(** The three values of the type of [BlockLoadResult.source]. *)
Definition sourceTags : list jsstring :=
  [js "workspace"; js "global"; js "defaults"].

Module FileSystemPromptBlockRepository.

Record CachedBlock := mkCachedBlock {
  cachedBlock : PromptBlock.t;
  timestamp : Z;
  cachedSource : jsstring
}.

Record SearchPath := mkSearchPath {
  path : jsstring;
  pathSource : jsstring
}.

(** The repository object: its constructor arguments, the environment it
    runs in, and its memo of single-block lookups. *)
Record t := mk {
  host : Host;
  workspacePath : option jsstring;
  globalPath : option jsstring;
  defaultsPath : option jsstring;
  cache : gmap jsstring CachedBlock
}.

Definition withCache (this : t) (c : gmap jsstring CachedBlock) : t :=
  {| host := host this; workspacePath := workspacePath this;
     globalPath := globalPath this; defaultsPath := defaultsPath this;
     cache := c |}.

(** 5 minutes, in milliseconds. *)
Definition cacheTimeout : Z := 5 * 60 * 1000.

(** [if (p) paths.push({ path: path.join(p, "prompts"), source })]. *)
Definition rootEntry (this : t) (root : option jsstring) (tag : jsstring)
    : list SearchPath :=
  match root with
  | Some p =>
      if truthy p then [mkSearchPath (pathJoin (host this) p (js "prompts")) tag]
      else []
  | None => []
  end.

(** The loop over [vscode.workspace.workspaceFolders]. *)
Definition addWorkspaceFolder (this : t) (paths : list SearchPath)
    (fsPath : jsstring) : list SearchPath :=
  let workspacePromptsPath :=
    pathJoin (host this) (pathJoin (host this) fsPath (js ".oacode")) (js "prompts") in
  if existsb (λ p, bool_decide (path p = workspacePromptsPath)) paths
  then paths
  else paths ++ [mkSearchPath workspacePromptsPath (js "workspace")].

(** [getSearchPaths()]: workspace, workspace folders, global, defaults. *)
Definition getSearchPaths (this : t) : list SearchPath :=
  foldl (addWorkspaceFolder this)
        (rootEntry this (workspacePath this) (js "workspace"))
        (workspaceFolders (host this))
  ++ rootEntry this (globalPath this) (js "global")
  ++ rootEntry this (defaultsPath this) (js "defaults").

Definition failure (errorMessage src file : jsstring) : BlockLoadResult :=
  {| success := false; block := None; error := Some errorMessage;
     source := src; filePath := Some file |}.

(** [loadBlockFromFile(filePath, source)]: every failure of reading,
    parsing or [PromptBlock.create] becomes a failure result. *)
Definition loadBlockFromFile (this : t) (file src : jsstring) : BlockLoadResult :=
  match readFile (host this) file with
  | Rejected m => failure m src file
  | Fulfilled content =>
      match parseFromContent (host this) content file with
      | Rejected m => failure m src file
      | Fulfilled data =>
          match PromptBlock.create data with
          | Throws e => failure (message e) src file
          | Returns b =>
              {| success := true; block := Some b; error := None;
                 source := src; filePath := Some file |}
          end
      end
  end.

Definition endsWith (s suffix : jsstring) : bool :=
  startsWith (rev suffix) (rev s).

Definition isYamlFile (file : jsstring) : bool :=
  endsWith file (js ".yaml") || endsWith file (js ".yml").

(** The blocks a successful result contributes to a directory scan. *)
Definition loadedBlock (r : BlockLoadResult) : list PromptBlock.t :=
  if success r then option_list (block r) else [].

(** [loadBlocksFromDirectory(directoryPath, source)]. *)
Definition loadBlocksFromDirectory (this : t) (directoryPath src : jsstring)
    : outcome (list PromptBlock.t) :=
  if negb (isDirectory (host this) directoryPath) then Fulfilled []
  else
    match readdir (host this) directoryPath with
    | Rejected m =>
        Rejected (js "Failed to read directory " ++ directoryPath ++ js ": " ++ m)
    | Fulfilled files =>
        Fulfilled
          (concat ((λ filename,
                      loadedBlock
                        (loadBlockFromFile this
                           (pathJoin (host this) directoryPath filename) src))
                   <$> List.filter isYamlFile files))
    end.

(** [blocks.set(name, block)] on an insertion-ordered map: an existing key
    keeps its position and takes the new value. *)
Fixpoint mapSet (k : jsstring) (b : PromptBlock.t)
    (m : list (jsstring * PromptBlock.t)) : list (jsstring * PromptBlock.t) :=
  match m with
  | [] => [(k, b)]
  | (k', b') :: m' =>
      if decide (k' = k) then (k, b) :: m' else (k', b') :: mapSet k b m'
  end.

(** The body of the loop of [loadAll] for one search path. *)
Definition mergeSource (this : t) (blocks : list (jsstring * PromptBlock.t))
    (sp : SearchPath) : list (jsstring * PromptBlock.t) :=
  match loadBlocksFromDirectory this (path sp) (pathSource sp) with
  | Fulfilled sourceBlocks =>
      foldl (λ m b, mapSet (PromptBlock.name b) b m) blocks sourceBlocks
  | Rejected _ => blocks
  end.

(** [loadAll()]. *)
Definition loadAll (this : t) : list PromptBlock.t :=
  (foldl (mergeSource this) [] (reverse (getSearchPaths this))).*2.

Definition loadByCategory (this : t) (c : PromptCategory) : list PromptBlock.t :=
  List.filter (λ b, bool_decide (PromptBlock.category b = c)) (loadAll this).

(** [getCachedBlock(cacheKey)] at clock [now]: an expired or missing entry
    is deleted. *)
Definition getCachedBlock (this : t) (cacheKey : jsstring) (now : Z)
    : option CachedBlock * t :=
  match cache this !! cacheKey with
  | Some cached =>
      if (now - timestamp cached <? cacheTimeout)%Z then (Some cached, this)
      else (None, withCache this (delete cacheKey (cache this)))
  | None => (None, withCache this (delete cacheKey (cache this)))
  end.

(** [cacheBlock(cacheKey, block, source)]. *)
Definition cacheBlock (this : t) (cacheKey : jsstring) (b : PromptBlock.t)
    (src : jsstring) (now : Z) : t :=
  withCache this (<[cacheKey := mkCachedBlock b now src]> (cache this)).

(** [if (result.success && result.block) this.cacheBlock(cacheKey,
    result.block, path)]. *)
Definition cacheResult (this : t) (cacheKey : jsstring) (result : BlockLoadResult)
    (file : jsstring) (now : Z) : t :=
  match block result with
  | Some b => if success result then cacheBlock this cacheKey b file now else this
  | None => this
  end.

(** The search loop of [loadByName]. *)
Fixpoint searchByName (this : t) (name cacheKey : jsstring) (now : Z)
    (searchPaths : list SearchPath) : BlockLoadResult * t :=
  match searchPaths with
  | [] =>
      ({| success := false; block := None;
          error := Some (js "Block '" ++ name ++ js "' not found");
          source := js "workspace"; filePath := None |}, this)
  | sp :: rest =>
      let file := pathJoin (host this) (path sp) (name ++ js ".yaml") in
      if negb (fileExistsAtPath (host this) file) then
        let ymlPath := pathJoin (host this) (path sp) (name ++ js ".yml") in
        if negb (fileExistsAtPath (host this) ymlPath) then
          searchByName this name cacheKey now rest
        else
          let result := loadBlockFromFile this ymlPath (pathSource sp) in
          (result, cacheResult this cacheKey result ymlPath now)
      else
        let result := loadBlockFromFile this file (pathSource sp) in
        (result, cacheResult this cacheKey result file now)
  end.

(** [loadByName(name)]; [now] is the clock at the cache lookup, [later]
    the clock when a loaded block is memoized. *)
Definition loadByName (this : t) (name : jsstring) (now later : Z)
    : BlockLoadResult * t :=
  if negb (PromptBlock.matchesNameFormat name) then
    ({| success := false; block := None;
        error := Some (js "Invalid block name format");
        source := js "workspace"; filePath := None |}, this)
  else
    let cacheKey := js "name:" ++ name in
    match getCachedBlock this cacheKey now with
    | (Some cached, this') =>
        ({| success := true; block := Some (cachedBlock cached); error := None;
            source := cachedSource cached;
            filePath := Some (cachedSource cached) |}, this')
    | (None, this') =>
        searchByName this' name cacheKey later (getSearchPaths this')
    end.

Definition clearCache (this : t) : t := withCache this ∅.

(** [exists(name)]: the lookup is the one of [loadByName], with its effect
    on the memo. *)
Definition exists_ (this : t) (name : jsstring) (now later : Z) : bool * t :=
  let (result, this') := loadByName this name now later in
  (success result, this').

(** The inner loop of [getAvailableNames] over the files of one directory.
    [stem file] stands for [path.basename(file, path.extname(file))], a
    function of the [path] module of the host like [path.join]. *)
Definition addNames (stem : jsstring → jsstring) (names files : list jsstring)
    : list jsstring :=
  foldl (λ s file, if isYamlFile file then setAdd (stem file) s else s)
        names files.

(** The body of the outer loop for one search path: a path that is not a
    directory, or that cannot be read, adds nothing. *)
Definition scanNames (this : t) (stem : jsstring → jsstring)
    (names : list jsstring) (sp : SearchPath) : list jsstring :=
  if negb (isDirectory (host this) (path sp)) then names
  else
    match readdir (host this) (path sp) with
    | Fulfilled files => addNames stem names files
    | Rejected _ => names
    end.

(** [getAvailableNames()]. *)
Definition getAvailableNames (this : t) (stem : jsstring → jsstring)
    : list jsstring :=
  sortStrings (foldl (scanNames this stem) [] (getSearchPaths this)).

End FileSystemPromptBlockRepository.

(** ** IPromptBlockRepository (port) *)

(** The part of the port used by the load use case.  A call may change the
    repository, so each method returns the repository after the call. *)
Class IPromptBlockRepository (R : Type) := {
  repositoryLoadAll : R → list PromptBlock.t * R;
  repositoryLoadByCategory : PromptCategory → R → list PromptBlock.t * R;
  repositoryClearCache : R → R
}.

#[global] Instance FileSystemPromptBlockRepository_port :
  IPromptBlockRepository FileSystemPromptBlockRepository.t := {|
  repositoryLoadAll this := (FileSystemPromptBlockRepository.loadAll this, this);
  repositoryLoadByCategory c this :=
    (FileSystemPromptBlockRepository.loadByCategory this c, this);
  repositoryClearCache := FileSystemPromptBlockRepository.clearCache
|}.

(** The lookup methods of the port: [loadByName] and
    [getAvailableNames]. *)
Class IPromptBlockLookup (R : Type) := {
  repositoryLoadByName : jsstring → R → BlockLoadResult * R;
  repositoryGetAvailableNames : R → list jsstring
}.

(** The file-system repository as a lookup, for given readings of the
    clock and a given [path] module. *)
Definition FileSystemPromptBlockRepository_lookup (now later : Z)
    (stem : jsstring → jsstring)
    : IPromptBlockLookup FileSystemPromptBlockRepository.t := {|
  repositoryLoadByName name this :=
    FileSystemPromptBlockRepository.loadByName this name now later;
  repositoryGetAvailableNames this :=
    FileSystemPromptBlockRepository.getAvailableNames this stem
|}.

(** ** LoadPromptBlocks (caching use case) *)

Module LoadPromptBlocks.

(** A reference to an array of blocks in the store. *)
Abbreviation ref := nat.

Record CacheEntry := mkCacheEntry {
  blocks : ref;
  timestamp : Z;
  version : Z
}.

#[global] Instance CacheEntry_eq_dec : EqDecision CacheEntry.
Proof. solve_decision. Defined.

Record LoadPromptBlocksResult := mkResult {
  resultBlocks : ref;
  loadedCount : Z;
  errorCount : Z;
  fromCache : bool;
  loadTime : Z
}.

Section UseCase.
Context {R : Type} `{!IPromptBlockRepository R}.

(** The use-case object together with the store of the arrays it and its
    callers hold: [arrays !! r] is the current content of array [r]. *)
Record t := mk {
  arrays : list (list PromptBlock.t);
  cache : gmap jsstring CacheEntry;
  cacheVersion : Z;
  repository : R
}.

Definition cacheTimeout : Z := 5 * 60 * 1000.

(** Allocation of a new array. *)
Definition newArray (content : list PromptBlock.t) (this : t) : ref * t :=
  (length (arrays this),
   {| arrays := arrays this ++ [content]; cache := cache this;
      cacheVersion := cacheVersion this; repository := repository this |}).

(** The current content of an array. *)
Definition contents (this : t) (r : ref) : list PromptBlock.t :=
  default [] (arrays this !! r).

(** A caller mutates, in any way, an array it holds a reference to. *)
Definition callerWrite (r : ref) (content : list PromptBlock.t) (this : t) : t :=
  {| arrays := <[r := content]> (arrays this); cache := cache this;
     cacheVersion := cacheVersion this; repository := repository this |}.

Definition withCache (this : t) (c : gmap jsstring CacheEntry) : t :=
  {| arrays := arrays this; cache := c;
     cacheVersion := cacheVersion this; repository := repository this |}.

Definition withRepository (this : t) (r : R) : t :=
  {| arrays := arrays this; cache := cache this;
     cacheVersion := cacheVersion this; repository := r |}.

(** [getCachedBlocks(cacheKey)] at clock [now]. *)
Definition getCachedBlocks (cacheKey : jsstring) (now : Z) (this : t)
    : option CacheEntry * t :=
  match cache this !! cacheKey with
  | Some cached =>
      if ((now - timestamp cached <? cacheTimeout)
          && (version cached =? cacheVersion this))%Z
      then (Some cached, this)
      else (None, withCache this (delete cacheKey (cache this)))
  | None => (None, withCache this (delete cacheKey (cache this)))
  end.

(** [cacheBlocks(cacheKey, blocks)]: the entry holds a new array with the
    elements of [blocks]. *)
Definition cacheBlocks (cacheKey : jsstring) (blocksRef : ref) (now : Z) (this : t) : t :=
  let (copy, this1) := newArray (contents this blocksRef) this in
  withCache this1
    (<[cacheKey := mkCacheEntry copy now (cacheVersion this1)]> (cache this1)).

(** The answer on a cache hit. *)
Definition hit (cached : CacheEntry) (startTime endTime : Z) (this : t)
    : LoadPromptBlocksResult :=
  {| resultBlocks := blocks cached;
     loadedCount := Z.of_nat (length (contents this (blocks cached)));
     errorCount := 0;
     fromCache := true;
     loadTime := endTime - startTime |}.

(** The part of a call after the repository has answered with [loaded]:
    filter, store, return. *)
Definition resume (cacheKey : jsstring) (loaded : list PromptBlock.t)
    (startTime later : Z) (this : t) : LoadPromptBlocksResult * t :=
  let (enabledBlocks, this1) := newArray (List.filter PromptBlock.isEnabled loaded) this in
  let this2 := cacheBlocks cacheKey enabledBlocks later this1 in
  ({| resultBlocks := enabledBlocks;
      loadedCount := Z.of_nat (length (contents this2 enabledBlocks));
      errorCount := Z.of_nat (length loaded)
                    - Z.of_nat (length (contents this2 enabledBlocks));
      fromCache := false;
      loadTime := later - startTime |}, this2).

(** [execute()]; [now] is the clock at the start of the call, [later] the
    clock once the repository has answered. *)
Definition execute (now later : Z) (this : t) : LoadPromptBlocksResult * t :=
  match getCachedBlocks (js "all") now this with
  | (Some cached, this1) => (hit cached now later this1, this1)
  | (None, this1) =>
      let (loaded, repo) := repositoryLoadAll (repository this1) in
      resume (js "all") loaded now later (withRepository this1 repo)
  end.

(** [executeByCategory(category)]. *)
Definition executeByCategory (c : PromptCategory) (now later : Z) (this : t)
    : LoadPromptBlocksResult * t :=
  let cacheKey := js "category:" ++ categoryValue c in
  match getCachedBlocks cacheKey now this with
  | (Some cached, this1) => (hit cached now later this1, this1)
  | (None, this1) =>
      let (loaded, repo) := repositoryLoadByCategory c (repository this1) in
      resume cacheKey loaded now later (withRepository this1 repo)
  end.

(** [invalidateCache()]. *)
Definition invalidateCache (this : t) : t :=
  {| arrays := arrays this;
     cache := ∅;
     cacheVersion := (cacheVersion this + 1)%Z;
     repository := repositoryClearCache (repository this) |}.

(** What can happen to a use-case object between two calls under
    observation: complete calls, the completion of a call that was waiting
    for the repository, invalidations, a change of the repository (the
    files changed), and writes of callers to arrays. *)
Inductive Event :=
  | CallExecute (now later : Z)
  | CallExecuteByCategory (c : PromptCategory) (now later : Z)
  | Completion (cacheKey : jsstring) (loaded : list PromptBlock.t) (startTime later : Z)
  | CallInvalidateCache
  | RepositoryChange (r : R)
  | CallerWrite (r : ref) (content : list PromptBlock.t).

Definition step (this : t) (e : Event) : t :=
  match e with
  | CallExecute now later => (execute now later this).2
  | CallExecuteByCategory c now later => (executeByCategory c now later this).2
  | Completion k loaded start later => (resume k loaded start later this).2
  | CallInvalidateCache => invalidateCache this
  | RepositoryChange r => withRepository this r
  | CallerWrite r content => callerWrite r content this
  end.

Definition run (this : t) (events : list Event) : t := foldl step this events.

End UseCase.

Arguments t R : clear implicits.
Arguments Event R : clear implicits.

Section Lookup.
Context {R : Type} `{!IPromptBlockLookup R}.

(** [executeByName(name)]: the block of a successful lookup when it is
    enabled, else [null]. *)
Definition executeByName (name : jsstring) (this : t R)
    : option PromptBlock.t * t R :=
  let (result, repo) := repositoryLoadByName name (repository this) in
  (if success result
   then match block result with
        | Some b => if PromptBlock.isEnabled b then Some b else None
        | None => None
        end
   else None,
   withRepository this repo).

(** [getAvailableNames()]. *)
Definition getAvailableNames (this : t R) : list jsstring :=
  repositoryGetAvailableNames (repository this).

End Lookup.

End LoadPromptBlocks.

(** ** Values of unknown type *)

(** A number: [NaN], an infinity, or a finite number, given by the
    rational it is (the two zeros are one). *)
Inductive JsNumber :=
  | NaN
  | Infinity (negative : bool)
  | Finite (q : Qc).

(** The number of an integer. *)
Definition integer (z : Z) : JsNumber := Finite (Qc_of_Z z).

(** [a < b] on numbers: false when either is [NaN]. *)
Definition lessThan (a b : JsNumber) : bool :=
  match a, b with
  | NaN, _ | _, NaN => false
  | Infinity true, Infinity true => false
  | Infinity true, _ => true
  | _, Infinity true => false
  | Infinity false, _ => false
  | _, Infinity false => true
  | Finite x, Finite y => bool_decide (x < y)%Qc
  end.

(** [a === 0]. *)
Definition isZero (a : JsNumber) : bool :=
  match a with
  | Finite q => bool_decide (q = 0%Qc)
  | _ => false
  end.

(** What the YAML parser returns and what the validators take as
    [unknown]: [undefined], [null], booleans, numbers, strings, arrays,
    and plain objects as the list of their own properties. *)
#[warnings="-register-all"] Inductive JsValue :=
  | JUndefined
  | JNull
  | JBoolean (b : bool)
  | JNumber (n : JsNumber)
  | JString (s : jsstring)
  | JArray (items : list JsValue)
  | JObject (properties : list (jsstring * JsValue)).

(** [typeof v]. *)
Definition typeOf (v : JsValue) : jsstring :=
  match v with
  | JUndefined => js "undefined"
  | JNull | JArray _ | JObject _ => js "object"
  | JBoolean _ => js "boolean"
  | JNumber _ => js "number"
  | JString _ => js "string"
  end.

(** Truthiness: [undefined], [null], [false], [0], [NaN] and the empty
    string are falsy. *)
Definition toBoolean (v : JsValue) : bool :=
  match v with
  | JUndefined | JNull => false
  | JBoolean b => b
  | JNumber n => match n with NaN => false | _ => negb (isZero n) end
  | JString s => truthy s
  | JArray _ | JObject _ => true
  end.

Fixpoint lookupProperty (k : jsstring) (properties : list (jsstring * JsValue))
    : option JsValue :=
  match properties with
  | [] => None
  | (k', v) :: rest => if decide (k' = k) then Some v else lookupProperty k rest
  end.

(** [k in v] and [v[k]] for the member names the validators read ([name],
    [prompt], [category], [description], [tags], [enabled], [priority],
    [variables], [required], [defaultValue]): none of them is a property
    of an array or of [Object.prototype]. *)
Definition hasProperty (k : jsstring) (v : JsValue) : bool :=
  match v with
  | JObject ps => bool_decide (is_Some (lookupProperty k ps))
  | _ => false
  end.

Definition getProperty (k : jsstring) (v : JsValue) : JsValue :=
  match v with
  | JObject ps => default JUndefined (lookupProperty k ps)
  | _ => JUndefined
  end.

(** [typeof v !== t]. *)
Definition notOfType (t : string) (v : JsValue) : bool :=
  bool_decide (typeOf v ≠ js t).

(** [!v || typeof v !== "object"]. *)
Definition notAnObject (v : JsValue) : bool :=
  negb (toBoolean v) || notOfType "object" v.

(** [v !== undefined]. *)
Definition isDefined (v : JsValue) : bool :=
  match v with JUndefined => false | _ => true end.

(** ** IPromptBlockValidator (port) *)

Module IPromptBlockValidator.

Record ValidationError := mkError {
  field : jsstring;
  message : jsstring;
  code : jsstring
}.

Record ValidationWarning := mkWarning {
  warningField : jsstring;
  warningMessage : jsstring;
  suggestion : option jsstring
}.

Record ValidationResult := mkResult {
  isValid : bool;
  errors : list ValidationError;
  warnings : list ValidationWarning
}.

(** The options; every member is optional.  [None] is a member that is
    absent, [Some None] a member that is present with the value
    [undefined]. *)
Record ValidationOptions := mkOptions {
  strict : option (option bool);
  requireDescription : option (option bool);
  requireTags : option (option bool);
  maxPromptLength : option (option Z)
}.

End IPromptBlockValidator.

(** ** YamlPromptBlockParser (adapter) *)

Module YamlPromptBlockParser.

Import IPromptBlockValidator.

(** The characters of [PROBLEMATIC_CHARS_REGEX]. *)
Definition isProblematic (c : N) : bool :=
  bool_decide (c ∈ [160; 8203; 8204; 8205; 8208; 8209; 8210; 8211; 8212; 8213;
                    8722; 8216; 8217; 8220; 8221]).

(** The replacer function of [cleanYamlContent], for one code unit of the
    content: a match is replaced, every other code unit is kept. *)
Definition replaceProblematic (c : N) : jsstring :=
  if negb (isProblematic c) then [c]
  else if c =? 160 then [32]
  else if (c =? 8203) || (c =? 8204) || (c =? 8205) then []
  else if (c =? 8216) || (c =? 8217) then [39]
  else if (c =? 8220) || (c =? 8221) then [34]
  else [45].

(** [cleanYamlContent(content)]. *)
Definition cleanYamlContent (content : jsstring) : jsstring :=
  let content :=
    match content with
    | c :: rest => if c =? 65279 then rest else content
    | [] => content
    end in
  trim (concat (replaceProblematic <$> content)).

(** [errors.length === 0]. *)
Definition noErrors (errors : list ValidationError) : bool :=
  match errors with [] => true | _ => false end.

Definition resultOf (errors : list ValidationError) (warnings : list ValidationWarning)
    : ValidationResult :=
  {| isValid := noErrors errors; errors := errors; warnings := warnings |}.

(** [getDefaultOptions()]. *)
Definition getDefaultOptions : ValidationOptions :=
  {| strict := Some (Some false);
     requireDescription := Some (Some false);
     requireTags := Some (Some false);
     maxPromptLength := Some (Some 10000%Z) |}.

(** One member of [{ ...defaults, ...options }]: a member that is present
    in [options], also with the value [undefined], replaces the default. *)
Definition spreadMember {A} (defaults options : option (option A)) : option (option A) :=
  match options with
  | Some v => Some v
  | None => defaults
  end.

(** [{ ...this.getDefaultOptions(), ...options }]. *)
Definition withOptions (options : option ValidationOptions) : ValidationOptions :=
  match options with
  | None => getDefaultOptions
  | Some o =>
      {| strict := spreadMember (strict getDefaultOptions) (strict o);
         requireDescription :=
           spreadMember (requireDescription getDefaultOptions) (requireDescription o);
         requireTags := spreadMember (requireTags getDefaultOptions) (requireTags o);
         maxPromptLength :=
           spreadMember (maxPromptLength getDefaultOptions) (maxPromptLength o) |}
  end.

(** The truth value of a boolean option. *)
Definition flag (member : option (option bool)) : bool :=
  match member with
  | Some (Some b) => b
  | _ => false
  end.

(** The limit a prompt is compared with, when [opts.maxPromptLength] is
    truthy. *)
Definition limit (member : option (option Z)) : option Z :=
  match member with
  | Some (Some n) => if (n =? 0)%Z then None else Some n
  | _ => None
  end.

Definition requiredError (name : string) (text : string) : ValidationError :=
  {| field := js name; message := js text; code := js "REQUIRED_FIELD_MISSING" |}.

Definition nameFormatError : ValidationError :=
  {| field := js "name";
     message := js "Name must contain only letters, numbers, underscores, and hyphens";
     code := js "INVALID_NAME_FORMAT" |}.

Definition categoryError (category : jsstring) : ValidationError :=
  {| field := js "category";
     message := js "Invalid category: " ++ category
                ++ js ". Must be one of: analysis, visualization, reporting, methodology";
     code := js "INVALID_CATEGORY" |}.

Definition promptTooLong (maxLength : Z) : ValidationError :=
  {| field := js "prompt";
     message := js "Prompt exceeds maximum length of " ++ numberToString maxLength
                ++ js " characters";
     code := js "PROMPT_TOO_LONG" |}.

Definition promptQuiteLong (promptLength : nat) : ValidationWarning :=
  {| warningField := js "prompt";
     warningMessage := js "Prompt is quite long (" ++ numberToString (Z.of_nat promptLength)
                       ++ js " characters)";
     suggestion := Some (js "Consider breaking into smaller, more focused prompts") |}.

(** The errors and warnings of the test of the length of a prompt that is
    not empty. *)
Definition lengthFindings (opts : ValidationOptions) (prompt : jsstring)
    : list ValidationError * list ValidationWarning :=
  match limit (maxPromptLength opts) with
  | Some n =>
      if (n <? Z.of_nat (length prompt))%Z then
        if flag (strict opts) then ([promptTooLong n], [])
        else ([], [promptQuiteLong (length prompt)])
      else ([], [])
  | None => ([], [])
  end.

(** [validateName(name)]. *)
Definition validateName (name : jsstring) : ValidationResult :=
  resultOf
    (if PromptBlock.blank name then [requiredError "name" "Name is required"]
     else if negb (PromptBlock.matchesNameFormat name) then [nameFormatError]
     else [])
    [].

(** [validateCategory(category)]. *)
Definition validateCategory (category : jsstring) : ValidationResult :=
  resultOf
    (if PromptBlock.blank category then [requiredError "category" "Category is required"]
     else if negb (isValidCategory category) then [categoryError category]
     else [])
    [].

(** [validatePrompt(prompt, options)]. *)
Definition validatePrompt (prompt : jsstring) (options : option ValidationOptions)
    : ValidationResult :=
  let opts := withOptions options in
  if PromptBlock.blank prompt
  then resultOf [requiredError "prompt" "Prompt is required"] []
  else resultOf (lengthFindings opts prompt).1 (lengthFindings opts prompt).2.

Definition itemField (array : string) (index : nat) (member : string) : jsstring :=
  js array ++ js "[" ++ numberToString (Z.of_nat index) ++ js "]" ++ js member.

(** The body of the loop of [validateVariables] for the element at
    [index]. *)
Definition variableErrors (index : nat) (variable : JsValue) : list ValidationError :=
  if notAnObject variable then
    [ {| field := itemField "variables" index "";
         message := js "Each variable must be an object";
         code := js "INVALID_ARRAY_ITEM_TYPE" |} ]
  else
    (if negb (toBoolean (getProperty (js "name") variable))
        || notOfType "string" (getProperty (js "name") variable)
     then [ {| field := itemField "variables" index ".name";
               message := js "Variable name is required and must be a string";
               code := js "INVALID_VARIABLE_NAME" |} ]
     else [])
    ++ (if isDefined (getProperty (js "description") variable)
           && notOfType "string" (getProperty (js "description") variable)
        then [ {| field := itemField "variables" index ".description";
                  message := js "Variable description must be a string if provided";
                  code := js "INVALID_FIELD_TYPE" |} ]
        else [])
    ++ (if isDefined (getProperty (js "required") variable)
           && notOfType "boolean" (getProperty (js "required") variable)
        then [ {| field := itemField "variables" index ".required";
                  message := js "Variable required field must be a boolean if provided";
                  code := js "INVALID_FIELD_TYPE" |} ]
        else [])
    ++ (if isDefined (getProperty (js "defaultValue") variable)
           && notOfType "string" (getProperty (js "defaultValue") variable)
        then [ {| field := itemField "variables" index ".defaultValue";
                  message := js "Variable defaultValue must be a string if provided";
                  code := js "INVALID_FIELD_TYPE" |} ]
        else []).

(** [validateVariables(variables)]. *)
Definition validateVariables (variables : JsValue) : ValidationResult :=
  match variables with
  | JArray items => resultOf (concat (imap variableErrors items)) []
  | _ =>
      {| isValid := false;
         errors := [ {| field := js "variables";
                        message := js "variables must be an array if provided";
                        code := js "INVALID_FIELD_TYPE" |} ];
         warnings := [] |}
  end.

(** [!v?.trim()] for a member [v] of the data: [None] when the call
    throws, [trim] not being a function of a value that is neither
    nullish nor a string. *)
Definition missingText (v : JsValue) : option bool :=
  match v with
  | JUndefined | JNull => Some true
  | JString s => Some (PromptBlock.blank s)
  | _ => None
  end.

(** [!data.tags || data.tags.length === 0]. *)
Definition noTags (tags : JsValue) : bool :=
  negb (toBoolean tags) ||
  match tags with
  | JArray items => bool_decide (items = [])
  | JObject ps =>
      match lookupProperty (js "length") ps with
      | Some (JNumber n) => isZero n
      | _ => false
      end
  | _ => false
  end.

(** The name-format test of [validate]: [data.name &&
    !data.name.match(...)].  Behind the tests of the required members,
    which throw for a member that is neither nullish nor a string, [name],
    [prompt] and [category] are strings or nullish. *)
Definition nameFormatFindings (name : JsValue) : list ValidationError :=
  match name with
  | JString name =>
      if truthy name && negb (PromptBlock.matchesNameFormat name)
      then [nameFormatError] else []
  | _ => []
  end.

(** [data.category && !isValidCategory(data.category)]. *)
Definition categoryFindings (category : JsValue) : list ValidationError :=
  match category with
  | JString category =>
      if truthy category && negb (isValidCategory category)
      then [categoryError category] else []
  | _ => []
  end.

Definition priorityError : ValidationError :=
  {| field := js "priority";
     message := js "Priority must be a number between 0 and 100";
     code := js "INVALID_PRIORITY_RANGE" |}.

(** The test of the priority, [typeof data.priority !== "number" ||
    data.priority < 0 || data.priority > 100] for a priority that is not
    [undefined]; [NaN] passes it. *)
Definition priorityFindings (priority : JsValue) : list ValidationError :=
  match priority with
  | JUndefined => []
  | JNumber n =>
      if lessThan n (integer 0) || lessThan (integer 100) n
      then [priorityError] else []
  | _ => [priorityError]
  end.

Definition descriptionWarning : ValidationWarning :=
  {| warningField := js "description";
     warningMessage := js "Description is recommended for better documentation";
     suggestion := Some (js "Add a brief description of what this prompt block does") |}.

Definition tagsWarning : ValidationWarning :=
  {| warningField := js "tags";
     warningMessage := js "Tags help with organization and searchability";
     suggestion :=
       Some (js "Add relevant tags like ['analysis', 'visualization', 'reporting']") |}.

(** The test of the length of [data.prompt]. *)
Definition promptLengthFindings (opts : ValidationOptions) (prompt : JsValue)
    : list ValidationError * list ValidationWarning :=
  match prompt with
  | JString prompt => if truthy prompt then lengthFindings opts prompt else ([], [])
  | _ => ([], [])
  end.

(** [if (data.variables) validateVariables(data.variables)]. *)
Definition variablesFindings (variables : JsValue) : ValidationResult :=
  if toBoolean variables then validateVariables variables else resultOf [] [].

(** [validate(data, options)]; [None] when the call throws a
    [TypeError]. *)
Definition validate (data : JsValue) (options : option ValidationOptions)
    : option ValidationResult :=
  let opts := withOptions options in
  match data with
  | JUndefined | JNull => None
  | _ =>
      match missingText (getProperty (js "name") data),
            missingText (getProperty (js "prompt") data),
            missingText (getProperty (js "category") data),
            (if flag (requireDescription opts)
             then missingText (getProperty (js "description") data)
             else Some false) with
      | Some noName, Some noPrompt, Some noCategory, Some noDescription =>
          let promptLength :=
            promptLengthFindings opts (getProperty (js "prompt") data) in
          let variables := variablesFindings (getProperty (js "variables") data) in
          Some (resultOf
                  ((if noName then [requiredError "name" "Name is required"] else [])
                   ++ (if noPrompt then [requiredError "prompt" "Prompt is required"]
                       else [])
                   ++ (if noCategory
                       then [requiredError "category" "Category is required"] else [])
                   ++ nameFormatFindings (getProperty (js "name") data)
                   ++ categoryFindings (getProperty (js "category") data)
                   ++ priorityFindings (getProperty (js "priority") data)
                   ++ promptLength.1
                   ++ errors variables)
                  ((if noDescription then [descriptionWarning] else [])
                   ++ (if flag (requireTags opts)
                          && noTags (getProperty (js "tags") data)
                       then [tagsWarning] else [])
                   ++ promptLength.2
                   ++ warnings variables))
      | _, _, _, _ => None
      end
  end.

(** The test of [validateSchema] for a member that must have the type [t]
    when it is present; an optional member may also be [undefined]. *)
Definition typeError (optional : bool) (t member text : string) (data : JsValue)
    : list ValidationError :=
  if hasProperty (js member) data
     && (negb optional || isDefined (getProperty (js member) data))
     && notOfType t (getProperty (js member) data)
  then [ {| field := js member;
            message := js member ++ js text;
            code := js "INVALID_FIELD_TYPE" |} ]
  else [].

(** The test of the [tags] member. *)
Definition tagsErrors (data : JsValue) : list ValidationError :=
  if hasProperty (js "tags") data && isDefined (getProperty (js "tags") data) then
    match getProperty (js "tags") data with
    | JArray tags =>
        concat (imap (λ index tag,
                        if notOfType "string" tag
                        then [ {| field := itemField "tags" index "";
                                  message := js "All tags must be strings";
                                  code := js "INVALID_ARRAY_ITEM_TYPE" |} ]
                        else []) tags)
    | _ => [ {| field := js "tags";
                message := js "tags must be an array if provided";
                code := js "INVALID_FIELD_TYPE" |} ]
    end
  else [].

(** [validateSchema(rawData)]. *)
Definition validateSchema (rawData : JsValue) : ValidationResult :=
  if notAnObject rawData then
    {| isValid := false;
       errors := [ {| field := js "root";
                      message := js "YAML must contain an object";
                      code := js "INVALID_ROOT_TYPE" |} ];
       warnings := [] |}
  else
    resultOf
      (typeError false "string" "name" " must be a string" rawData
       ++ typeError false "string" "prompt" " must be a string" rawData
       ++ typeError false "string" "category" " must be a string" rawData
       ++ typeError true "string" "description" " must be a string if provided" rawData
       ++ tagsErrors rawData
       ++ typeError true "boolean" "enabled" " must be a boolean if provided" rawData
       ++ typeError true "number" "priority" " must be a number if provided" rawData)
      [].

(** The message of a failure of the YAML parser or of another error that
    is not a validation error. *)
Definition parsingFailed (filePath : option jsstring) (errorMessage : jsstring)
    : jsstring :=
  js "YAML parsing failed"
  ++ match filePath with
     | Some p => if truthy p then js " in " ++ p else []
     | None => []
     end
  ++ js ": " ++ errorMessage.

Definition failedWith (text : string) (result : ValidationResult) : jsstring :=
  js text ++ join (js "; ") (message <$> errors result).

(** [parseFromContent(content, filePath)] over the parser [yamlParse] of
    the [yaml] package; a rejection carries the message of the
    [PromptBlockValidationError].  [None] when [validate] throws a
    [TypeError], whose message is the engine's. *)
Definition parseFromContent (yamlParse : jsstring → outcome JsValue)
    (content : jsstring) (filePath : option jsstring) : option (outcome JsValue) :=
  match yamlParse (cleanYamlContent content) with
  | Rejected errorMessage => Some (Rejected (parsingFailed filePath errorMessage))
  | Fulfilled parsed =>
      if notAnObject parsed
      then Some (Rejected (js "YAML file must contain a valid object"))
      else
        let schemaValidation := validateSchema parsed in
        if negb (isValid schemaValidation)
        then Some (Rejected (failedWith "Schema validation failed: " schemaValidation))
        else
          dataValidation ← validate parsed None;
          if negb (isValid dataValidation)
          then Some (Rejected (failedWith "Data validation failed: " dataValidation))
          else Some (Fulfilled parsed)
  end.

End YamlPromptBlockParser.

(** ** Prompt-block utilities of the webview *)

Module PromptBlockInfo.
Record t := mk {
  name : jsstring;
  description : jsstring;
  category : PromptCategory;
  tags : list jsstring;
  priority : Z;
  enabled : bool
}.
End PromptBlockInfo.

(** The three values of the [section] of a slash command. *)
Inductive CommandSection := PROMPTS | DEFAULT | CUSTOM.

#[global] Instance CommandSection_eq_dec : EqDecision CommandSection.
Proof. solve_decision. Defined.

Definition sectionValue (s : CommandSection) : jsstring :=
  match s with
  | PROMPTS => js "prompts"
  | DEFAULT => js "default"
  | CUSTOM => js "custom"
  end.

Module PromptBlockSlashCommand.
Record t := mk {
  name : jsstring;
  description : option jsstring;
  section : CommandSection;
  category : option jsstring;
  promptBlock : option PromptBlockInfo.t
}.
End PromptBlockSlashCommand.

Module WebviewPromptBlocks.

(** [promptBlocksToSlashCommands(blocks)]. *)
Definition promptBlocksToSlashCommands (blocks : list PromptBlockInfo.t)
    : list PromptBlockSlashCommand.t :=
  (λ block,
     {| PromptBlockSlashCommand.name := PromptBlockInfo.name block;
        PromptBlockSlashCommand.description := Some (PromptBlockInfo.description block);
        PromptBlockSlashCommand.section := PROMPTS;
        PromptBlockSlashCommand.category :=
          Some (categoryValue (PromptBlockInfo.category block));
        PromptBlockSlashCommand.promptBlock := Some block |}) <$> blocks.

(** [getCategoryDisplayName(category)] of the webview: the display name
    behind a pictograph, which is a surrogate pair, and a space; any other
    string as it is. *)
Definition getCategoryDisplayName (category : jsstring) : jsstring :=
  if decide (category = js "analysis") then [55357; 56522; 32] ++ js "Analysis"
  else if decide (category = js "visualization")
  then [55357; 56520; 32] ++ js "Visualization"
  else if decide (category = js "reporting") then [55357; 56523; 32] ++ js "Reporting"
  else if decide (category = js "methodology")
  then [55357; 56620; 32] ++ js "Methodology"
  else category.

(** [groups[section].push(command)], creating the array when the object
    has no member for the section; the members of the object keep the
    order in which they were created. *)
Fixpoint pushCommand (s : CommandSection) (command : PromptBlockSlashCommand.t)
    (groups : list (CommandSection * list PromptBlockSlashCommand.t))
    : list (CommandSection * list PromptBlockSlashCommand.t) :=
  match groups with
  | [] => [(s, [command])]
  | (s', commands) :: rest =>
      if decide (s' = s) then (s', commands ++ [command]) :: rest
      else (s', commands) :: pushCommand s command rest
  end.

(** [groupSlashCommands(commands)].  Every value of the type of [section]
    is truthy, so that [command.section || "default"] is the section. *)
Definition groupSlashCommands (commands : list PromptBlockSlashCommand.t)
    : list (CommandSection * list PromptBlockSlashCommand.t) :=
  foldl (λ groups command,
           pushCommand (PromptBlockSlashCommand.section command) command groups)
        [] commands.

End WebviewPromptBlocks.


(** * Reference definitions and sample data *)

(** ** Entity *)

(** The documented defaults of the optional members. *)
Definition withDefaults (d : PromptBlockData.t) : PromptBlockData.t :=
  {| PromptBlockData.name := PromptBlockData.name d;
     PromptBlockData.description := Some (default [] (PromptBlockData.description d));
     PromptBlockData.category := PromptBlockData.category d;
     PromptBlockData.tags := Some (default [] (PromptBlockData.tags d));
     PromptBlockData.prompt := PromptBlockData.prompt d;
     PromptBlockData.variables := Some (default [] (PromptBlockData.variables d));
     PromptBlockData.outputs := Some (default [] (PromptBlockData.outputs d));
     PromptBlockData.priority := Some (default 50%Z (PromptBlockData.priority d));
     PromptBlockData.enabled := Some (default true (PromptBlockData.enabled d)) |}.

(** The data with its two free-text members trimmed. *)
Definition trimmedText (d : PromptBlockData.t) : PromptBlockData.t :=
  {| PromptBlockData.name := PromptBlockData.name d;
     PromptBlockData.description := trim <$> PromptBlockData.description d;
     PromptBlockData.category := PromptBlockData.category d;
     PromptBlockData.tags := PromptBlockData.tags d;
     PromptBlockData.prompt := trim (PromptBlockData.prompt d);
     PromptBlockData.variables := PromptBlockData.variables d;
     PromptBlockData.outputs := PromptBlockData.outputs d;
     PromptBlockData.priority := PromptBlockData.priority d;
     PromptBlockData.enabled := PromptBlockData.enabled d |}.

(** Valid data with padded free text, one variable and omitted members. *)
Definition sampleData : PromptBlockData.t :=
  {| PromptBlockData.name := js "eda-analysis";
     PromptBlockData.description := Some (js " Exploratory analysis ");
     PromptBlockData.category := js "analysis";
     PromptBlockData.tags := Some [js "data"; js "statistics"];
     PromptBlockData.prompt := js "Analyze {{dataset}} in depth." ++ [10];
     PromptBlockData.variables :=
       Some [PromptVariable.mk (js "dataset") (js "Dataset") true None];
     PromptBlockData.outputs := None;
     PromptBlockData.priority := Some 80%Z;
     PromptBlockData.enabled := None |}.

(** Valid data whose prompt ends with a space. *)
Definition paddedData : PromptBlockData.t :=
  {| PromptBlockData.name := js "x";
     PromptBlockData.description := None;
     PromptBlockData.category := js "analysis";
     PromptBlockData.tags := None;
     PromptBlockData.prompt := js "hi ";
     PromptBlockData.variables := None;
     PromptBlockData.outputs := None;
     PromptBlockData.priority := None;
     PromptBlockData.enabled := None |}.

(** Data that is valid but for a prompt of one space. *)
Definition blankPromptData : PromptBlockData.t :=
  {| PromptBlockData.name := js "x";
     PromptBlockData.description := None;
     PromptBlockData.category := js "analysis";
     PromptBlockData.tags := None;
     PromptBlockData.prompt := js " ";
     PromptBlockData.variables := None;
     PromptBlockData.outputs := None;
     PromptBlockData.priority := None;
     PromptBlockData.enabled := None |}.

(** ** Variable substitution *)

(** Literal replacement of every occurrence of [pat] in [s] by [value]:
    occurrences are taken from left to right and do not overlap, and the
    value is inserted as it is. *)
Equations? replaceAllLiteral (pat value s : jsstring) : jsstring by wf (length s) lt :=
  replaceAllLiteral pat value [] := [];
  replaceAllLiteral pat value (c :: rest) with startsWith pat (c :: rest) => {
    | true := value ++ replaceAllLiteral pat value (drop (length pat - 1) rest);
    | false := c :: replaceAllLiteral pat value rest }.
Proof. all: simpl; try lia. rewrite length_drop. lia. Qed.

(** The value supplied for a variable by an activation. *)
Definition suppliedValue (variableValues : option (gmap jsstring jsstring))
    (v : PromptVariable.t) : option jsstring :=
  variableValues ≫= (λ m, m !! PromptVariable.name v).

(** The value put in place of a placeholder: the supplied one when there
    is one and it is not empty, else the declared default, else the empty
    string. *)
Definition substitutedValue (supplied default_ : option jsstring) : jsstring :=
  match supplied with
  | Some (c :: s) => c :: s
  | _ => default [] default_
  end.

(** One step of the substitution for a variable with a plain name: every
    match of the placeholder text is replaced by the chosen value, in which
    [String.prototype.replace] expands the dollar patterns. *)
Definition substituted (variableValues : option (gmap jsstring jsstring))
    (text : jsstring) (v : PromptVariable.t) : jsstring :=
  replaceGlobal (PromptBlock.placeholder v)
    (substitutedValue (suppliedValue variableValues v) (PromptVariable.defaultValue v))
    text.

(** The value C4 states: a supplied value, even an empty one, before the
    declared default. *)
Definition claimedValue (supplied default_ : option jsstring) : jsstring :=
  match supplied with
  | Some s => s
  | None => default [] default_
  end.

(** A block with one variable that has a default. *)
Definition roleBlock : PromptBlock.t :=
  {| PromptBlock.name := js "role-block";
     PromptBlock.description := [];
     PromptBlock.category := METHODOLOGY;
     PromptBlock.tags := [];
     PromptBlock.prompt := js "Act as {{role}}; a {{role}} explains.";
     PromptBlock.variables :=
       [PromptVariable.mk (js "role") (js "User role") false (Some (js "analyst"))];
     PromptBlock.outputs := [];
     PromptBlock.priority := 50;
     PromptBlock.enabled := true |}.

(** ** Composer *)

(** The configs of category [c], in input order. *)
Definition inCategory (c : PromptCategory) (l : list ActivePromptConfig.t)
    : list ActivePromptConfig.t :=
  filter (λ p, EnhanceSystemPrompt.categoryOf p = c) l.








(** The substituted body of a covered config. *)
Definition resolvedBody (p : ActivePromptConfig.t) : jsstring :=
  match PromptBlock.resolvePrompt (ActivePromptConfig.block p)
          (ActivePromptConfig.variables p) with
  | Some (Value body) => body
  | _ => []
  end.

(** A block without variables. *)
Definition plainBlock (name : string) (c : PromptCategory) (prio : Z)
    (body : string) : PromptBlock.t :=
  {| PromptBlock.name := js name;
     PromptBlock.description := [];
     PromptBlock.category := c;
     PromptBlock.tags := [];
     PromptBlock.prompt := js body;
     PromptBlock.variables := [];
     PromptBlock.outputs := [];
     PromptBlock.priority := prio;
     PromptBlock.enabled := true |}.

(** Two analysis blocks of priority 50, and a visualization block with a
    variable. *)
Definition blockA : ActivePromptConfig.t :=
  EnhanceSystemPrompt.createActivePrompt
    (plainBlock "blockA" ANALYSIS 50 "Body of A.") None None.

Definition blockB : ActivePromptConfig.t :=
  EnhanceSystemPrompt.createActivePrompt
    (plainBlock "blockB" ANALYSIS 50 "Body of B.") None None.

Definition chartBlock : ActivePromptConfig.t :=
  EnhanceSystemPrompt.createActivePrompt
    {| PromptBlock.name := js "chart-visualization";
       PromptBlock.description := [];
       PromptBlock.category := VISUALIZATION;
       PromptBlock.tags := [];
       PromptBlock.prompt := js "Create {{library}} charts.";
       PromptBlock.variables :=
         [PromptVariable.mk (js "library") (js "Chart library") false
            (Some (js "Chart.js"))];
       PromptBlock.outputs := [];
       PromptBlock.priority := 90;
       PromptBlock.enabled := true |}
    None None.

(** Two analysis blocks of different priorities, the lower one first. *)
Definition basicBlock : ActivePromptConfig.t :=
  EnhanceSystemPrompt.createActivePrompt
    (plainBlock "basic-analysis" ANALYSIS 60 "Basic analysis instructions.") None None.

Definition advancedBlock : ActivePromptConfig.t :=
  EnhanceSystemPrompt.createActivePrompt
    (plainBlock "advanced-analysis" ANALYSIS 90 "Advanced analysis instructions.")
    None None.




(** ** Repository *)

(** A successful load result. *)
Definition loaded (b : PromptBlock.t) (src file : jsstring) : BlockLoadResult :=
  {| success := true; block := Some b; error := None;
     source := src; filePath := Some file |}.

(** The answer of [loadByName] when no search path has a file. *)
Definition notFound (name : jsstring) : BlockLoadResult :=
  {| success := false; block := None;
     error := Some (js "Block '" ++ name ++ js "' not found");
     source := js "workspace"; filePath := None |}.

(** The directory searched under a root path. *)
Definition promptsDirectory (h : Host) (root : jsstring) : jsstring :=
  pathJoin h root (js "prompts").

(** The candidate file of a directory for a name: [name.yaml] if it
    exists, else [name.yml] if that exists. *)
Definition candidateFile (h : Host) (dir name : jsstring) : option jsstring :=
  if fileExistsAtPath h (pathJoin h dir (name ++ js ".yaml"))
  then Some (pathJoin h dir (name ++ js ".yaml"))
  else if fileExistsAtPath h (pathJoin h dir (name ++ js ".yml"))
  then Some (pathJoin h dir (name ++ js ".yml"))
  else None.

(** A name-keyed map: no key twice, every block under its own name. *)
Definition keyed (M : list (jsstring * PromptBlock.t)) : Prop :=
  NoDup M.*1 ∧ Forall (λ e, PromptBlock.name e.2 = e.1) M.

(** A source holds the block [bw] for the name [x]: its candidate [file]
    for the name loads to [bw], and [bw] is the one block of that name its
    directory scan yields. *)
Definition holdsBlock (this : FileSystemPromptBlockRepository.t)
    (sp : FileSystemPromptBlockRepository.SearchPath) (x file : jsstring)
    (bw : PromptBlock.t) : Prop :=
  let h := FileSystemPromptBlockRepository.host this in
  let dir := FileSystemPromptBlockRepository.path sp in
  let tag := FileSystemPromptBlockRepository.pathSource sp in
  candidateFile h dir x = Some file ∧
  FileSystemPromptBlockRepository.loadBlockFromFile this file tag
    = loaded bw tag file ∧
  ∃ bs, FileSystemPromptBlockRepository.loadBlocksFromDirectory this dir tag
          = Fulfilled bs ∧
        bw ∈ bs ∧ ∀ b, b ∈ bs → PromptBlock.name b = x → b = bw.

(** A source has nothing for the name [x]: no candidate file, and no block
    of that name in its directory scan. *)
Definition lacksBlock (this : FileSystemPromptBlockRepository.t)
    (sp : FileSystemPromptBlockRepository.SearchPath) (x : jsstring) : Prop :=
  let h := FileSystemPromptBlockRepository.host this in
  let dir := FileSystemPromptBlockRepository.path sp in
  let tag := FileSystemPromptBlockRepository.pathSource sp in
  candidateFile h dir x = None ∧
  ∀ bs, FileSystemPromptBlockRepository.loadBlocksFromDirectory this dir tag
          = Fulfilled bs →
        ∀ b, b ∈ bs → PromptBlock.name b ≠ x.

(** A host given by tables: the listing of each directory, the content of
    each file, and what the YAML parser returns for a content. *)
Definition tableHost (dirs : gmap jsstring (list jsstring))
    (files : gmap jsstring jsstring) (yaml : gmap jsstring PromptBlockData.t)
    (folders : list jsstring) : Host :=
  {| fileExistsAtPath p := bool_decide (is_Some (files !! p));
     isDirectory p := bool_decide (is_Some (dirs !! p));
     readdir p :=
       match dirs !! p with
       | Some l => Fulfilled l
       | None => Rejected (js "ENOENT: no such file or directory")
       end;
     readFile p :=
       match files !! p with
       | Some c => Fulfilled c
       | None => Rejected (js "ENOENT: no such file or directory")
       end;
     parseFromContent c _ :=
       match yaml !! c with
       | Some d => Fulfilled d
       | None => Rejected (js "YAML parsing failed")
       end;
     workspaceFolders := folders;
     pathJoin a b := a ++ js "/" ++ b |}.

(** Block data named [x] with a given prompt. *)
Definition dataX (body : string) : PromptBlockData.t :=
  {| PromptBlockData.name := js "x";
     PromptBlockData.description := None;
     PromptBlockData.category := js "analysis";
     PromptBlockData.tags := None;
     PromptBlockData.prompt := js body;
     PromptBlockData.variables := None;
     PromptBlockData.outputs := None;
     PromptBlockData.priority := None;
     PromptBlockData.enabled := None |}.

(** The block [PromptBlock.create] makes of [dataX body]. *)
Definition blockX (body : string) : PromptBlock.t :=
  plainBlock "x" ANALYSIS 50 body.

(** The name-collision scenario: [x.yaml] in the workspace and in the
    defaults, with different content. *)
Definition collisionHost : Host :=
  tableHost
    {[ js "/ws/prompts" := [js "x.yaml"];
       js "/ext/prompts" := [js "x.yaml"; js "notes.txt"] ]}
    {[ js "/ws/prompts/x.yaml" := js "workspace file";
       js "/ext/prompts/x.yaml" := js "defaults file" ]}
    {[ js "workspace file" := dataX "Workspace version.";
       js "defaults file" := dataX "Defaults version." ]}
    [].

Definition collisionRepository : FileSystemPromptBlockRepository.t :=
  {| FileSystemPromptBlockRepository.host := collisionHost;
     FileSystemPromptBlockRepository.workspacePath := Some (js "/ws");
     FileSystemPromptBlockRepository.globalPath := None;
     FileSystemPromptBlockRepository.defaultsPath := Some (js "/ext");
     FileSystemPromptBlockRepository.cache := ∅ |}.

(** The scenario with the workspace block [x] kept in a file of another
    name. *)
Definition renamedFileHost : Host :=
  tableHost
    {[ js "/ws/prompts" := [js "alias.yaml"];
       js "/ext/prompts" := [js "x.yaml"] ]}
    {[ js "/ws/prompts/alias.yaml" := js "workspace file";
       js "/ext/prompts/x.yaml" := js "defaults file" ]}
    {[ js "workspace file" := dataX "Workspace version.";
       js "defaults file" := dataX "Defaults version." ]}
    [].

Definition renamedFileRepository : FileSystemPromptBlockRepository.t :=
  {| FileSystemPromptBlockRepository.host := renamedFileHost;
     FileSystemPromptBlockRepository.workspacePath := Some (js "/ws");
     FileSystemPromptBlockRepository.globalPath := None;
     FileSystemPromptBlockRepository.defaultsPath := Some (js "/ext");
     FileSystemPromptBlockRepository.cache := ∅ |}.

(** The scenario before the workspace has a file for [x]: the defaults
    alone hold the block. *)
Definition defaultsOnlyHost : Host :=
  tableHost
    {[ js "/ws/prompts" := [];
       js "/ext/prompts" := [js "x.yaml"; js "notes.txt"] ]}
    {[ js "/ext/prompts/x.yaml" := js "defaults file" ]}
    {[ js "workspace file" := dataX "Workspace version.";
       js "defaults file" := dataX "Defaults version." ]}
    [].

Definition defaultsOnlyRepository : FileSystemPromptBlockRepository.t :=
  {| FileSystemPromptBlockRepository.host := defaultsOnlyHost;
     FileSystemPromptBlockRepository.workspacePath := Some (js "/ws");
     FileSystemPromptBlockRepository.globalPath := None;
     FileSystemPromptBlockRepository.defaultsPath := Some (js "/ext");
     FileSystemPromptBlockRepository.cache := ∅ |}.

(** The same scenario with a workspace file that does not parse. *)
Definition brokenWorkspaceHost : Host :=
  tableHost
    {[ js "/ws/prompts" := [js "x.yaml"];
       js "/ext/prompts" := [js "x.yaml"] ]}
    {[ js "/ws/prompts/x.yaml" := js "name: [unclosed";
       js "/ext/prompts/x.yaml" := js "defaults file" ]}
    {[ js "defaults file" := dataX "Defaults version." ]}
    [].

Definition brokenWorkspaceRepository : FileSystemPromptBlockRepository.t :=
  {| FileSystemPromptBlockRepository.host := brokenWorkspaceHost;
     FileSystemPromptBlockRepository.workspacePath := Some (js "/ws");
     FileSystemPromptBlockRepository.globalPath := None;
     FileSystemPromptBlockRepository.defaultsPath := Some (js "/ext");
     FileSystemPromptBlockRepository.cache := ∅ |}.

(** A scenario with a third source: [x] is in the global source, as a
    [.yml] file, and in the defaults, not in the workspace, whose only file
    does not parse. *)
Definition globalHost : Host :=
  tableHost
    {[ js "/ws/prompts" := [js "y.yaml"];
       js "/home/.oacode/prompts" := [js "x.yml"];
       js "/ext/prompts" := [js "x.yaml"] ]}
    {[ js "/ws/prompts/y.yaml" := js "other file";
       js "/home/.oacode/prompts/x.yml" := js "global file";
       js "/ext/prompts/x.yaml" := js "defaults file" ]}
    {[ js "global file" := dataX "Global version.";
       js "defaults file" := dataX "Defaults version." ]}
    [].

Definition globalRepository : FileSystemPromptBlockRepository.t :=
  {| FileSystemPromptBlockRepository.host := globalHost;
     FileSystemPromptBlockRepository.workspacePath := Some (js "/ws");
     FileSystemPromptBlockRepository.globalPath := Some (js "/home/.oacode");
     FileSystemPromptBlockRepository.defaultsPath := Some (js "/ext");
     FileSystemPromptBlockRepository.cache := ∅ |}.

(** ** Load use case *)

(** Every array a cache entry holds was created at or after position [n]
    of the store. *)
Definition cachedSince {R} (n : nat) (this : LoadPromptBlocks.t R) : Prop :=
  (n ≤ length (LoadPromptBlocks.arrays this))%nat ∧
  ∀ k e, LoadPromptBlocks.cache this !! k = Some e →
         (n ≤ LoadPromptBlocks.blocks e)%nat.

(** A repository that always answers with the same blocks. *)
#[global] Instance fixedRepository : IPromptBlockRepository (list PromptBlock.t) := {|
  repositoryLoadAll bs := (bs, bs);
  repositoryLoadByCategory c bs :=
    (List.filter (λ b, bool_decide (PromptBlock.category b = c)) bs, bs);
  repositoryClearCache bs := bs
|}.

(** A new use-case object over a repository with one enabled block. *)
Definition freshUseCase : LoadPromptBlocks.t (list PromptBlock.t) :=
  {| LoadPromptBlocks.arrays := [];
     LoadPromptBlocks.cache := ∅;
     LoadPromptBlocks.cacheVersion := 0;
     LoadPromptBlocks.repository := [blockX "Workspace version."] |}.

(** ** The data of the unit tests of the source *)

(** Data with the members the tests give: name, category, prompt, and
    optionally variables and a priority. *)
Definition testData (name category body : string)
    (vars : option (list PromptVariable.t)) (prio : option Z) : PromptBlockData.t :=
  {| PromptBlockData.name := js name;
     PromptBlockData.description := None;
     PromptBlockData.category := js category;
     PromptBlockData.tags := None;
     PromptBlockData.prompt := js body;
     PromptBlockData.variables := vars;
     PromptBlockData.outputs := None;
     PromptBlockData.priority := prio;
     PromptBlockData.enabled := None |}.

(** [createActivePrompt(PromptBlock.create(data), variables)]. *)
Definition activate (d : PromptBlockData.t)
    (vars : option (gmap jsstring jsstring)) : option ActivePromptConfig.t :=
  match PromptBlock.create d with
  | Returns b => Some (EnhanceSystemPrompt.createActivePrompt b vars None)
  | Throws _ => None
  end.

Definition greetingData : PromptBlockData.t :=
  testData "test-block" "analysis" "Hello {{name}}, your role is {{role}}."
    (Some [PromptVariable.mk (js "name") (js "User name") true None;
           PromptVariable.mk (js "role") (js "User role") false (Some (js "analyst"))])
    None.

Definition analysisData : PromptBlockData.t :=
  testData "eda-analysis" "analysis" "Perform comprehensive EDA analysis." None (Some 80%Z).

Definition visualizationData : PromptBlockData.t :=
  testData "chart-visualization" "visualization" "Create Chart.js visualizations."
    None (Some 90%Z).

Definition reportingData : PromptBlockData.t :=
  testData "statistical-reporting" "reporting" "Generate statistical reports."
    None (Some 75%Z).

Definition advancedAnalysisData : PromptBlockData.t :=
  testData "advanced-analysis" "analysis" "Advanced analysis instructions." None (Some 90%Z).

Definition basicAnalysisData : PromptBlockData.t :=
  testData "basic-analysis" "analysis" "Basic analysis instructions." None (Some 60%Z).
(** * Reference definitions for the further properties *)

(** ** Entity *)

(** The invariants of a block made by [PromptBlock.create]. *)
Definition wellFormed (b : PromptBlock.t) : Prop :=
  PromptBlock.matchesNameFormat (PromptBlock.name b) = true ∧
  PromptBlock.blank (PromptBlock.prompt b) = false ∧
  trim (PromptBlock.prompt b) = PromptBlock.prompt b ∧
  trim (PromptBlock.description b) = PromptBlock.description b ∧
  (0 ≤ PromptBlock.priority b ≤ 100)%Z ∧
  Forall (λ v, PromptBlock.blank (PromptVariable.name v) = false)
         (PromptBlock.variables b).

(** The data with its [enabled] member set. *)
Definition dataWithEnabled (d : PromptBlockData.t) (e : bool) : PromptBlockData.t :=
  {| PromptBlockData.name := PromptBlockData.name d;
     PromptBlockData.description := PromptBlockData.description d;
     PromptBlockData.category := PromptBlockData.category d;
     PromptBlockData.tags := PromptBlockData.tags d;
     PromptBlockData.prompt := PromptBlockData.prompt d;
     PromptBlockData.variables := PromptBlockData.variables d;
     PromptBlockData.outputs := PromptBlockData.outputs d;
     PromptBlockData.priority := PromptBlockData.priority d;
     PromptBlockData.enabled := Some e |}.

(** [pat] occurs in [s]. *)
Fixpoint occursIn (pat s : jsstring) : bool :=
  startsWith pat s ||
  match s with
  | [] => false
  | _ :: rest => occursIn pat rest
  end.

(** The block [roleBlock] with its variable required and described
    otherwise, and disabled. *)
Definition requiredRoleBlock : PromptBlock.t :=
  {| PromptBlock.name := js "role-block";
     PromptBlock.description := [];
     PromptBlock.category := METHODOLOGY;
     PromptBlock.tags := [];
     PromptBlock.prompt := js "Act as {{role}}; a {{role}} explains.";
     PromptBlock.variables :=
       [PromptVariable.mk (js "role") (js "The role to take") true (Some (js "analyst"))];
     PromptBlock.outputs := [];
     PromptBlock.priority := 50;
     PromptBlock.enabled := false |}.

(** A block that declares a variable its text does not mention. *)
Definition unusedVariableBlock : PromptBlock.t :=
  {| PromptBlock.name := js "fixed-text";
     PromptBlock.description := [];
     PromptBlock.category := REPORTING;
     PromptBlock.tags := [];
     PromptBlock.prompt := js "Write {a} short {{summary}.";
     PromptBlock.variables :=
       [PromptVariable.mk (js "summary") (js "Summary") true (Some (js "$&"))];
     PromptBlock.outputs := [];
     PromptBlock.priority := 50;
     PromptBlock.enabled := true |}.

(** ** Composer *)

(** The distinct elements of a list, each at its first occurrence. *)
Fixpoint firstOccurrences {A} `{EqDecision A} (l : list A) : list A :=
  match l with
  | [] => []
  | x :: rest => x :: filter (λ y, y ≠ x) (firstOccurrences rest)
  end.

(** The line of the summary for one applied config. *)
Definition summaryLine (p : ActivePromptConfig.t) : jsstring :=
  getCategoryDisplayName (EnhanceSystemPrompt.categoryOf p) ++ js ": "
  ++ PromptBlock.name (ActivePromptConfig.block p).

(** The result [r] with an empty list of conflicts. *)
Definition withoutConflicts (r : SystemPromptResult) : SystemPromptResult :=
  {| originalPrompt := originalPrompt r;
     enhancedPrompt := enhancedPrompt r;
     appliedPrompts := appliedPrompts r;
     conflictResolution := [];
     totalLength := totalLength r;
     addedLength := addedLength r |}.

(** ** Repository *)

(** The answer of [loadByName] to a name that is not well formed. *)
Definition invalidName : BlockLoadResult :=
  {| success := false; block := None;
     error := Some (js "Invalid block name format");
     source := js "workspace"; filePath := None |}.

(** The repository in another environment: the files have changed. *)
Definition withHost (this : FileSystemPromptBlockRepository.t) (h : Host)
    : FileSystemPromptBlockRepository.t :=
  {| FileSystemPromptBlockRepository.host := h;
     FileSystemPromptBlockRepository.workspacePath :=
       FileSystemPromptBlockRepository.workspacePath this;
     FileSystemPromptBlockRepository.globalPath :=
       FileSystemPromptBlockRepository.globalPath this;
     FileSystemPromptBlockRepository.defaultsPath :=
       FileSystemPromptBlockRepository.defaultsPath this;
     FileSystemPromptBlockRepository.cache :=
       FileSystemPromptBlockRepository.cache this |}.

(** The file [filename] of the directory of [sp] yields the block [b]: it
    is a YAML file of the listing, it can be read, its content parses to
    data, and [PromptBlock.create] makes [b] of the data. *)
Definition fileYields (this : FileSystemPromptBlockRepository.t)
    (sp : FileSystemPromptBlockRepository.SearchPath) (filename : jsstring)
    (b : PromptBlock.t) : Prop :=
  let h := FileSystemPromptBlockRepository.host this in
  let dir := FileSystemPromptBlockRepository.path sp in
  isDirectory h dir = true ∧
  (∃ files, readdir h dir = Fulfilled files ∧ filename ∈ files) ∧
  FileSystemPromptBlockRepository.isYamlFile filename = true ∧
  ∃ content data,
    readFile h (pathJoin h dir filename) = Fulfilled content ∧
    parseFromContent h content (pathJoin h dir filename) = Fulfilled data ∧
    PromptBlock.create data = Returns b.

(** ** Load use case *)

(** An event that is not a write of a caller to an array. *)
Definition quiet {R} (e : LoadPromptBlocks.Event R) : Prop :=
  match e with
  | LoadPromptBlocks.CallerWrite _ _ => False
  | _ => True
  end.

(** Every cache entry carries the current version. *)
Definition currentVersions {R} (this : LoadPromptBlocks.t R) : Prop :=
  ∀ k e, LoadPromptBlocks.cache this !! k = Some e →
         LoadPromptBlocks.version e = LoadPromptBlocks.cacheVersion this.

(** Every cache entry holds an array of the store, and the array holds
    enabled blocks only. *)
Definition cachesEnabled {R} (this : LoadPromptBlocks.t R) : Prop :=
  ∀ k e, LoadPromptBlocks.cache this !! k = Some e →
         (LoadPromptBlocks.blocks e < length (LoadPromptBlocks.arrays this))%nat ∧
         Forall (λ b, PromptBlock.isEnabled b = true)
                (LoadPromptBlocks.contents this (LoadPromptBlocks.blocks e)).

(** A disabled block. *)
Definition disabledBlock : PromptBlock.t :=
  PromptBlock.withEnabled (blockX "Disabled version.") false.

(** A history of a use-case object: a load, a change of the files, an
    invalidation, and the completion of a load that was pending. *)
Definition sampleHistory : list (LoadPromptBlocks.Event (list PromptBlock.t)) :=
  [ LoadPromptBlocks.CallExecute 0 1;
    LoadPromptBlocks.RepositoryChange [disabledBlock; blockX "Workspace version."];
    LoadPromptBlocks.CallInvalidateCache;
    LoadPromptBlocks.Completion (js "all") [disabledBlock; blockX "Defaults version."] 0 5 ].

(** A use-case object over a file-system repository. *)
Definition useCaseOver (repo : FileSystemPromptBlockRepository.t)
    : LoadPromptBlocks.t FileSystemPromptBlockRepository.t :=
  {| LoadPromptBlocks.arrays := [];
     LoadPromptBlocks.cache := ∅;
     LoadPromptBlocks.cacheVersion := 0;
     LoadPromptBlocks.repository := repo |}.

(** What is in front of the last dot of a file name, if it has a dot. *)
Fixpoint beforeLastDot (file : jsstring) : option jsstring :=
  match file with
  | [] => None
  | c :: rest =>
      match beforeLastDot rest with
      | Some front => Some (c :: front)
      | None => if c =? 46 then Some [] else None
      end
  end.

(** A [stem] for file names with an extension: the name without the
    extension. *)
Definition dropExtension (file : jsstring) : jsstring :=
  match beforeLastDot file with
  | Some (c :: front) => c :: front
  | _ => file
  end.

(** The block [x] of the workspace, disabled. *)
Definition disabledBlockX : PromptBlock.t :=
  PromptBlock.withEnabled (blockX "Workspace version.") false.

(** The workspace of [collisionRepository] with its block disabled, and
    more files. *)
Definition disabledWorkspaceHost : Host :=
  tableHost
    {[ js "/ws/prompts" := [js "x.yaml"; js "draft.yml"; js "README.md"];
       js "/ext/prompts" := [js "x.yaml"; js "chart.yaml"] ]}
    {[ js "/ws/prompts/x.yaml" := js "workspace file";
       js "/ext/prompts/x.yaml" := js "defaults file" ]}
    {[ js "workspace file" := dataWithEnabled (dataX "Workspace version.") false;
       js "defaults file" := dataX "Defaults version." ]}
    [].

Definition disabledWorkspaceRepository : FileSystemPromptBlockRepository.t :=
  {| FileSystemPromptBlockRepository.host := disabledWorkspaceHost;
     FileSystemPromptBlockRepository.workspacePath := Some (js "/ws");
     FileSystemPromptBlockRepository.globalPath := None;
     FileSystemPromptBlockRepository.defaultsPath := Some (js "/ext");
     FileSystemPromptBlockRepository.cache := ∅ |}.

(** ** Parser *)

(** A member of an object that is present when its value is given. *)
Definition optionalMember (name : string) (v : option JsValue)
    : list (jsstring * JsValue) :=
  match v with
  | Some x => [(js name, x)]
  | None => []
  end.

(** A [PromptVariable] as a value. *)
Definition variableValue (v : PromptVariable.t) : JsValue :=
  JObject ([ (js "name", JString (PromptVariable.name v));
             (js "description", JString (PromptVariable.description v));
             (js "required", JBoolean (PromptVariable.required v)) ]
           ++ optionalMember "defaultValue" (JString <$> PromptVariable.defaultValue v)).

Definition outputTypeValue (t : OutputType) : jsstring :=
  match t with
  | TEXT => js "text"
  | CODE => js "code"
  | CHART => js "chart"
  | MARKDOWN => js "markdown"
  end.

(** A [PromptOutput] as a value. *)
Definition outputValue (o : PromptOutput.t) : JsValue :=
  JObject ([ (js "type", JString (outputTypeValue (PromptOutput.type o)));
             (js "description", JString (PromptOutput.description o)) ]
           ++ optionalMember "format" (JString <$> PromptOutput.format o)).

(** Data of the type [PromptBlockData] as a value: the object whose
    members are the members of the data that are given. *)
Definition dataValue (d : PromptBlockData.t) : JsValue :=
  JObject ([ (js "name", JString (PromptBlockData.name d)) ]
           ++ optionalMember "description" (JString <$> PromptBlockData.description d)
           ++ [ (js "category", JString (PromptBlockData.category d)) ]
           ++ optionalMember "tags"
                ((λ l, JArray (JString <$> l)) <$> PromptBlockData.tags d)
           ++ [ (js "prompt", JString (PromptBlockData.prompt d)) ]
           ++ optionalMember "variables"
                ((λ l, JArray (variableValue <$> l)) <$> PromptBlockData.variables d)
           ++ optionalMember "outputs"
                ((λ l, JArray (outputValue <$> l)) <$> PromptBlockData.outputs d)
           ++ optionalMember "priority"
                ((λ z, JNumber (integer z)) <$> PromptBlockData.priority d)
           ++ optionalMember "enabled" (JBoolean <$> PromptBlockData.enabled d)).

(** What [PromptBlock.create] requires of data. *)
Definition acceptable (d : PromptBlockData.t) : Prop :=
  PromptBlock.matchesNameFormat (PromptBlockData.name d) = true ∧
  PromptBlock.blank (PromptBlockData.prompt d) = false ∧
  isValidCategory (PromptBlockData.category d) = true ∧
  (0 ≤ default 50 (PromptBlockData.priority d) ≤ 100)%Z ∧
  PromptBlock.variablesNamed (PromptBlockData.variables d) = true.

(** Valid data but for a variable whose name is a space. *)
Definition blankVariableData : PromptBlockData.t :=
  {| PromptBlockData.name := js "x";
     PromptBlockData.description := None;
     PromptBlockData.category := js "analysis";
     PromptBlockData.tags := None;
     PromptBlockData.prompt := js "Use {{ }}.";
     PromptBlockData.variables := Some [PromptVariable.mk (js " ") [] false None];
     PromptBlockData.outputs := None;
     PromptBlockData.priority := None;
     PromptBlockData.enabled := None |}.

(** What [parseFromContent] has established of a value it returns. *)
Definition validatedObject (v : JsValue) : Prop :=
  notAnObject v = false ∧
  (∃ name, getProperty (js "name") v = JString name ∧
           PromptBlock.matchesNameFormat name = true) ∧
  (∃ prompt, getProperty (js "prompt") v = JString prompt ∧
             PromptBlock.blank prompt = false) ∧
  (∃ category, getProperty (js "category") v = JString category ∧
               isValidCategory category = true) ∧
  (getProperty (js "priority") v = JUndefined ∨
   ∃ n, getProperty (js "priority") v = JNumber n ∧
        lessThan n (integer 0) = false ∧ lessThan (integer 100) n = false) ∧
  (toBoolean (getProperty (js "variables") v) = false ∨
   ∃ items, getProperty (js "variables") v = JArray items ∧
            Forall (λ item, notAnObject item = false ∧
                            ∃ name, getProperty (js "name") item = JString name ∧
                                    truthy name = true) items).

(** A YAML parser given by a table. *)
Definition tableParser (table : gmap jsstring JsValue) (content : jsstring)
    : outcome JsValue :=
  match table !! content with
  | Some v => Fulfilled v
  | None => Rejected (js "Unexpected token")
  end.

(** The member [member] of [v] passes the type test of [validateSchema]:
    it is absent, or it is optional and [undefined], or it has the type
    [t]. *)
Definition memberOfType (t : string) (optional : bool) (member : string) (v : JsValue)
    : Prop :=
  hasProperty (js member) v = false ∨
  (optional = true ∧ getProperty (js member) v = JUndefined) ∨
  typeOf (getProperty (js member) v) = js t.

(** The member [tags] of [v] passes the test of [validateSchema]. *)
Definition tagsOfStrings (v : JsValue) : Prop :=
  hasProperty (js "tags") v = false ∨
  getProperty (js "tags") v = JUndefined ∨
  ∃ tags, getProperty (js "tags") v = JArray tags ∧
          Forall (λ tag, typeOf tag = js "string") tags.

(** An object as the YAML parser returns it for a block file with an
    empty description. *)
Definition nullDescriptionObject : JsValue :=
  JObject [ (js "name", JString (js "x"));
            (js "description", JNull);
            (js "category", JString (js "analysis"));
            (js "prompt", JString (js "Body.")) ].

(** The object of a block file with a variable, and variants of it. *)
Definition blockObject (name : JsValue) : JsValue :=
  JObject [ (js "name", name);
            (js "category", JString (js "analysis"));
            (js "prompt", JString (js "Analyze {{dataset}}."));
            (js "variables",
             JArray [JObject [ (js "name", JString (js "dataset"));
                               (js "required", JBoolean true) ]]);
            (js "outputs", JNumber (integer 5)) ].

(** The object of a block file whose priority is not a number. *)
Definition nanPriorityObject : JsValue :=
  JObject [ (js "name", JString (js "x"));
            (js "category", JString (js "analysis"));
            (js "prompt", JString (js "Body."));
            (js "priority", JNumber NaN) ].

(** A parser that knows four contents. *)
Definition sampleParser : jsstring → outcome JsValue :=
  tableParser {[ js "name: x" := blockObject (JString (js "x"));
                 js "name: 5" := blockObject (JNumber (integer 5));
                 js "- x" := JArray [JString (js "x")];
                 js "priority: .nan" := nanPriorityObject ]}.

(** ** Webview *)

(** The pictograph of a category in the webview, as its surrogate pair. *)
Definition categoryIcon (c : PromptCategory) : jsstring :=
  match c with
  | ANALYSIS => [55357; 56522]
  | VISUALIZATION => [55357; 56520]
  | REPORTING => [55357; 56523]
  | METHODOLOGY => [55357; 56620]
  end.

(** The commands of a section, in the order of the input. *)
Definition inSection (s : CommandSection) (commands : list PromptBlockSlashCommand.t)
    : list PromptBlockSlashCommand.t :=
  filter (λ command, PromptBlockSlashCommand.section command = s) commands.

(** * Properties *)

(** ** Lists *)

Lemma forallb_Forall {A} (f : A → bool) (l : list A) :
  forallb f l = true ↔ Forall (λ x, f x = true) l.
Proof.
  induction l as [|x l IH]; simpl.
  - split; [constructor|done].
  - rewrite andb_true_iff, IH, Forall_cons. tauto.
Qed.

Lemma filter_nil_Forall {A} (P : A → Prop) `{!∀ x, Decision (P x)} (l : list A) :
  Forall (λ x, ¬ P x) l → filter P l = [].
Proof.
  induction 1 as [|x l Hx _ IH]; [done|]. by rewrite filter_cons_False.
Qed.

Lemma fmap_ext_elem {A B} (f g : A → B) (l : list A) :
  (∀ x, x ∈ l → f x = g x) → f <$> l = g <$> l.
Proof.
  intros H. apply list_fmap_ext. intros i x Hx. apply H.
  by eapply list_elem_of_lookup_2.
Qed.

Lemma NoDup_fst_functional {A B} (l : list (A * B)) k (b1 b2 : B) :
  NoDup l.*1 → (k, b1) ∈ l → (k, b2) ∈ l → b1 = b2.
Proof.
  induction l as [|[k' b'] l IH]; intros Hnd H1 H2.
  - by apply not_elem_of_nil in H1.
  - rewrite fmap_cons in Hnd. cbn [fst] in Hnd. apply NoDup_cons in Hnd as [Hk Hnd].
    apply elem_of_cons in H1 as [H1|H1], H2 as [H2|H2].
    + congruence.
    + injection H1 as -> ->. exfalso. apply Hk, list_elem_of_fmap. by exists (k', b2).
    + injection H2 as -> ->. exfalso. apply Hk, list_elem_of_fmap. by exists (k', b1).
    + by apply IH.
Qed.

(** ** Strings *)

Lemma trimStart_id_head c s : isWhiteSpace c = false → trimStart (c :: s) = c :: s.
Proof. intros H. simpl. by rewrite H. Qed.

Lemma trimStart_all_ws s : forallb isWhiteSpace s = true → trimStart s = [].
Proof.
  induction s as [|c s IH]; simpl; [done|].
  intros [Hc Hs]%andb_true_iff. rewrite Hc. auto.
Qed.

(** [trimStart] removes a prefix of white space and stops at the first
    other code unit. *)
Lemma trimStart_spec s :
  ∃ ws, s = ws ++ trimStart s ∧ forallb isWhiteSpace ws = true ∧
        match trimStart s with [] => True | c :: _ => isWhiteSpace c = false end.
Proof.
  induction s as [|c s (ws & Heq & Hws & Hhd)]; simpl.
  - by exists [].
  - destruct (isWhiteSpace c) eqn:Hc.
    + exists (c :: ws). simpl. rewrite Hc, Hws. split; [by f_equal|done].
    + exists []. simpl. by rewrite Hc.
Qed.

Lemma trimEnd_snoc_id s c : isWhiteSpace c = false → trimEnd (s ++ [c]) = s ++ [c].
Proof.
  intros H. unfold trimEnd. rewrite rev_app_distr. simpl. rewrite H.
  simpl. by rewrite rev_involutive.
Qed.

(** A string without white space at either end is a fixed point of
    [trim]. *)
Lemma trim_id s :
  match s with [] => True | c :: _ => isWhiteSpace c = false end →
  match rev s with [] => True | c :: _ => isWhiteSpace c = false end →
  trim s = s.
Proof.
  intros Hh Hl. unfold trim.
  assert (trimStart s = s) as ->.
  { destruct s; [done|]. by apply trimStart_id_head. }
  unfold trimEnd. destruct (rev s) as [|c r] eqn:Hr.
  - apply (f_equal (@rev N)) in Hr. rewrite rev_involutive in Hr. by subst.
  - rewrite trimStart_id_head by done. rewrite <- Hr. apply rev_involutive.
Qed.

(** [trimEnd] removes a suffix of white space and stops at the last other
    code unit. *)
Lemma trimEnd_spec s :
  ∃ ws, s = trimEnd s ++ ws ∧ forallb isWhiteSpace ws = true ∧
        match rev (trimEnd s) with [] => True | c :: _ => isWhiteSpace c = false end.
Proof.
  unfold trimEnd. destruct (trimStart_spec (rev s)) as (ws & Heq & Hws & Hhd).
  exists (rev ws). rewrite rev_involutive. split; [|split; [|done]].
  - rewrite <- rev_app_distr, <- Heq. by rewrite rev_involutive.
  - rewrite forallb_forall in Hws |- *. intros c Hc. by apply Hws, in_rev.
Qed.

(** [trim] removes the white space at both ends and nothing else. *)
Lemma trim_spec s :
  ∃ front back,
    s = front ++ trim s ++ back ∧
    forallb isWhiteSpace front = true ∧ forallb isWhiteSpace back = true ∧
    match trim s with [] => True | c :: _ => isWhiteSpace c = false end ∧
    match rev (trim s) with [] => True | c :: _ => isWhiteSpace c = false end.
Proof.
  destruct (trimStart_spec s) as (front & Hs & Hfront & Hhd).
  destruct (trimEnd_spec (trimStart s)) as (back & Ht & Hback & Hlast).
  exists front, back. fold (trim s) in Ht, Hlast.
  split; [by rewrite <- Ht|]. split; [done|]. split; [done|]. split; [|done].
  rewrite Ht in Hhd. destruct (trim s) as [|c t]; [done|]. exact Hhd.
Qed.

(** A string is blank when it consists of white space. *)
Lemma blank_spec s : PromptBlock.blank s = true ↔ forallb isWhiteSpace s = true.
Proof.
  unfold PromptBlock.blank. split.
  - intros H. destruct (trim_spec s) as (front & back & Hs & Hf & Hb & _).
    destruct (trim s); [|done]. rewrite Hs, forallb_app. cbn. by rewrite Hf, Hb.
  - intros H. unfold trim. by rewrite (trimStart_all_ws _ H).
Qed.

Lemma isNameChar_not_whitespace c :
  PromptBlock.isNameChar c = true → isWhiteSpace c = false.
Proof.
  unfold PromptBlock.isNameChar, isWhiteSpace.
  rewrite !orb_true_iff, !andb_true_iff, !N.leb_le, !N.eqb_eq.
  intros H.
  repeat (apply orb_false_intro); try (apply N.eqb_neq; lia).
  apply andb_false_iff. rewrite !N.leb_gt. lia.
Qed.

Lemma matchesNameFormat_trim s :
  PromptBlock.matchesNameFormat s = true → trim s = s ∧ truthy s = true.
Proof.
  unfold PromptBlock.matchesNameFormat.
  intros [Ht Hall]%andb_true_iff. split; [|done].
  rewrite forallb_forall in Hall.
  apply trim_id.
  - destruct s as [|c s]; [done|].
    apply isNameChar_not_whitespace, Hall. by left.
  - destruct (rev s) as [|c r] eqn:Hr; [done|].
    apply isNameChar_not_whitespace, Hall, in_rev. rewrite Hr. by left.
Qed.

Lemma matchesNameFormat_not_blank s :
  PromptBlock.matchesNameFormat s = true → PromptBlock.blank s = false.
Proof.
  intros [Ht Hs]%matchesNameFormat_trim. unfold PromptBlock.blank.
  by rewrite Ht, Hs.
Qed.

(** ** Categories *)

Lemma isValidCategory_inv s :
  isValidCategory s = true → ∃ c, s = categoryValue c.
Proof.
  unfold isValidCategory. intros H%bool_decide_eq_true.
  apply list_elem_of_fmap in H as (c & -> & _). by exists c.
Qed.

Lemma asPromptCategory_value c : asPromptCategory (categoryValue c) = Some c.
Proof. by destruct c. Qed.

Lemma asPromptCategory_None s :
  asPromptCategory s = None ↔ isValidCategory s = false.
Proof.
  split.
  - intros Hn. destruct (isValidCategory s) eqn:Hv; [|done].
    destruct (isValidCategory_inv _ Hv) as [c ->].
    by rewrite asPromptCategory_value in Hn.
  - intros Hv. destruct (asPromptCategory s) as [c|] eqn:Hc; [|done].
    apply find_some in Hc as [_ Hc%bool_decide_eq_true].
    apply bool_decide_eq_false in Hv. exfalso. apply Hv. subst s.
    apply list_elem_of_fmap. exists c. split; [done|].
    destruct c; repeat constructor.
Qed.

Lemma categoryValue_not_blank c : PromptBlock.blank (categoryValue c) = false.
Proof. by destruct c. Qed.

Lemma categoryValue_inj : Inj (=) (=) categoryValue.
Proof. intros c1 c2 H. by destruct c1, c2. Qed.

(** ** PromptBlock.create and toData *)

Lemma orElse_trim_default (d : option jsstring) :
  orElse (trim <$> d) [] = default [] (trim <$> d).
Proof. destruct d as [v|]; simpl; [|done]. by destruct (trim v). Qed.

(** C9, as amended.  Data with a well-formed name, a prompt that is not
    blank, a valid category, a priority between 0 and 100 if any, and
    variables with non-blank names is accepted by [create], and [toData]
    then returns the input with the defaults filled in and with [prompt]
    and [description] trimmed; every other member is returned as given. *)
Theorem create_toData_round_trip (d : PromptBlockData.t) :
  PromptBlock.matchesNameFormat (PromptBlockData.name d) = true →
  PromptBlock.blank (PromptBlockData.prompt d) = false →
  isValidCategory (PromptBlockData.category d) = true →
  (∀ p, PromptBlockData.priority d = Some p → (0 ≤ p ≤ 100)%Z) →
  PromptBlock.variablesNamed (PromptBlockData.variables d) = true →
  ∃ b, PromptBlock.create d = Returns b ∧
       PromptBlock.toData b = withDefaults (trimmedText d).
Proof.
  intros Hname Hprompt Hcat Hprio Hvars.
  destruct (isValidCategory_inv _ Hcat) as [c Hc].
  unfold PromptBlock.create.
  rewrite (matchesNameFormat_not_blank _ Hname), Hprompt, Hc,
    categoryValue_not_blank, asPromptCategory_value, Hname, Hvars.
  simpl negb. cbv iota.
  assert ((default 50 (PromptBlockData.priority d) <? 0)%Z
          || (100 <? default 50 (PromptBlockData.priority d))%Z = false) as ->.
  { apply orb_false_intro; apply Z.ltb_ge;
      destruct (PromptBlockData.priority d) as [p|]; simpl;
      try lia; specialize (Hprio p eq_refl); lia. }
  eexists. split; [reflexivity|].
  unfold PromptBlock.toData, withDefaults, trimmedText. simpl.
  destruct (matchesNameFormat_trim _ Hname) as [-> _].
  by rewrite orElse_trim_default, Hc.
Qed.

Lemma create_toData_round_trip_witness :
  ∃ b, PromptBlock.create sampleData = Returns b ∧
       PromptBlock.toData b = withDefaults (trimmedText sampleData).
Proof.
  apply (create_toData_round_trip sampleData); try reflexivity.
  intros p [= <-]. lia.
Defined.

(** C9 as stated fails: the prompt ["hi "] is not empty and the data is
    otherwise valid, yet [toData] does not give the prompt back; and a
    prompt of one space is not empty, yet [create] rejects it. *)
Lemma create_toData_not_exact :
  PromptBlock.matchesNameFormat (PromptBlockData.name paddedData) = true ∧
  truthy (PromptBlockData.prompt paddedData) = true ∧
  isValidCategory (PromptBlockData.category paddedData) = true ∧
  PromptBlock.variablesNamed (PromptBlockData.variables paddedData) = true ∧
  (¬ ∃ b, PromptBlock.create paddedData = Returns b ∧
          PromptBlock.toData b = withDefaults paddedData) ∧
  truthy (PromptBlockData.prompt blankPromptData) = true ∧
  PromptBlock.create blankPromptData
    = Throws (ValidationError (js "Prompt is required") (Some (js "prompt"))).
Proof.
  repeat split; try reflexivity.
  intros (b & Hb & Hd). vm_compute in Hb. injection Hb as <-.
  vm_compute in Hd. discriminate Hd.
Qed.

(** ** The stable sort by descending priority *)

Section Sorting.
Import ActivePromptConfig EnhanceSystemPrompt.

Implicit Types (x w : t) (l : list t).

Lemma insertByPriority_perm x l : insertByPriority x l ≡ₚ x :: l.
Proof.
  induction l as [|y l IH]; simpl; [done|].
  case_match; [|done]. rewrite IH. apply Permutation_swap.
Qed.

Lemma stableSort_perm l : foldr insertByPriority [] l ≡ₚ l.
Proof.
  induction l as [|x l IH]; simpl; [done|].
  by rewrite insertByPriority_perm, IH.
Qed.

Lemma insertByPriority_sorted x l :
  StronglySorted (λ a b, (priorityValue b ≤ priorityValue a)%Z) l →
  StronglySorted (λ a b, (priorityValue b ≤ priorityValue a)%Z) (insertByPriority x l).
Proof.
  induction 1 as [|y l Hl IH Hy]; simpl.
  - repeat constructor.
  - destruct (Z.ltb_spec (priorityValue x) (priorityValue y)).
    + constructor; [done|].
      rewrite insertByPriority_perm. constructor; [lia|done].
    + constructor; [by constructor|].
      constructor; [done|].
      eapply Forall_impl; [exact Hy|]. simpl. intros; lia.
Qed.

Lemma stableSort_sorted l :
  StronglySorted (λ a b, (priorityValue b ≤ priorityValue a)%Z)
    (foldr insertByPriority [] l).
Proof.
  induction l; simpl; [constructor|]. by apply insertByPriority_sorted.
Qed.


(** The sort is stable: configs of one priority keep their order. *)
Lemma insertByPriority_filter (k : Z) x l :
  filter (λ p, priorityValue p = k) (insertByPriority x l)
  = filter (λ p, priorityValue p = k) (x :: l).
Proof.
  induction l as [|y l IH]; [done|]. cbn [insertByPriority].
  destruct (Z.ltb_spec (priorityValue x) (priorityValue y)); [|done].
  destruct (decide (priorityValue y = k)) as [Hy|Hy].
  - rewrite (filter_cons_True _ y) by done. rewrite IH.
    rewrite (filter_cons_False _ x) by lia.
    rewrite (filter_cons_False _ x) by lia. by rewrite filter_cons_True.
  - rewrite (filter_cons_False _ y) by done. rewrite IH.
    destruct (decide (priorityValue x = k)).
    + rewrite !(filter_cons_True _ x) by done. by rewrite filter_cons_False.
    + rewrite !(filter_cons_False _ x) by done. by rewrite filter_cons_False.
Qed.

Lemma stableSort_stable (k : Z) l :
  filter (λ p, priorityValue p = k) (foldr insertByPriority [] l)
  = filter (λ p, priorityValue p = k) l.
Proof.
  induction l as [|x l IH]; [done|]. cbn [foldr].
  rewrite insertByPriority_filter.
  destruct (decide (priorityValue x = k)).
  - by rewrite !(filter_cons_True _ x), IH.
  - by rewrite !(filter_cons_False _ x), IH.
Qed.

End Sorting.

(** ** Grouping by category *)

Section Grouping.
Import ActivePromptConfig EnhanceSystemPrompt.

Implicit Types (p w : t) (l : list t) (c : PromptCategory)
  (G : list (PromptCategory * list t)).

Lemma inCategory_snoc c l p :
  inCategory c (l ++ [p]) =
  inCategory c l ++ (if decide (categoryOf p = c) then [p] else []).
Proof.
  unfold inCategory. by rewrite filter_app.
Qed.

Lemma groupByCategory_snoc l p :
  groupByCategory (l ++ [p]) = pushToCategory (categoryOf p) p (groupByCategory l).
Proof. unfold groupByCategory. by rewrite foldl_app. Qed.

Lemma pushToCategory_keys c p G :
  (pushToCategory c p G).*1 = if decide (c ∈ G.*1) then G.*1 else G.*1 ++ [c].
Proof.
  induction G as [|[c' ps] G IH]; [done|].
  cbn [pushToCategory]. rewrite fmap_cons. cbn [fst].
  destruct (decide (c' = c)) as [->|Hne].
  - rewrite decide_True; [done|]. by left.
  - rewrite fmap_cons, IH. cbn [fst]. destruct (decide (c ∈ G.*1)) as [Hin|Hni].
    + rewrite decide_True; [done|]. by right.
    + rewrite decide_False; [done|]. rewrite elem_of_cons. intros [->|?]; done.
Qed.

(** One more config: the entry of its category grows at its end, or is
    created; every entry stays the list of the configs of its key. *)
Lemma pushToCategory_entries l p G :
  NoDup G.*1 →
  Forall (λ e, e.2 = inCategory e.1 l) G →
  (categoryOf p ∉ G.*1 → inCategory (categoryOf p) l = []) →
  Forall (λ e, e.2 = inCategory e.1 (l ++ [p])) (pushToCategory (categoryOf p) p G).
Proof.
  induction G as [|[c' ps] G IH]; intros Hnd HG Hnew.
  - constructor; [|done]. cbn [fst snd].
    rewrite inCategory_snoc, decide_True by done.
    rewrite Hnew; [done|]. apply not_elem_of_nil.
  - rewrite fmap_cons in Hnd. cbn [fst] in Hnd.
    apply NoDup_cons in Hnd as [Hc' Hnd]. apply Forall_cons in HG as [Hps HG].
    cbn [fst snd] in Hps. cbn [pushToCategory].
    destruct (decide (c' = categoryOf p)) as [->|Hne].
    + constructor; cbn [fst snd].
      * by rewrite inCategory_snoc, decide_True, Hps.
      * rewrite Forall_forall in HG |- *. intros e He.
        rewrite inCategory_snoc, decide_False, app_nil_r; [by apply HG|].
        intros Heq. apply Hc'. rewrite Heq. apply list_elem_of_fmap. eauto.
    + constructor; cbn [fst snd].
      * by rewrite inCategory_snoc, decide_False, app_nil_r.
      * apply IH; [done..|]. intros Hni. apply Hnew.
        rewrite fmap_cons, elem_of_cons. cbn [fst]. intros [?|?]; done.
Qed.

(** The category map built by the first loop: one entry per category that
    occurs, holding the configs of that category in input order. *)
Lemma groupByCategory_spec l :
  NoDup (groupByCategory l).*1 ∧
  Forall (λ e, e.2 = inCategory e.1 l) (groupByCategory l) ∧
  (∀ c, c ∈ (groupByCategory l).*1 ↔ c ∈ categoryOf <$> l).
Proof.
  induction l as [|p l (Hnd & Hent & Hkeys)] using rev_ind.
  - repeat split; try constructor; done.
  - rewrite groupByCategory_snoc.
    assert (∀ c, c ∉ (groupByCategory l).*1 → inCategory c l = []) as Hcov.
    { intros c Hc. unfold inCategory. apply filter_nil_Forall, Forall_forall.
      intros q Hq ?. apply Hc, Hkeys, list_elem_of_fmap. eauto. }
    split; [|split].
    + rewrite pushToCategory_keys. case_decide; [done|].
      apply NoDup_app. split; [done|]. split; [|apply NoDup_singleton].
      intros c Hc ->%list_elem_of_singleton. done.
    + apply pushToCategory_entries; auto.
    + intros c. rewrite pushToCategory_keys, fmap_app, elem_of_app.
      rewrite <- Hkeys. cbn. rewrite list_elem_of_singleton.
      case_decide; [|by rewrite elem_of_app, list_elem_of_singleton].
      split; [tauto|]. intros [?| ->]; done.
Qed.


End Grouping.

(** ** Conflict resolution *)

Section Resolution.
Import ActivePromptConfig EnhanceSystemPrompt.

Implicit Types (p w : t) (l : list t) (c : PromptCategory)
  (G : list (PromptCategory * list t)).




Lemma elem_of_inCategory p c l : p ∈ inCategory c l ↔ categoryOf p = c ∧ p ∈ l.
Proof. unfold inCategory. by rewrite list_elem_of_filter. Qed.



End Resolution.

(** ** The composer *)

Section Composer.
Import ActivePromptConfig EnhanceSystemPrompt.

Implicit Types (p w q : t) (l : list t) (c : PromptCategory).

(** The lookup for a name that a plain object does not inherit. *)
Lemma lookupValue_own vals (v : PromptVariable.t) :
  PromptVariable.name v ∉ objectPrototypeKeys →
  PromptBlock.lookupValue vals (PromptVariable.name v) = Some (suppliedValue vals v).
Proof.
  intros Hn. unfold PromptBlock.lookupValue, suppliedValue.
  destruct vals as [m|]; [|done]. cbn.
  destruct (m !! PromptVariable.name v); [done|]. by rewrite bool_decide_eq_false_2.
Qed.

Lemma chosenValue_spec vals (v : PromptVariable.t) :
  PromptVariable.name v ∉ objectPrototypeKeys →
  PromptBlock.chosenValue vals v =
  Some (substitutedValue (suppliedValue vals v) (PromptVariable.defaultValue v)).
Proof.
  intros Hn. unfold PromptBlock.chosenValue. rewrite (lookupValue_own _ _ Hn). cbn.
  f_equal. unfold substitutedValue.
  assert (orElse (PromptVariable.defaultValue v) []
          = default [] (PromptVariable.defaultValue v)) as ->.
  { destruct (PromptVariable.defaultValue v) as [[|? ?]|]; done. }
  by destruct (suppliedValue vals v) as [[|? ?]|].
Qed.

Lemma plainVariableName_inv (n : jsstring) :
  PromptBlock.plainVariableName n = true →
  PromptBlock.literalPattern n = true ∧ n ∉ objectPrototypeKeys.
Proof.
  unfold PromptBlock.plainVariableName, PromptBlock.literalPattern.
  intros [H1 H2]%andb_prop. split; [done|]. by apply bool_decide_eq_true_1 in H2.
Qed.

(** The step of the loop for a variable with a plain name. *)
Lemma substituteVariable_plain vals text (v : PromptVariable.t) :
  PromptBlock.plainVariableName (PromptVariable.name v) = true →
  PromptBlock.substituteVariable vals text v = Some (Value (substituted vals text v)).
Proof.
  intros [Hl Hn]%plainVariableName_inv.
  unfold PromptBlock.substituteVariable, PromptBlock.placeholderPattern.
  by rewrite Hl, (chosenValue_spec _ _ Hn).
Qed.

Lemma substituteVariables_plain vals text (vs : list PromptVariable.t) :
  Forall (λ v, PromptBlock.plainVariableName (PromptVariable.name v) = true) vs →
  PromptBlock.substituteVariables vals text vs
  = Some (Value (foldl (substituted vals) text vs)).
Proof.
  intros H. revert text. induction H as [|v vs Hv _ IH]; intros text; [done|].
  cbn [PromptBlock.substituteVariables foldl].
  by rewrite (substituteVariable_plain _ _ _ Hv), IH.
Qed.

Lemma resolvePrompt_defined (b : PromptBlock.t) vals :
  Forall (λ v, PromptBlock.plainVariableName (PromptVariable.name v) = true)
         (PromptBlock.variables b) →
  PromptBlock.resolvePrompt b vals =
  Some (Value (foldl (substituted vals) (PromptBlock.prompt b)
                     (PromptBlock.variables b))).
Proof.
  intros H. unfold PromptBlock.resolvePrompt, PromptBlock.hasVariables.
  destruct (PromptBlock.variables b) as [|v vs] eqn:Hvs; [done|].
  cbn [negb]. by apply substituteVariables_plain.
Qed.







End Composer.

(** ** Claims about the composer *)

Section ComposerClaims.
Import ActivePromptConfig EnhanceSystemPrompt.




(** The scenario of the composer's unit test evaluated: three configs, two
    categories, the config of higher priority second in its category. *)
Example execute_three_configs :
  ∃ r,
    execute (js "You are an AI assistant.") [basicBlock; chartBlock; advancedBlock]
      = Some (Value r) ∧
    appliedPrompts r = [advancedBlock; chartBlock] ∧
    conflictResolution r
      = [ {| category := ANALYSIS;
             previousBlock := Some (js "basic-analysis");
             selectedBlock := js "advanced-analysis";
             reason := js "Higher priority (90 vs 60)" |} ] ∧
    enhancedPrompt r
      = js "You are an AI assistant." ++ [10; 10] ++ js "Advanced analysis instructions."
        ++ [10; 10] ++ js "Create Chart.js charts.".
Proof. eexists. split; [vm_compute; reflexivity|]. by vm_compute. Qed.

(** The text of a priority in the reason of a record is the one
    [Number.prototype.toString] gives. *)
Example numberToString_samples :
  numberToString <$> [0; 50; -7; 2 ^ 53; 2 ^ 53 + 1; 2 ^ 60; 10 ^ 21; - 2 ^ 70]%Z
  = js <$> ["0"; "50"; "-7"; "9007199254740992"; "9007199254740992";
            "1152921504606847000"; "1e+21"; "-1.1805916207174113e+21"]%string.
Proof. by vm_compute. Qed.



(** The scenario of C8 evaluated: [blockA] survives, [blockB] is recorded,
    also when a config of lower priority comes first. *)
Example resolveConflicts_blockA_blockB :
  resolveConflicts [blockA; blockB]
  = Some ([blockA],
          [ {| category := ANALYSIS;
               previousBlock := Some (js "blockB");
               selectedBlock := js "blockA";
               reason := js "Higher priority (50 vs 50)" |} ]) ∧
  fst <$> resolveConflicts [basicBlock; advancedBlock; chartBlock; advancedBlock]
  = Some [advancedBlock; chartBlock].
Proof. split; by vm_compute. Qed.



(** The scenario of the witness evaluated: the chart block, of priority 90,
    comes before [blockA], of priority 50. *)
Example execute_concatenation_sample :
  ∃ r,
    execute (js "  You are an AI assistant. ") [blockA; chartBlock; blockB]
      = Some (Value r) ∧
    appliedPrompts r = [chartBlock; blockA] ∧
    enhancedPrompt r
      = js "You are an AI assistant." ++ [10; 10] ++ js "Create Chart.js charts."
        ++ [10; 10] ++ js "Body of A.".
Proof. eexists. split; [vm_compute; reflexivity|]. by vm_compute. Qed.

End ComposerClaims.

(** ** Variable substitution *)

Section Substitution.

Lemma GetSubstitution_literal (matched before after template : jsstring) :
  36%N ∉ template → GetSubstitution matched before after template = template.
Proof.
  induction template as [|c rest IH]; [done|].
  intros Hni. apply not_elem_of_cons in Hni as [Hc Hrest].
  cbn [GetSubstitution].
  destruct (N.eqb_spec c 36) as [->|_]; [done|]. by rewrite IH.
Qed.

Lemma replaceAllLiteral_cons (pat value : jsstring) c rest :
  replaceAllLiteral pat value (c :: rest) =
  if startsWith pat (c :: rest)
  then value ++ replaceAllLiteral pat value (drop (length pat - 1) rest)
  else c :: replaceAllLiteral pat value rest.
Proof.
  simp replaceAllLiteral. by destruct (startsWith pat (c :: rest)).
Qed.

Lemma startsWith_app (pat rest : jsstring) : startsWith pat (pat ++ rest) = true.
Proof.
  induction pat as [|p pat IH]; [done|]. cbn. by rewrite N.eqb_refl, IH.
Qed.

(** The first occurrence is replaced and the replacement goes on behind
    it. *)
Lemma replaceAllLiteral_first (pat value a rest : jsstring) :
  pat ≠ [] →
  (∀ i, (i < length a)%nat → startsWith pat (drop i (a ++ pat ++ rest)) = false) →
  replaceAllLiteral pat value (a ++ pat ++ rest)
  = a ++ value ++ replaceAllLiteral pat value rest.
Proof.
  intros Hpat. induction a as [|c a IH]; intros Hno.
  - destruct pat as [|p pat]; [done|].
    change (([] ++ (p :: pat) ++ rest)) with (p :: (pat ++ rest)).
    rewrite replaceAllLiteral_cons.
    change (p :: pat ++ rest) with ((p :: pat) ++ rest). rewrite startsWith_app.
    cbn [length]. replace (S (length pat) - 1)%nat with (length pat) by lia.
    by rewrite drop_app_length.
  - assert (startsWith pat (c :: a ++ pat ++ rest) = false) as H0
      by (apply (Hno 0%nat); cbn; lia).
    rewrite <- !app_comm_cons, replaceAllLiteral_cons, H0. f_equal. apply IH.
    intros i Hi. apply (Hno (S i)). cbn. lia.
Qed.

(** A text without an occurrence is left as it is. *)
Lemma replaceAllLiteral_none (pat value s : jsstring) :
  (∀ i, (i < length s)%nat → startsWith pat (drop i s) = false) →
  replaceAllLiteral pat value s = s.
Proof.
  induction s as [|c s IH]; intros Hno; [done|].
  assert (startsWith pat (c :: s) = false) as H0 by (apply (Hno 0%nat); cbn; lia).
  rewrite replaceAllLiteral_cons, H0.
  f_equal. apply IH. intros i Hi. apply (Hno (S i)). cbn. lia.
Qed.

(** With a template free of dollar signs the scan of [replace] is the
    literal replacement of all occurrences. *)
Lemma replaceFrom_literal (pat template before s : jsstring) (skip : nat) :
  36%N ∉ template →
  replaceFrom pat template before s skip =
  replaceAllLiteral pat template (drop skip s).
Proof.
  intros Hni. revert before skip.
  induction s as [|c rest IH]; intros before skip.
  - by destruct skip.
  - cbn [replaceFrom]. destruct skip as [|k].
    + rewrite drop_0, replaceAllLiteral_cons.
      destruct (startsWith pat (c :: rest)).
      * rewrite GetSubstitution_literal by done. by rewrite IH.
      * by rewrite IH, drop_0.
    + by rewrite IH.
Qed.

Lemma replaceGlobal_literal (pat template s : jsstring) :
  36%N ∉ template → replaceGlobal pat template s = replaceAllLiteral pat template s.
Proof. intros H. unfold replaceGlobal. by rewrite replaceFrom_literal, drop_0. Qed.

Lemma foldl_ext_Forall {A B} (f g : A → B → A) (l : list B) (a : A) :
  Forall (λ x, ∀ a, f a x = g a x) l → foldl f a l = foldl g a l.
Proof.
  intros H. revert a. induction H as [|x l Hx _ IH]; intros a; [done|].
  cbn. by rewrite Hx, IH.
Qed.

(** Occurrences that do not overlap are all replaced. *)
Example replaceAllLiteral_twice :
  replaceAllLiteral (js "{{x}}") (js "v") (js "a{{x}}b{{x}}{{x}") = js "avbv{{x}".
Proof. reflexivity. Qed.

(** A dollar sign in the value is not inserted as it is. *)
Example replaceGlobal_dollar :
  replaceGlobal (js "{{x}}") (js "$$5 for $&") (js "pay {{x}}") = js "pay $5 for {{x}}".
Proof. reflexivity. Qed.

(** C4, as amended.  For a block whose variables have plain names (no
    syntax character of regular expressions, no quantifier between the
    braces, no name of a member of [Object.prototype]), and values without
    a dollar sign, [resolvePrompt] returns the text in which, going through
    the declared variables in order, every occurrence of the variable's
    placeholder is replaced by the supplied value when one is supplied and
    is not empty, otherwise by the declared default, otherwise by the empty
    string. *)
Theorem resolvePrompt_substitutes (b : PromptBlock.t)
    (vals : option (gmap jsstring jsstring)) :
  Forall (λ v, PromptBlock.plainVariableName (PromptVariable.name v) = true)
         (PromptBlock.variables b) →
  Forall (λ v, 36%N ∉ substitutedValue (suppliedValue vals v)
                        (PromptVariable.defaultValue v))
         (PromptBlock.variables b) →
  PromptBlock.resolvePrompt b vals =
  Some (Value (foldl (λ text v,
                        replaceAllLiteral (PromptBlock.placeholder v)
                          (substitutedValue (suppliedValue vals v)
                             (PromptVariable.defaultValue v))
                          text)
                     (PromptBlock.prompt b) (PromptBlock.variables b))).
Proof.
  intros Hplain Hlit. rewrite (resolvePrompt_defined _ _ Hplain). do 2 f_equal.
  apply foldl_ext_Forall. eapply Forall_impl; [exact Hlit|].
  intros v Hv text. unfold substituted. by apply replaceGlobal_literal.
Qed.

Lemma resolvePrompt_substitutes_witness :
  PromptBlock.resolvePrompt roleBlock (Some {[ js "role" := js "developer" ]}) =
  Some (Value (foldl (λ text v,
                        replaceAllLiteral (PromptBlock.placeholder v)
                          (substitutedValue
                             (suppliedValue (Some {[ js "role" := js "developer" ]}) v)
                             (PromptVariable.defaultValue v))
                          text)
                     (PromptBlock.prompt roleBlock) (PromptBlock.variables roleBlock))).
Proof.
  apply (resolvePrompt_substitutes roleBlock (Some {[ js "role" := js "developer" ]})).
  - repeat constructor.
  - repeat constructor. vm_compute. intros H.
    repeat (apply elem_of_cons in H as [H|H]; [discriminate H|]).
    by apply not_elem_of_nil in H.
Defined.

(** The witness evaluated: both occurrences are replaced. *)
Example resolvePrompt_role_developer :
  PromptBlock.resolvePrompt roleBlock (Some {[ js "role" := js "developer" ]})
  = Some (Value (js "Act as developer; a developer explains.")).
Proof. by vm_compute. Qed.

(** C4 as stated fails: an empty string supplied for a variable with a
    declared default does not take precedence; the default is inserted. *)
Lemma resolvePrompt_empty_value_uses_default :
  PromptBlock.resolvePrompt roleBlock (Some {[ js "role" := [] ]})
    = Some (Value (js "Act as analyst; a analyst explains.")) ∧
  PromptBlock.resolvePrompt roleBlock (Some {[ js "role" := [] ]})
    ≠ Some (Value (foldl (λ text v,
                     replaceAllLiteral (PromptBlock.placeholder v)
                       (claimedValue (suppliedValue (Some {[ js "role" := [] ]}) v)
                          (PromptVariable.defaultValue v))
                       text)
                  (PromptBlock.prompt roleBlock) (PromptBlock.variables roleBlock))).
Proof. split; [by vm_compute|]. vm_compute. discriminate. Qed.

(** Names outside the plain ones.  A member of [Object.prototype] is an
    ordinary name when no values are given or the values have an entry of
    that name; a name that leaves a group unterminated ends the call in a
    [SyntaxError]; a name with a dot gives a proper regular expression,
    which the embedding leaves out. *)
Example resolvePrompt_other_names :
  let block name :=
    {| PromptBlock.name := js "b";
       PromptBlock.description := [];
       PromptBlock.category := ANALYSIS;
       PromptBlock.tags := [];
       PromptBlock.prompt := js "Use {{" ++ js name ++ js "}}.";
       PromptBlock.variables :=
         [PromptVariable.mk (js name) [] false (Some (js "json"))];
       PromptBlock.outputs := [];
       PromptBlock.priority := 50;
       PromptBlock.enabled := true |} in
  PromptBlock.resolvePrompt (block "toString") None = Some (Value (js "Use json.")) ∧
  PromptBlock.resolvePrompt (block "toString") (Some {[ js "toString" := js "xml" ]})
    = Some (Value (js "Use xml.")) ∧
  PromptBlock.resolvePrompt (block "toString") (Some ∅) = None ∧
  PromptBlock.resolvePrompt (block "unit(s") None = Some SyntaxError ∧
  PromptBlock.resolvePrompt (block "a.b") None = None.
Proof. by vm_compute. Qed.

End Substitution.

(** ** The file-system repository *)

Section Repository.
Import FileSystemPromptBlockRepository.

Implicit Types (this : t) (M : list (jsstring * PromptBlock.t))
  (b : PromptBlock.t) (k name : jsstring).

Lemma mapSet_keys k b M :
  (mapSet k b M).*1 = if decide (k ∈ M.*1) then M.*1 else M.*1 ++ [k].
Proof.
  induction M as [|[k' b'] M IH]; [done|].
  cbn [mapSet]. rewrite fmap_cons. cbn [fst].
  destruct (decide (k' = k)) as [->|Hne].
  - rewrite decide_True; [done|]. by left.
  - rewrite fmap_cons, IH. cbn [fst]. destruct (decide (k ∈ M.*1)) as [Hin|Hni].
    + rewrite decide_True; [done|]. by right.
    + rewrite decide_False; [done|]. rewrite elem_of_cons. intros [->|?]; done.
Qed.

(** [set] overwrites: afterwards the key holds the new block and every
    other key what it held. *)
Lemma mapSet_elem k b M k' b' :
  NoDup M.*1 →
  (k', b') ∈ mapSet k b M ↔ (k' = k ∧ b' = b) ∨ (k' ≠ k ∧ (k', b') ∈ M).
Proof.
  induction M as [|[k0 b0] M IH]; intros Hnd.
  - cbn. rewrite list_elem_of_singleton. split.
    + intros [= -> ->]. by left.
    + intros [[-> ->]|[_ H]]; [done|]. by apply not_elem_of_nil in H.
  - rewrite fmap_cons in Hnd. cbn [fst] in Hnd.
    apply NoDup_cons in Hnd as [Hk0 Hnd]. cbn [mapSet].
    destruct (decide (k0 = k)) as [->|Hne].
    + rewrite !elem_of_cons. split.
      * intros [[= -> ->]|Hin]; [by left|]. right. split; [|by right].
        intros ->. apply Hk0. apply list_elem_of_fmap. by exists (k, b').
      * intros [[-> ->]|[Hk [[= ? ?]|Hin]]]; [by left|done|by right].
    + rewrite !elem_of_cons, (IH Hnd). split.
      * intros [[= -> ->]|[[-> ->]|[? ?]]]; [|by left|].
        -- right. split; [done|by left].
        -- right. split; [done|by right].
      * intros [[-> ->]|[? [[= -> ->]|?]]]; [right; by left|by left|].
        right. right. done.
Qed.

Lemma mapSet_keyed b M : keyed M → keyed (mapSet (PromptBlock.name b) b M).
Proof.
  intros [Hnd Hk]. split.
  - rewrite mapSet_keys. case_decide; [done|].
    apply NoDup_app. split; [done|]. split; [|apply NoDup_singleton].
    intros k Hin ->%list_elem_of_singleton. done.
  - apply Forall_forall. intros [k' b'] [[-> ->]|[_ Hin]]%mapSet_elem; [done| |done].
    rewrite Forall_forall in Hk. by apply (Hk _ Hin).
Qed.

(** Merging the blocks of one source into the map. *)
Lemma merge_keyed (bs : list PromptBlock.t) M :
  keyed M → keyed (foldl (λ m b, mapSet (PromptBlock.name b) b m) M bs).
Proof.
  revert M. induction bs as [|b bs IH]; intros M HM; [done|].
  cbn [foldl]. by apply IH, mapSet_keyed.
Qed.

Lemma merge_origin (bs : list PromptBlock.t) M k b' :
  keyed M →
  (k, b') ∈ foldl (λ m b, mapSet (PromptBlock.name b) b m) M bs →
  b' ∈ bs ∨ (k, b') ∈ M.
Proof.
  revert M. induction bs as [|b bs IH]; intros M HM Hin; [by right|].
  cbn [foldl] in Hin. apply IH in Hin as [Hin|Hin]; [left; by right| |by apply mapSet_keyed].
  apply mapSet_elem in Hin as [[-> ->]|[_ Hin]]; [left; by left|by right|apply HM].
Qed.

Lemma merge_keeps_key (bs : list PromptBlock.t) M k b1 :
  keyed M → (k, b1) ∈ M →
  ∃ b', (k, b') ∈ foldl (λ m b, mapSet (PromptBlock.name b) b m) M bs ∧
        (b' = b1 ∨ b' ∈ bs).
Proof.
  revert M b1. induction bs as [|b bs IH]; intros M b1 HM Hin.
  - exists b1. split; [done|by left].
  - cbn [foldl]. destruct (decide (k = PromptBlock.name b)) as [->|Hne].
    + destruct (IH (mapSet (PromptBlock.name b) b M) b) as (b' & Hb' & Hor).
      * by apply mapSet_keyed.
      * apply mapSet_elem; [apply HM|]. by left.
      * exists b'. split; [done|]. right. destruct Hor as [->|?]; [by left|by right].
    + destruct (IH (mapSet (PromptBlock.name b) b M) b1) as (b' & Hb' & Hor).
      * by apply mapSet_keyed.
      * apply mapSet_elem; [apply HM|]. by right.
      * exists b'. split; [done|]. destruct Hor as [->|?]; [by left|right; by right].
Qed.

Lemma merge_covers (bs : list PromptBlock.t) M b :
  keyed M → b ∈ bs →
  ∃ b', (PromptBlock.name b, b') ∈ foldl (λ m b, mapSet (PromptBlock.name b) b m) M bs ∧
        b' ∈ bs.
Proof.
  revert M. induction bs as [|b0 bs IH]; intros M HM Hin.
  - by apply not_elem_of_nil in Hin.
  - cbn [foldl]. apply elem_of_cons in Hin as [->|Hin].
    + destruct (merge_keeps_key bs (mapSet (PromptBlock.name b0) b0 M)
                  (PromptBlock.name b0) b0) as (b' & Hb' & Hor).
      * by apply mapSet_keyed.
      * apply mapSet_elem; [apply HM|]. by left.
      * exists b'. split; [done|]. destruct Hor as [->|?]; [by left|by right].
    + destruct (IH (mapSet (PromptBlock.name b0) b0 M)) as (b' & Hb' & Hbs);
        [by apply mapSet_keyed|done|].
      exists b'. split; [done|by right].
Qed.

Lemma mergeSource_keyed this M sp : keyed M → keyed (mergeSource this M sp).
Proof.
  intros HM. unfold mergeSource.
  destruct (loadBlocksFromDirectory this (path sp) (pathSource sp)); [|done].
  by apply merge_keyed.
Qed.

Lemma mergeSources_keyed this sps M :
  keyed M → keyed (foldl (mergeSource this) M sps).
Proof.
  revert M. induction sps as [|sp sps IH]; intros M HM; [done|].
  cbn [foldl]. by apply IH, mergeSource_keyed.
Qed.

(** The workspace path given to the constructor is the first search
    path. *)
Lemma addWorkspaceFolders_head this (e : SearchPath) l fs :
  ∃ l', foldl (addWorkspaceFolder this) (e :: l) fs = e :: l'.
Proof.
  revert l. induction fs as [|f fs IH]; intros l; [by exists l|].
  cbn [foldl]. unfold addWorkspaceFolder at 2.
  destruct (existsb _ _); [apply IH|]. rewrite <- app_comm_cons. apply IH.
Qed.

Lemma getSearchPaths_head this ws :
  workspacePath this = Some ws → truthy ws = true →
  ∃ rest, getSearchPaths this =
          mkSearchPath (pathJoin (host this) ws (js "prompts")) (js "workspace") :: rest.
Proof.
  intros Hws Ht. unfold getSearchPaths, rootEntry at 1. rewrite Hws, Ht.
  destruct (addWorkspaceFolders_head this
              (mkSearchPath (pathJoin (host this) ws (js "prompts")) (js "workspace"))
              [] (workspaceFolders (host this))) as [l' ->].
  eexists. by rewrite <- app_comm_cons.
Qed.

(** Every search path carries one of the three source tags. *)
Lemma getSearchPaths_sources this :
  Forall (λ sp, pathSource sp ∈ sourceTags) (getSearchPaths this).
Proof.
  assert (∀ root tag, tag ∈ sourceTags →
            Forall (λ sp, pathSource sp ∈ sourceTags) (rootEntry this root tag)) as Hroot.
  { intros root tag Htag. unfold rootEntry.
    destruct root as [p|]; [|constructor].
    destruct (truthy p); [constructor; [exact Htag|constructor]|constructor]. }
  assert (∀ fs l, Forall (λ sp, pathSource sp ∈ sourceTags) l →
            Forall (λ sp, pathSource sp ∈ sourceTags)
                   (foldl (addWorkspaceFolder this) l fs)) as Hfold.
  { induction fs as [|f fs IH]; intros l Hl; [done|]. cbn [foldl]. apply IH.
    unfold addWorkspaceFolder. destruct (existsb _ _); [done|].
    apply Forall_app. split; [done|]. constructor; [by left|constructor]. }
  unfold getSearchPaths. rewrite !Forall_app. split; [|split].
  - apply Hfold, Hroot. by left.
  - apply Hroot. right. by left.
  - apply Hroot. right. right. by left.
Qed.

End Repository.

(** ** Claims about the repository *)

Section RepositoryClaims.
Import FileSystemPromptBlockRepository.

Implicit Types (this : t) (M : list (jsstring * PromptBlock.t))
  (b : PromptBlock.t) (k name : jsstring).

Lemma getCachedBlock_miss this k now :
  (getCachedBlock this k now).1 = None →
  getCachedBlock this k now = (None, withCache this (delete k (cache this))).
Proof.
  unfold getCachedBlock. destruct (cache this !! k) as [cached|]; [|done].
  by destruct (_ <? _)%Z.
Qed.

Lemma searchByName_head this name key later sp rest file :
  candidateFile (host this) (path sp) name = Some file →
  (searchByName this name key later (sp :: rest)).1
  = loadBlockFromFile this file (pathSource sp).
Proof.
  unfold candidateFile. intros H. cbn [searchByName].
  destruct (fileExistsAtPath _ (pathJoin _ _ (name ++ js ".yaml"))); cbn [negb].
  - by injection H as <-.
  - destruct (fileExistsAtPath _ (pathJoin _ _ (name ++ js ".yml"))); [|done].
    by injection H as <-.
Qed.

Lemma searchByName_skip this name key later (pre rest : list SearchPath) :
  Forall (λ q, candidateFile (host this) (path q) name = None) pre →
  (searchByName this name key later (pre ++ rest)).1
  = (searchByName this name key later rest).1.
Proof.
  induction 1 as [|q pre Hq _ IH]; [done|].
  rewrite <- app_comm_cons. cbn [searchByName]. unfold candidateFile in Hq.
  destruct (fileExistsAtPath _ (pathJoin _ _ (name ++ js ".yaml"))); [done|].
  by destruct (fileExistsAtPath _ (pathJoin _ _ (name ++ js ".yml"))).
Qed.

(** Sources without a block of the name leave the entry of the name as it
    is. *)
Lemma mergeSources_keep this (qs : list SearchPath) M x bw :
  keyed M → (x, bw) ∈ M →
  Forall (λ q, lacksBlock this q x) qs →
  keyed (foldl (mergeSource this) M qs) ∧ (x, bw) ∈ foldl (mergeSource this) M qs.
Proof.
  intros HM Hin Hqs. revert M HM Hin.
  induction Hqs as [|q qs [_ Hq] _ IH]; intros M HM Hin; [done|].
  cbn [foldl]. pose proof (mergeSource_keyed this M q HM) as HM'.
  apply IH; [done|]. unfold mergeSource in *.
  destruct (loadBlocksFromDirectory this (path q) (pathSource q)) as [bs|]; [|done].
  destruct (merge_keeps_key bs M x bw HM Hin) as (b' & Hb' & [->|Hbs]); [done|].
  exfalso. apply (Hq bs eq_refl b' Hbs).
  destruct HM' as [_ Hk]. rewrite Forall_forall in Hk. apply (Hk _ Hb').
Qed.

(** The entries of a source overwrite: once a source is merged, every
    name it has a block for is held by a block of that source, whatever
    the map held under the name. *)
Lemma mergeSource_overwrites this M (q : SearchPath) bs b :
  keyed M →
  loadBlocksFromDirectory this (path q) (pathSource q) = Fulfilled bs →
  b ∈ bs →
  ∃ b', b' ∈ bs ∧ (PromptBlock.name b, b') ∈ mergeSource this M q.
Proof.
  intros HM Hscan Hb. unfold mergeSource. rewrite Hscan.
  destruct (merge_covers bs M b HM Hb) as (b' & Hin & Hbs). by exists b'.
Qed.

(** C2, as amended.  A collision of names between sources is resolved by
    the rank of the source, where the source keeps the block in the file
    of its name.  When the first search path that has anything for the
    well-formed name [x], a file [x.yaml] or [x.yml] or a block of that
    name, holds the block [bw] of the name [x] in that file, as its one
    block of the name, then [loadByName], on a lookup not answered from
    the memo, returns [bw] with the tag of that source, and [bw] is the
    one block named [x] that [loadAll] returns, whatever the sources
    behind it hold and whatever the priorities of the blocks: [loadAll]
    merges the search paths from the last to the first, the blocks of a
    source overwriting the entries of their names.  The workspace path
    given to the repository is the first search path, so that a block in
    the workspace and in the defaults is returned in its workspace
    version. *)
Theorem source_rank_resolves_collision this (pre post : list SearchPath)
    (sp : SearchPath) (x file : jsstring) (bw : PromptBlock.t) (now later : Z) :
  getSearchPaths this = pre ++ sp :: post →
  Forall (λ q, lacksBlock this q x) pre →
  holdsBlock this sp x file bw →
  PromptBlock.name bw = x →
  PromptBlock.matchesNameFormat x = true →
  (getCachedBlock this (js "name:" ++ x) now).1 = None →
  (loadByName this x now later).1 = loaded bw (pathSource sp) file ∧
  bw ∈ loadAll this ∧
  (∀ b, b ∈ loadAll this → PromptBlock.name b = x → b = bw) ∧
  loadAll this = (foldl (mergeSource this) [] (reverse (getSearchPaths this))).*2 ∧
  (∀ M q bs b, keyed M →
     loadBlocksFromDirectory this (path q) (pathSource q) = Fulfilled bs → b ∈ bs →
     ∃ b', b' ∈ bs ∧ (PromptBlock.name b, b') ∈ mergeSource this M q) ∧
  (∀ ws, workspacePath this = Some ws → truthy ws = true →
         ∃ rest, getSearchPaths this
                 = mkSearchPath (promptsDirectory (host this) ws) (js "workspace") :: rest).
Proof.
  intros Hpaths Hpre (Hexists & Hfile & bs & Hscan & Hbw & Huniq) Hname Hx Hmiss.
  set (M0 := foldl (mergeSource this) [] (reverse post)).
  set (M1 := foldl (λ m b, mapSet (PromptBlock.name b) b m) M0 bs).
  assert (keyed M0) as Hk0 by (apply mergeSources_keyed; split; constructor).
  assert (keyed M1) as Hk1 by by apply merge_keyed.
  assert ((x, bw) ∈ M1) as Hin1.
  { destruct (merge_covers bs M0 bw Hk0 Hbw) as (b' & Hb' & Hbs).
    rewrite Hname in Hb'. destruct Hk1 as [_ Hk1]. rewrite Forall_forall in Hk1.
    pose proof (Hk1 _ Hb') as Hn. cbn in Hn. by rewrite <- (Huniq b' Hbs Hn). }
  assert (foldl (mergeSource this) [] (reverse (getSearchPaths this))
          = foldl (mergeSource this) M1 (reverse pre)) as Hall.
  { rewrite Hpaths, reverse_app, reverse_cons, <- app_assoc, !foldl_app.
    cbn [foldl]. unfold mergeSource at 2. by rewrite Hscan. }
  destruct (mergeSources_keep this (reverse pre) M1 x bw Hk1 Hin1) as [Hk Hin].
  { by apply Forall_reverse. }
  split; [|split; [|split; [|split; [|split]]]].
  - unfold loadByName. rewrite Hx. cbn [negb].
    rewrite (getCachedBlock_miss _ _ _ Hmiss).
    change (getSearchPaths (withCache this _)) with (getSearchPaths this).
    rewrite Hpaths, searchByName_skip.
    + rewrite (searchByName_head _ _ _ _ _ _ file); [exact Hfile|exact Hexists].
    + eapply Forall_impl; [exact Hpre|]. by intros q [? _].
  - unfold loadAll. rewrite Hall. apply list_elem_of_fmap. by exists (x, bw).
  - intros b Hb Hn. unfold loadAll in Hb. rewrite Hall in Hb.
    apply list_elem_of_fmap in Hb as ([k b'] & -> & Hb). cbn [snd] in *.
    destruct Hk as [Hnd Hk]. rewrite Forall_forall in Hk.
    pose proof (Hk _ Hb) as Hn'. cbn in Hn'. rewrite Hn in Hn'. subst k.
    by eapply NoDup_fst_functional.
  - done.
  - intros M q bs' b. apply mergeSource_overwrites.
  - intros ws Hws Ht. by apply getSearchPaths_head.
Qed.

Lemma source_rank_resolves_collision_witness :
  (loadByName collisionRepository (js "x") 0 1).1
    = loaded (blockX "Workspace version.") (js "workspace") (js "/ws/prompts/x.yaml") ∧
  blockX "Workspace version." ∈ loadAll collisionRepository ∧
  (∀ b, b ∈ loadAll collisionRepository → PromptBlock.name b = js "x" →
        b = blockX "Workspace version.") ∧
  loadAll collisionRepository
    = (foldl (mergeSource collisionRepository) []
             (reverse (getSearchPaths collisionRepository))).*2 ∧
  (∀ M q bs b, keyed M →
     loadBlocksFromDirectory collisionRepository (path q) (pathSource q) = Fulfilled bs →
     b ∈ bs →
     ∃ b', b' ∈ bs ∧ (PromptBlock.name b, b') ∈ mergeSource collisionRepository M q) ∧
  (∀ ws, workspacePath collisionRepository = Some ws → truthy ws = true →
         ∃ rest, getSearchPaths collisionRepository
                 = mkSearchPath (promptsDirectory (host collisionRepository) ws)
                                (js "workspace") :: rest).
Proof.
  apply (source_rank_resolves_collision collisionRepository []
           [mkSearchPath (js "/ext/prompts") (js "defaults")]
           (mkSearchPath (js "/ws/prompts") (js "workspace"))
           (js "x") (js "/ws/prompts/x.yaml") (blockX "Workspace version.") 0 1);
    try (vm_compute; reflexivity).
  - constructor.
  - split; [vm_compute; reflexivity|]. split; [vm_compute; reflexivity|].
    exists [blockX "Workspace version."]. split; [vm_compute; reflexivity|].
    split; [by left|]. by intros b ->%list_elem_of_singleton _.
Defined.

(** C2 as stated fails: a block named [x] exists in the workspace and in
    the defaults, with different content; [loadAll] returns the workspace
    version, and [loadByName] the version of the defaults, the workspace
    keeping its block in a file that is not named after it. *)
Lemma loadByName_finds_blocks_by_file_name :
  loadBlockFromFile renamedFileRepository (js "/ws/prompts/alias.yaml") (js "workspace")
    = loaded (blockX "Workspace version.") (js "workspace") (js "/ws/prompts/alias.yaml") ∧
  loadBlockFromFile renamedFileRepository (js "/ext/prompts/x.yaml") (js "defaults")
    = loaded (blockX "Defaults version.") (js "defaults") (js "/ext/prompts/x.yaml") ∧
  loadAll renamedFileRepository = [blockX "Workspace version."] ∧
  (loadByName renamedFileRepository (js "x") 0 1).1
    = loaded (blockX "Defaults version.") (js "defaults") (js "/ext/prompts/x.yaml") ∧
  block (loadByName renamedFileRepository (js "x") 0 1).1
    ≠ Some (blockX "Workspace version.").
Proof. repeat split; try (vm_compute; reflexivity). vm_compute. discriminate. Qed.

(** A lookup answered from the memo does not see a later file: [x] is
    looked up while the defaults alone hold it, the workspace gets its
    file, and within the time to live [loadByName] still returns the
    version of the defaults, which [loadAll] no longer returns. *)
Example loadByName_memo_before_workspace :
  let memoized :=
    withHost (loadByName defaultsOnlyRepository (js "x") 0 1).2 collisionHost in
  block (loadByName defaultsOnlyRepository (js "x") 0 1).1
    = Some (blockX "Defaults version.") ∧
  block (loadByName memoized (js "x") 2 3).1 = Some (blockX "Defaults version.") ∧
  loadAll memoized = [blockX "Workspace version."].
Proof. repeat split; vm_compute; reflexivity. Qed.

(** The scenario of C2 evaluated: the defaults hold a different block of
    the same name, and both operations return the one of the workspace. *)
Example collision_scenario :
  loadBlockFromFile collisionRepository (js "/ext/prompts/x.yaml") (js "defaults")
    = loaded (blockX "Defaults version.") (js "defaults") (js "/ext/prompts/x.yaml") ∧
  block (loadByName collisionRepository (js "x") 0 1).1
    = Some (blockX "Workspace version.") ∧
  loadAll collisionRepository = [blockX "Workspace version."].
Proof. repeat split; vm_compute; reflexivity. Qed.

(** The same between the global source and the defaults, below a
    workspace that has no block of the name. *)
Example global_before_defaults :
  (loadByName globalRepository (js "x") 0 1).1
    = loaded (blockX "Global version.") (js "global") (js "/home/.oacode/prompts/x.yml") ∧
  blockX "Global version." ∈ loadAll globalRepository ∧
  blockX "Defaults version." ∉ loadAll globalRepository.
Proof.
  split; [vm_compute; reflexivity|].
  assert (loadAll globalRepository = [blockX "Global version."]) as ->
    by (vm_compute; reflexivity).
  split; [by left|]. by intros [=]%list_elem_of_singleton.
Qed.


(** The search loop stops at the first directory that has a file for the
    name, whatever loading that file gives. *)
Lemma searchByName_spec this name key later (sps : list SearchPath) :
  (Forall (λ sp, candidateFile (host this) (path sp) name = None) sps ∧
   (searchByName this name key later sps).1 = notFound name)
  ∨ ∃ pre sp post file,
      sps = pre ++ sp :: post ∧
      Forall (λ q, candidateFile (host this) (path q) name = None) pre ∧
      candidateFile (host this) (path sp) name = Some file ∧
      (searchByName this name key later sps).1
        = loadBlockFromFile this file (pathSource sp).
Proof.
  induction sps as [|sp sps IH].
  - left. split; [constructor|done].
  - cbn [searchByName].
    destruct (candidateFile (host this) (path sp) name) as [file|] eqn:Hc.
    + right. exists [], sp, sps, file. split; [done|]. split; [constructor|].
      split; [done|]. unfold candidateFile in Hc.
      destruct (fileExistsAtPath _ (pathJoin _ _ (name ++ js ".yaml"))); cbn [negb].
      * by injection Hc as <-.
      * destruct (fileExistsAtPath _ (pathJoin _ _ (name ++ js ".yml"))); [|done].
        by injection Hc as <-.
    + unfold candidateFile in Hc.
      destruct (fileExistsAtPath _ (pathJoin _ _ (name ++ js ".yaml"))) eqn:Hyaml; [done|].
      destruct (fileExistsAtPath _ (pathJoin _ _ (name ++ js ".yml"))) eqn:Hyml; [done|].
      cbn [negb]. destruct IH as [[Hall Hres]|(pre & sp' & post & file & -> & Hpre & Hf & Hres)].
      * left. split; [|done]. constructor; [|done].
        unfold candidateFile. by rewrite Hyaml, Hyml.
      * right. exists (sp :: pre), sp', post, file. repeat split; try done.
        constructor; [|done].
        unfold candidateFile. by rewrite Hyaml, Hyml.
Qed.

(** C5, as amended.  A lookup of a well-formed name that is not answered
    from the memo goes through the search paths in priority order and
    returns the result of loading the first existing candidate file, the
    [.yaml] file of a directory before its [.yml] file, whether that load
    succeeds or fails; lower-priority sources are consulted only when no
    higher one has a file for the name. *)
Theorem loadByName_first_existing_file this name (now later : Z) :
  PromptBlock.matchesNameFormat name = true →
  (getCachedBlock this (js "name:" ++ name) now).1 = None →
  (Forall (λ sp, candidateFile (host this) (path sp) name = None) (getSearchPaths this) ∧
   (loadByName this name now later).1 = notFound name)
  ∨ ∃ pre sp post file,
      getSearchPaths this = pre ++ sp :: post ∧
      Forall (λ q, candidateFile (host this) (path q) name = None) pre ∧
      candidateFile (host this) (path sp) name = Some file ∧
      (loadByName this name now later).1
        = loadBlockFromFile this file (pathSource sp).
Proof.
  intros Hname Hmiss. unfold loadByName. rewrite Hname. cbn [negb].
  rewrite (getCachedBlock_miss _ _ _ Hmiss).
  change (getSearchPaths (withCache this _)) with (getSearchPaths this).
  apply (searchByName_spec (withCache this _)).
Qed.

Lemma loadByName_first_existing_file_witness :
  (Forall (λ sp, candidateFile (host brokenWorkspaceRepository) (path sp) (js "x") = None)
          (getSearchPaths brokenWorkspaceRepository) ∧
   (loadByName brokenWorkspaceRepository (js "x") 0 1).1 = notFound (js "x"))
  ∨ ∃ pre sp post file,
      getSearchPaths brokenWorkspaceRepository = pre ++ sp :: post ∧
      Forall (λ q, candidateFile (host brokenWorkspaceRepository) (path q) (js "x") = None)
             pre ∧
      candidateFile (host brokenWorkspaceRepository) (path sp) (js "x") = Some file ∧
      (loadByName brokenWorkspaceRepository (js "x") 0 1).1
        = loadBlockFromFile brokenWorkspaceRepository file (pathSource sp).
Proof.
  apply (loadByName_first_existing_file brokenWorkspaceRepository (js "x") 0 1);
    vm_compute; reflexivity.
Defined.

(** C5 as stated fails: the workspace file for [x] does not parse and the
    defaults hold a valid file of that name, yet the lookup returns the
    failure of the workspace file, not the block of the defaults. *)
Lemma loadByName_returns_failed_parse :
  getSearchPaths brokenWorkspaceRepository
    = [mkSearchPath (js "/ws/prompts") (js "workspace");
       mkSearchPath (js "/ext/prompts") (js "defaults")] ∧
  success (loadBlockFromFile brokenWorkspaceRepository
             (js "/ws/prompts/x.yaml") (js "workspace")) = false ∧
  loadBlockFromFile brokenWorkspaceRepository (js "/ext/prompts/x.yaml") (js "defaults")
    = loaded (blockX "Defaults version.") (js "defaults") (js "/ext/prompts/x.yaml") ∧
  (loadByName brokenWorkspaceRepository (js "x") 0 1).1
    = failure (js "YAML parsing failed") (js "workspace") (js "/ws/prompts/x.yaml") ∧
  block (loadByName brokenWorkspaceRepository (js "x") 0 1).1
    ≠ Some (blockX "Defaults version.").
Proof. repeat split; try (vm_compute; reflexivity). vm_compute. discriminate. Qed.

(** C6 fails on the code: the memo stores the file path in its [source]
    member, and an answer from the memo carries it as [source].  The first
    lookup of [x] answers with the tag [workspace]; the second, within the
    time to live, with the path of the file. *)
Lemma loadByName_cached_source_is_file_path :
  source (loadByName collisionRepository (js "x") 0 1).1 = js "workspace" ∧
  success (loadByName (loadByName collisionRepository (js "x") 0 1).2 (js "x") 2 3).1
    = true ∧
  source (loadByName (loadByName collisionRepository (js "x") 0 1).2 (js "x") 2 3).1
    = js "/ws/prompts/x.yaml" ∧
  source (loadByName (loadByName collisionRepository (js "x") 0 1).2 (js "x") 2 3).1
    ∉ sourceTags.
Proof.
  repeat split; try (vm_compute; reflexivity).
  vm_compute. intros H.
  repeat (apply elem_of_cons in H as [H|H]; [discriminate H|]).
  by apply not_elem_of_nil in H.
Qed.

(** Answers not taken from the memo do carry one of the three tags. *)
Lemma loadByName_uncached_source this name (now later : Z) :
  (getCachedBlock this (js "name:" ++ name) now).1 = None →
  source (loadByName this name now later).1 ∈ sourceTags.
Proof.
  intros Hmiss. unfold loadByName.
  destruct (PromptBlock.matchesNameFormat name); cbn [negb]; [|by left].
  rewrite (getCachedBlock_miss _ _ _ Hmiss).
  change (getSearchPaths (withCache this _)) with (getSearchPaths this).
  destruct (searchByName_spec (withCache this (delete (js "name:" ++ name) (cache this)))
              name (js "name:" ++ name) later (getSearchPaths this))
    as [[_ ->]|(pre & sp & post & file & Hsps & _ & _ & ->)]; [by left|].
  assert (pathSource sp ∈ sourceTags) as Hsrc.
  { pose proof (getSearchPaths_sources this) as Hall. rewrite Hsps in Hall.
    apply Forall_app in Hall as [_ Hall]. by apply Forall_cons in Hall as [? _]. }
  unfold loadBlockFromFile.
  repeat (case_match; try done).
Qed.

End RepositoryClaims.

(** ** The load use case *)

Section LoadUseCase.
Import LoadPromptBlocks.
Context {R : Type} `{!IPromptBlockRepository R}.

Implicit Types (this : t R) (key : jsstring) (now later : Z).

(** A cache entry is served exactly while it is younger than the time to
    live and carries the current version. *)
Lemma getCachedBlocks_served this key now cached :
  (getCachedBlocks key now this).1 = Some cached ↔
  cache this !! key = Some cached ∧
  (now - timestamp cached < cacheTimeout)%Z ∧
  version cached = cacheVersion this.
Proof.
  unfold getCachedBlocks. destruct (cache this !! key) as [e|].
  - destruct (Z.ltb_spec (now - timestamp e) cacheTimeout),
             (Z.eqb_spec (version e) (cacheVersion this)); cbn [andb fst]; split;
      try discriminate.
    + by intros [= <-].
    + by intros [[= <-] _].
    + intros ([= <-] & _ & ?). done.
    + intros ([= <-] & ? & _). lia.
    + intros ([= <-] & ? & _). lia.
  - split; [discriminate|]. by intros [? _].
Qed.

Lemma getCachedBlocks_hit_state this key now cached :
  (getCachedBlocks key now this).1 = Some cached →
  (getCachedBlocks key now this).2 = this.
Proof.
  unfold getCachedBlocks. destruct (cache this !! key) as [e|]; [|done].
  by destruct (_ && _).
Qed.

Lemma getCachedBlocks_miss_state this key now :
  (getCachedBlocks key now this).1 = None →
  (getCachedBlocks key now this).2 = withCache this (delete key (cache this)).
Proof.
  unfold getCachedBlocks. destruct (cache this !! key) as [e|]; [|done].
  by destruct (_ && _).
Qed.

Lemma cachedSince_getCachedBlocks n this key now :
  cachedSince n this → cachedSince n (getCachedBlocks key now this).2.
Proof.
  intros [Hlen Hc].
  destruct (getCachedBlocks key now this).1 as [e|] eqn:He.
  - by rewrite (getCachedBlocks_hit_state _ _ _ _ He).
  - rewrite (getCachedBlocks_miss_state _ _ _ He). split; [done|].
    intros k e Hk. cbn [cache withCache] in Hk.
    apply lookup_delete_Some in Hk as [_ Hk]. by eapply Hc.
Qed.

Lemma cachedSince_resume n this key loaded start later :
  cachedSince n this →
  cachedSince n (resume key loaded start later this).2 ∧
  (n ≤ resultBlocks (resume key loaded start later this).1)%nat.
Proof.
  intros [Hlen Hc]. unfold resume, cacheBlocks, newArray, withCache.
  cbn [fst snd arrays cache resultBlocks].
  split; [split|done].
  - cbn [arrays]. rewrite !List.length_app. lia.
  - intros k e. cbn [cache]. rewrite lookup_insert. case_decide.
    + intros [= <-]. cbn [blocks]. rewrite List.length_app. lia.
    + by apply Hc.
Qed.

Lemma cachedSince_withRepository n this (r : R) :
  cachedSince n this → cachedSince n (withRepository this r).
Proof. done. Qed.

Lemma cachedSince_execute n this now later :
  cachedSince n this →
  cachedSince n (execute now later this).2 ∧
  (n ≤ resultBlocks (execute now later this).1)%nat.
Proof.
  intros Hinv. unfold execute.
  pose proof (cachedSince_getCachedBlocks n this (js "all") now Hinv) as Hinv'.
  destruct (getCachedBlocks (js "all") now this) as [[cached|] this1] eqn:Hg;
    cbn [snd] in Hinv'.
  - split; [done|]. cbn.
    assert ((getCachedBlocks (js "all") now this).1 = Some cached) as Hc by by rewrite Hg.
    apply getCachedBlocks_served in Hc as [Hc _]. by apply Hinv in Hc.
  - destruct (repositoryLoadAll (repository this1)) as [loaded repo].
    by apply cachedSince_resume, cachedSince_withRepository.
Qed.

Lemma cachedSince_executeByCategory n this c now later :
  cachedSince n this →
  cachedSince n (executeByCategory c now later this).2.
Proof.
  intros Hinv. unfold executeByCategory.
  pose proof (cachedSince_getCachedBlocks n this (js "category:" ++ categoryValue c) now Hinv)
    as Hinv'.
  destruct (getCachedBlocks _ now this) as [[cached|] this1]; cbn [snd] in Hinv'; [done|].
  destruct (repositoryLoadByCategory c (repository this1)) as [loaded repo].
  by apply cachedSince_resume, cachedSince_withRepository.
Qed.

Lemma cachedSince_invalidateCache this :
  cachedSince (length (arrays this)) (invalidateCache this).
Proof. split; [done|]. intros k e. cbn. by rewrite lookup_empty. Qed.

Lemma cachedSince_step n this (e : Event R) :
  cachedSince n this → cachedSince n (step this e).
Proof.
  intros Hinv. destruct e as [now later|c now later|k loaded start later| |r|r content];
    cbn [step].
  - by apply cachedSince_execute.
  - by apply cachedSince_executeByCategory.
  - by apply cachedSince_resume.
  - destruct Hinv as [Hlen _]. split; [done|]. intros k e. cbn. by rewrite lookup_empty.
  - done.
  - destruct Hinv as [Hlen Hc]. split; [|done]. cbn. by rewrite length_insert.
Qed.

Lemma cachedSince_run n this (events : list (Event R)) :
  cachedSince n this → cachedSince n (run this events).
Proof.
  revert this. induction events as [|e events IH]; intros this Hinv; [done|].
  cbn. by apply IH, cachedSince_step.
Qed.

(** C7.  An entry is served only while it is younger than the time to
    live and of the current version; [invalidateCache] raises the version
    and empties the cache; and whatever happens afterwards, an [execute]
    returns an array created after the invalidation (never one that was
    cached before it), the one right after it being a load from the
    repository: what the repository holds then, without the disabled
    blocks. *)
Theorem invalidateCache_drops_cached_snapshots this (events : list (Event R))
    key now later :
  (∀ cached,
     (getCachedBlocks key now this).1 = Some cached ↔
     cache this !! key = Some cached ∧
     (now - timestamp cached < cacheTimeout)%Z ∧
     version cached = cacheVersion this) ∧
  cacheVersion (invalidateCache this) = (cacheVersion this + 1)%Z ∧
  cache (invalidateCache this) = ∅ ∧
  fromCache (execute now later (invalidateCache this)).1 = false ∧
  contents (execute now later (invalidateCache this)).2
           (resultBlocks (execute now later (invalidateCache this)).1)
    = List.filter PromptBlock.isEnabled
        (repositoryLoadAll (repositoryClearCache (repository this))).1 ∧
  (length (arrays this)
   ≤ resultBlocks (execute now later (run (invalidateCache this) events)).1)%nat.
Proof.
  split; [intros cached; apply getCachedBlocks_served|].
  split; [done|]. split; [done|]. split; [|split].
  - unfold execute, getCachedBlocks. cbn. rewrite lookup_empty.
    destruct (repositoryLoadAll _). done.
  - unfold execute, getCachedBlocks. cbn. rewrite lookup_empty.
    destruct (repositoryLoadAll _) as [loaded repo].
    unfold resume, cacheBlocks, newArray, withCache, contents. cbn.
    rewrite <- (app_assoc (arrays this) [_] [_]).
    cbn [app]. rewrite (list_lookup_middle (arrays this) _ _ (length (arrays this)) eq_refl).
    done.
  - apply cachedSince_execute, cachedSince_run, cachedSince_invalidateCache.
Qed.

(** On a hit the caller is handed the array of the cache entry itself. *)
Lemma execute_hit_returns_cached_array this now later cached :
  (getCachedBlocks (js "all") now this).1 = Some cached →
  resultBlocks (execute now later this).1 = blocks cached ∧
  fromCache (execute now later this).1 = true.
Proof.
  intros H. unfold execute.
  destruct (getCachedBlocks (js "all") now this) as [[c|] this1]; by simplify_eq/=.
Qed.

(** On a miss the caller's array and the array put in the cache differ. *)
Lemma execute_miss_copies this now later :
  (getCachedBlocks (js "all") now this).1 = None →
  ∃ e, cache (execute now later this).2 !! js "all" = Some e ∧
       blocks e ≠ resultBlocks (execute now later this).1.
Proof.
  intros H. unfold execute.
  destruct (getCachedBlocks (js "all") now this) as [[c|] this1]; simplify_eq/=.
  destruct (repositoryLoadAll (repository this1)) as [loaded repo].
  unfold resume, cacheBlocks, newArray. cbn. eexists. rewrite lookup_insert_eq.
  split; [done|]. cbn. rewrite length_app. cbn. lia.
Qed.

End LoadUseCase.

(** C10 fails on the code: on a cache hit [execute] returns the cached
    array itself.  A first call loads one block; a second call is a hit; the
    caller empties the array it was handed; a third call, still a hit on an
    unchanged repository, now reports no block. *)
Lemma execute_hit_exposes_cached_array :
  let first := LoadPromptBlocks.execute 0 1 freshUseCase in
  let second := LoadPromptBlocks.execute 2 3 first.2 in
  let written :=
    LoadPromptBlocks.callerWrite (LoadPromptBlocks.resultBlocks second.1) [] second.2 in
  let third := LoadPromptBlocks.execute 4 5 written in
  LoadPromptBlocks.fromCache first.1 = false ∧
  LoadPromptBlocks.fromCache second.1 = true ∧
  LoadPromptBlocks.contents second.2 (LoadPromptBlocks.resultBlocks second.1)
    = [blockX "Workspace version."] ∧
  (LoadPromptBlocks.blocks <$> LoadPromptBlocks.cache second.2 !! js "all")
    = Some (LoadPromptBlocks.resultBlocks second.1) ∧
  LoadPromptBlocks.fromCache third.1 = true ∧
  LoadPromptBlocks.repository third.2 = [blockX "Workspace version."] ∧
  LoadPromptBlocks.contents third.2 (LoadPromptBlocks.resultBlocks third.1) = [] ∧
  LoadPromptBlocks.loadedCount third.1 = 0%Z.
Proof. vm_compute. repeat split; reflexivity. Qed.

(** ** The unit tests of the source, on the embedding *)

(** [PromptBlock.test.ts]: variables are resolved, and a missing value
    falls back to the default. *)
Example test_resolve_variables :
  match PromptBlock.create greetingData with
  | Returns b =>
      PromptBlock.resolvePrompt b
        (Some {[ js "name" := js "Alice"; js "role" := js "developer" ]})
      = Some (Value (js "Hello Alice, your role is developer.")) ∧
      PromptBlock.resolvePrompt b (Some {[ js "name" := js "Alice" ]})
      = Some (Value (js "Hello Alice, your role is analyst."))
  | Throws _ => False
  end.
Proof. vm_compute. split; reflexivity. Qed.

(** [PromptBlock.test.ts]: invalid data is rejected. *)
Example test_create_rejects :
  PromptBlock.create (testData "" "analysis" "Test prompt" None None)
    = Throws (ValidationError (js "Name is required") (Some (js "name"))) ∧
  PromptBlock.create (testData "test-block" "analysis" "" None None)
    = Throws (ValidationError (js "Prompt is required") (Some (js "prompt"))) ∧
  field <$> match PromptBlock.create
                    (testData "test-block" "invalid-category" "Test prompt" None None) with
            | Throws e => Some e
            | Returns _ => None
            end
    = Some (Some (js "category")) ∧
  PromptBlock.create (testData "invalid name with spaces" "analysis" "Test prompt" None None)
    = Throws (ValidationError
                (js "Name must contain only letters, numbers, underscores, and hyphens")
                (Some (js "name"))).
Proof. vm_compute. repeat split; reflexivity. Qed.

(** [EnhanceSystemPrompt.test.ts]: no active prompt; three blocks in
    priority order; a conflict in one category. *)
Example test_execute_empty :
  ∃ r, EnhanceSystemPrompt.execute (js "You are an AI assistant.") [] = Some (Value r) ∧
       (enhancedPrompt r, appliedPrompts r, conflictResolution r)
       = (js "You are an AI assistant.", [], []).
Proof. by eexists. Qed.

Example test_execute_multiple :
  ∃ ps r,
    mapM (λ d, activate d None) [analysisData; visualizationData; reportingData]
      = Some ps ∧
    EnhanceSystemPrompt.execute (js "You are an AI assistant.") ps = Some (Value r) ∧
    (enhancedPrompt r, length (appliedPrompts r), conflictResolution r)
    = (js "You are an AI assistant."
       ++ [10; 10] ++ js "Create Chart.js visualizations."
       ++ [10; 10] ++ js "Perform comprehensive EDA analysis."
       ++ [10; 10] ++ js "Generate statistical reports.",
       3%nat, []).
Proof.
  eexists _, _. split; [vm_compute; reflexivity|].
  split; [vm_compute; reflexivity|]. by vm_compute.
Qed.

Example test_execute_conflict :
  ∃ ps r,
    mapM (λ d, activate d None) [basicAnalysisData; advancedAnalysisData] = Some ps ∧
    EnhanceSystemPrompt.execute (js "You are an AI assistant.") ps = Some (Value r) ∧
    (enhancedPrompt r,
     (λ p, PromptBlock.name (ActivePromptConfig.block p)) <$> appliedPrompts r,
     (λ c, (category c, previousBlock c, selectedBlock c)) <$> conflictResolution r)
    = (js "You are an AI assistant." ++ [10; 10] ++ js "Advanced analysis instructions.",
       [js "advanced-analysis"],
       [(ANALYSIS, Some (js "basic-analysis"), js "advanced-analysis")]).
Proof.
  eexists _, _. split; [vm_compute; reflexivity|].
  split; [vm_compute; reflexivity|]. by vm_compute.
Qed.


(** * Further properties *)

(** ** The entity *)

Section EntityExtra.
Import PromptBlock.

Lemma trim_no_front_ws s :
  match trim s with [] => True | c :: _ => isWhiteSpace c = false end ∧
  match rev (trim s) with [] => True | c :: _ => isWhiteSpace c = false end.
Proof.
  destruct (trim_spec s) as (front & back & _ & _ & _ & H1 & H2). done.
Qed.

Lemma trim_idemp s : trim (trim s) = trim s.
Proof. destruct (trim_no_front_ws s). by apply trim_id. Qed.

(** What [create] has tested when it returns, and what it returns. *)
Lemma create_Returns_inv (d : PromptBlockData.t) (b : t) :
  create d = Returns b →
  blank (PromptBlockData.name d) = false ∧
  blank (PromptBlockData.prompt d) = false ∧
  asPromptCategory (PromptBlockData.category d) = Some (category b) ∧
  matchesNameFormat (PromptBlockData.name d) = true ∧
  variablesNamed (PromptBlockData.variables d) = true ∧
  (0 ≤ default 50 (PromptBlockData.priority d) ≤ 100)%Z ∧
  b = {| name := trim (PromptBlockData.name d);
         description := orElse (trim <$> PromptBlockData.description d) [];
         category := category b;
         tags := default [] (PromptBlockData.tags d);
         prompt := trim (PromptBlockData.prompt d);
         variables := default [] (PromptBlockData.variables d);
         outputs := default [] (PromptBlockData.outputs d);
         priority := default 50%Z (PromptBlockData.priority d);
         enabled := default true (PromptBlockData.enabled d) |}.
Proof.
  unfold create.
  destruct (blank (PromptBlockData.name d)); [done|].
  destruct (blank (PromptBlockData.prompt d)); [done|].
  destruct (blank (PromptBlockData.category d)); [done|].
  destruct (asPromptCategory (PromptBlockData.category d)) as [cat|]; [|done].
  destruct (matchesNameFormat (PromptBlockData.name d)); [|done].
  destruct (variablesNamed (PromptBlockData.variables d)); [|done].
  cbn [negb].
  destruct ((default 50 (PromptBlockData.priority d) <? 0)%Z
            || (100 <? default 50 (PromptBlockData.priority d))%Z) eqn:Hp; [done|].
  intros [= <-]. cbn.
  apply orb_false_iff in Hp as [H1 H2].
  apply Z.ltb_ge in H1, H2. done.
Qed.

Lemma asPromptCategory_Some s c : asPromptCategory s = Some c → categoryValue c = s.
Proof.
  unfold asPromptCategory. intros H. apply List.find_some in H as [_ H].
  by apply bool_decide_eq_true in H.
Qed.

Lemma orElse_nil_idemp (o : option jsstring) :
  orElse (Some (trim (orElse (trim <$> o) []))) [] = orElse (trim <$> o) [].
Proof.
  destruct o as [s|]; [|done].
  change (trim <$> Some s) with (Some (trim s)). unfold orElse at 2 3.
  destruct (truthy (trim s)) eqn:E.
  - unfold orElse. by rewrite trim_idemp, E.
  - done.
Qed.

(** X1.  Every rejection of [PromptBlock.create] names the member at
    fault: the error carries a [field], and it is one of [name], [prompt],
    [category], [variables] and [priority]. *)
Theorem create_rejection_names_field (d : PromptBlockData.t) (e : PromptBlockValidationError) :
  create d = Throws e →
  field e ∈ Some <$> [js "name"; js "prompt"; js "category"; js "variables"; js "priority"].
Proof.
  unfold create.
  repeat (match goal with
          | |- context [if ?c then _ else _] => destruct c
          | |- context [match asPromptCategory ?x with _ => _ end] =>
              destruct (asPromptCategory x)
          end);
    intros [= <-]; cbn [field]; set_solver.
Qed.

Lemma create_rejection_names_field_witness :
  field (ValidationError (js "Prompt is required") (Some (js "prompt")))
  ∈ Some <$> [js "name"; js "prompt"; js "category"; js "variables"; js "priority"].
Proof. apply (create_rejection_names_field blankPromptData). reflexivity. Defined.

(** A created block has the invariants of the entity. *)
Lemma create_wellFormed (d : PromptBlockData.t) (b : t) :
  create d = Returns b → wellFormed b.
Proof.
  intros H. apply create_Returns_inv in H as (Hn & Hp & Hc & Hf & Hv & Hr & ->).
  unfold wellFormed. cbn.
  destruct (matchesNameFormat_trim _ Hf) as [Ht _]. rewrite Ht.
  repeat split; try done.
  - unfold blank in *. by rewrite trim_idemp.
  - apply trim_idemp.
  - destruct (PromptBlockData.description d) as [s|]; [|done].
    change (trim <$> Some s) with (Some (trim s)). unfold orElse.
    destruct (truthy (trim s)); [apply trim_idemp|done].
  - lia.
  - lia.
  - destruct (PromptBlockData.variables d) as [l|]; cbn in *; [|constructor].
    apply forallb_Forall in Hv. eapply Forall_impl; [exact Hv|].
    intros v Hb. cbn in Hb. by destruct (blank (PromptVariable.name v)).
Qed.

(** A block with the invariants is what [create] makes of its own data. *)
Lemma wellFormed_create_toData (b : t) :
  wellFormed b → create (toData b) = Returns b.
Proof.
  intros (Hf & Hp & Htp & Htd & Hr & Hv).
  unfold create, toData. cbn [PromptBlockData.name PromptBlockData.prompt
    PromptBlockData.category PromptBlockData.variables PromptBlockData.priority
    PromptBlockData.description PromptBlockData.tags PromptBlockData.outputs
    PromptBlockData.enabled].
  rewrite (matchesNameFormat_not_blank _ Hf), Hp, categoryValue_not_blank,
    asPromptCategory_value, Hf.
  cbn [negb].
  assert (variablesNamed (Some (variables b)) = true) as ->.
  { cbn. apply forallb_Forall. eapply Forall_impl; [exact Hv|].
    intros v Hb. cbn. by rewrite Hb. }
  cbn [negb default from_option id].
  assert (((priority b <? 0)%Z || (100 <? priority b)%Z) = false) as ->.
  { apply orb_false_iff. split; apply Z.ltb_ge; lia. }
  destruct (matchesNameFormat_trim _ Hf) as [-> _].
  change (trim <$> Some (description b)) with (Some (trim (description b))).
  rewrite Htd, Htp.
  assert (orElse (Some (description b)) [] = description b) as ->.
  { unfold orElse. by destruct (description b). }
  by destruct b.
Qed.

Lemma wellFormed_withEnabled (b : t) e : wellFormed b → wellFormed (withEnabled b e).
Proof. done. Qed.

(** X2.  The invariants of a created block.  When [PromptBlock.create]
    returns a block, its name is the name of the data as given and has the
    format of a name, its category is the one the data names, its prompt
    is not blank, prompt and description have no white space at their
    ends, its priority is the one of the data, or 50 when the data has
    none, and its variables have names that are not blank; tags and
    variables are taken over as they are, so that [hasTag] looks for the
    tag among the tags of the data and [getRequiredVariables] gives the
    required variables of the data. *)
Theorem create_establishes_invariants (d : PromptBlockData.t) (b : t) :
  create d = Returns b →
  name b = PromptBlockData.name d ∧
  matchesNameFormat (name b) = true ∧
  categoryValue (category b) = PromptBlockData.category d ∧
  blank (prompt b) = false ∧
  trim (prompt b) = prompt b ∧
  trim (description b) = description b ∧
  priority b = default 50%Z (PromptBlockData.priority d) ∧
  Forall (λ v, blank (PromptVariable.name v) = false) (variables b) ∧
  (∀ tag, hasTag b tag = bool_decide (tag ∈ default [] (PromptBlockData.tags d))) ∧
  getRequiredVariables b
  = List.filter PromptVariable.required (default [] (PromptBlockData.variables d)).
Proof.
  intros H. destruct (create_wellFormed _ _ H) as (Hf & Hp & Htp & Htd & Hr & Hv).
  apply create_Returns_inv in H as (_ & _ & Hc & Hfd & _ & _ & Hb).
  split.
  { rewrite Hb. cbn [name]. by destruct (matchesNameFormat_trim _ Hfd) as [-> _]. }
  split; [done|]. split; [by apply asPromptCategory_Some|].
  split; [done|]. split; [done|]. split; [done|]. split; [by rewrite Hb|].
  split; [done|]. by rewrite Hb.
Qed.

Lemma create_establishes_invariants_witness :
  ∃ b, create sampleData = Returns b ∧
       name b = PromptBlockData.name sampleData ∧
       matchesNameFormat (name b) = true ∧
       categoryValue (category b) = PromptBlockData.category sampleData ∧
       blank (prompt b) = false ∧
       trim (prompt b) = prompt b ∧
       trim (description b) = description b ∧
       priority b = default 50%Z (PromptBlockData.priority sampleData) ∧
       Forall (λ v, blank (PromptVariable.name v) = false) (variables b) ∧
       (∀ tag, hasTag b tag
               = bool_decide (tag ∈ default [] (PromptBlockData.tags sampleData))) ∧
       getRequiredVariables b
       = List.filter PromptVariable.required
           (default [] (PromptBlockData.variables sampleData)).
Proof.
  eexists. split; [reflexivity|].
  apply (create_establishes_invariants sampleData). reflexivity.
Defined.

(** X3.  A created block is a fixed point of [toData] followed by
    [create]: the data [toData] gives for it is accepted, and [create]
    makes the same block of it. *)
Theorem create_toData_fixed_point (d : PromptBlockData.t) (b : t) :
  create d = Returns b → create (toData b) = Returns b.
Proof. intros H. apply wellFormed_create_toData. by eapply create_wellFormed. Qed.

Lemma create_toData_fixed_point_witness :
  ∃ b, create sampleData = Returns b ∧ create (toData b) = Returns b.
Proof.
  eexists. split; [reflexivity|].
  apply (create_toData_fixed_point sampleData). reflexivity.
Defined.

(** X4.  [withEnabled] agrees with [create].  For a block made of some
    data, [withEnabled(e)] is the block [create] makes of the same data
    with [enabled] set to [e]; it has the invariants again, so that
    [create] makes it of its own data; and setting the flag back gives the
    block back. *)
Theorem withEnabled_agrees_with_create (d : PromptBlockData.t) (b : t) (e : bool) :
  create d = Returns b →
  create (dataWithEnabled d e) = Returns (withEnabled b e) ∧
  create (toData (withEnabled b e)) = Returns (withEnabled b e) ∧
  withEnabled (withEnabled b e) (enabled b) = b.
Proof.
  intros H. split; [|split].
  - apply create_Returns_inv in H as (Hn & Hp & Hc & Hf & Hv & Hr & ->).
    unfold create, dataWithEnabled. cbn [PromptBlockData.name PromptBlockData.prompt
      PromptBlockData.category PromptBlockData.variables PromptBlockData.priority
      PromptBlockData.description PromptBlockData.tags PromptBlockData.outputs
      PromptBlockData.enabled].
    cbn [category] in Hc.
    rewrite Hn, Hp, Hc, Hf, Hv.
    assert (blank (PromptBlockData.category d) = false) as ->.
    { apply asPromptCategory_Some in Hc. rewrite <- Hc. apply categoryValue_not_blank. }
    cbn [negb].
    assert (((default 50 (PromptBlockData.priority d) <? 0)%Z
             || (100 <? default 50 (PromptBlockData.priority d))%Z) = false) as ->.
    { apply orb_false_iff. split; apply Z.ltb_ge; lia. }
    done.
  - apply wellFormed_create_toData, wellFormed_withEnabled. by eapply create_wellFormed.
  - by destruct b.
Qed.

Lemma withEnabled_agrees_with_create_witness :
  ∃ b, create sampleData = Returns b ∧
       create (dataWithEnabled sampleData false) = Returns (withEnabled b false) ∧
       create (toData (withEnabled b false)) = Returns (withEnabled b false) ∧
       withEnabled (withEnabled b false) (enabled b) = b.
Proof.
  eexists. split; [reflexivity|].
  apply (withEnabled_agrees_with_create sampleData). reflexivity.
Defined.

Lemma categoryValue_colon_prefix c1 c2 (s1 s2 : jsstring) :
  categoryValue c1 ++ js ":" ++ s1 = categoryValue c2 ++ js ":" ++ s2 →
  c1 = c2 ∧ s1 = s2.
Proof.
  destruct c1, c2; cbn; intros H; try (by inversion H); split; try done;
    by simplify_list_eq.
Qed.

(** X5.  [getId] identifies category and name.  No category value
    contains a colon or is a prefix of another one followed by a colon, so
    that two blocks with the same identifier have the same category and
    the same name; this holds for every name. *)
Theorem getId_injective (b1 b2 : t) :
  getId b1 = getId b2 → category b1 = category b2 ∧ name b1 = name b2.
Proof. apply categoryValue_colon_prefix. Qed.

Lemma getId_injective_witness :
  category (withEnabled roleBlock false) = category roleBlock ∧
  name (withEnabled roleBlock false) = name roleBlock.
Proof. apply (getId_injective (withEnabled roleBlock false) roleBlock). reflexivity. Defined.

(** *** Substitution *)

Lemma replaceFrom_no_match (pat template before s : jsstring) :
  occursIn pat s = false → replaceFrom pat template before s 0 = s.
Proof.
  revert before. induction s as [|c rest IH]; intros before H; [done|].
  cbn [occursIn] in H. apply orb_false_iff in H as [H0 H].
  cbn [replaceFrom]. rewrite H0. f_equal. by apply IH.
Qed.

Lemma substitution_ext (vals vals' : option (gmap jsstring jsstring))
    (l l' : list PromptVariable.t) :
  Forall2 (λ v v', PromptVariable.name v = PromptVariable.name v' ∧
                   PromptVariable.defaultValue v = PromptVariable.defaultValue v') l l' →
  (∀ v, v ∈ l → lookupValue vals (PromptVariable.name v)
                 = lookupValue vals' (PromptVariable.name v)) →
  ∀ text, substituteVariables vals text l = substituteVariables vals' text l'.
Proof.
  induction 1 as [|v v' l l' [Hn Hd] Hv IH]; intros Hs text; [done|].
  cbn [substituteVariables].
  assert (substituteVariable vals text v = substituteVariable vals' text v') as ->.
  { unfold substituteVariable, placeholderPattern, placeholder, chosenValue.
    by rewrite <- Hn, <- Hd, (Hs v ltac:(left)). }
  destruct (substituteVariable vals' text v') as [[next|]|]; [|done..].
  apply IH. intros w Hw. apply Hs. by right.
Qed.

(** X6.  What [resolvePrompt] depends on.  The result is determined by
    the text of the prompt, the names and the defaults of the declared
    variables in their order, and what the lookup of these names in the
    values yields.  Whether a variable is required, its description, the
    other members of the block (also [enabled]) and values supplied for
    other names have no effect: a required variable without a value is not
    an error. *)
Theorem resolvePrompt_reads_names_and_defaults (b b' : t)
    (vals vals' : option (gmap jsstring jsstring)) :
  prompt b = prompt b' →
  Forall2 (λ v v', PromptVariable.name v = PromptVariable.name v' ∧
                   PromptVariable.defaultValue v = PromptVariable.defaultValue v')
          (variables b) (variables b') →
  (∀ v, v ∈ variables b → lookupValue vals (PromptVariable.name v)
                           = lookupValue vals' (PromptVariable.name v)) →
  resolvePrompt b vals = resolvePrompt b' vals'.
Proof.
  intros Hp Hv Hs. unfold resolvePrompt, hasVariables.
  rewrite (substitution_ext vals vals' _ _ Hv Hs), Hp. by destruct Hv.
Qed.

(** X7.  A prompt without placeholders of its variables is returned as
    it is.  For a block whose variables have plain names, none of whose
    placeholders occurs in the prompt, [resolvePrompt] returns the prompt,
    whatever values are supplied and whatever they contain; in particular
    a block without variables is returned as it is, with every brace in
    it. *)
Theorem resolvePrompt_without_placeholders (b : t)
    (vals : option (gmap jsstring jsstring)) :
  Forall (λ v, plainVariableName (PromptVariable.name v) = true) (variables b) →
  Forall (λ v, occursIn (placeholder v) (prompt b) = false) (variables b) →
  resolvePrompt b vals = Some (Value (prompt b)).
Proof.
  intros Hplain Hno. rewrite resolvePrompt_defined by done. do 2 f_equal.
  induction Hno as [|v l Hv Hl IH]; [done|].
  cbn [foldl]. unfold substituted at 2, replaceGlobal.
  rewrite replaceFrom_no_match by done. apply IH. by inversion Hplain.
Qed.

Lemma resolvePrompt_reads_names_and_defaults_witness :
  resolvePrompt roleBlock (Some {[ js "role" := js "developer" ]})
  = resolvePrompt requiredRoleBlock
      (Some {[ js "role" := js "developer"; js "tone" := js "formal" ]}).
Proof.
  apply (resolvePrompt_reads_names_and_defaults roleBlock requiredRoleBlock).
  - reflexivity.
  - repeat constructor.
  - intros v Hv. apply list_elem_of_singleton in Hv as ->. vm_compute. reflexivity.
Defined.

Lemma resolvePrompt_without_placeholders_witness :
  resolvePrompt unusedVariableBlock (Some {[ js "summary" := js "long" ]})
  = Some (Value (js "Write {a} short {{summary}.")).
Proof.
  apply (resolvePrompt_without_placeholders unusedVariableBlock).
  - repeat constructor.
  - repeat constructor.
Defined.

End EntityExtra.

(** ** The composer: summary, fixed point, lengths *)

Section ComposerExtra.
Import ActivePromptConfig EnhanceSystemPrompt.

Implicit Types (p w q : t) (l : list t) (c : PromptCategory)
  (G : list (PromptCategory * list t)).

Lemma sortDescending_perm l l' : sortDescending l = Some l' → l' ≡ₚ l.
Proof.
  unfold sortDescending. destruct l as [|p [|q l]]; try (by intros [= <-]).
  destruct (forallb hasPriority (p :: q :: l)); [|done].
  intros [= <-]. apply (stableSort_perm (p :: q :: l)).
Qed.

Lemma sortDescending_sorted l l' :
  sortDescending l = Some l' →
  StronglySorted (λ a b, (priorityValue b ≤ priorityValue a)%Z) l'.
Proof.
  unfold sortDescending. destruct l as [|p [|q l]].
  - intros [= <-]. constructor.
  - intros [= <-]. repeat constructor.
  - destruct (forallb hasPriority (p :: q :: l)); [|done].
    intros [= <-]. apply (stableSort_sorted (p :: q :: l)).
Qed.

(** Sorting an array that is in descending order leaves it as it is. *)
Lemma stableSort_sorted_id l :
  StronglySorted (λ a b, (priorityValue b ≤ priorityValue a)%Z) l →
  foldr insertByPriority [] l = l.
Proof.
  induction 1 as [|x l Hl IH Hx]; [done|].
  cbn [foldr]. rewrite IH. destruct l as [|y l]; [done|].
  cbn [insertByPriority]. inversion Hx as [|?? Hy _]; subst.
  destruct (Z.ltb_spec (priorityValue x) (priorityValue y)); [lia|done].
Qed.

Lemma sortDescending_twice l l' :
  sortDescending l = Some l' → sortDescending l' = Some l'.
Proof.
  intros H. pose proof (sortDescending_sorted _ _ H) as Hs.
  pose proof (sortDescending_perm _ _ H) as Hp.
  unfold sortDescending in *. destruct l as [|p [|q l]].
  - by injection H as <-.
  - by injection H as <-.
  - destruct (forallb hasPriority (p :: q :: l)) eqn:Hpr; [|done].
    destruct l' as [|a [|b l']]; [done..|].
    assert (forallb hasPriority (a :: b :: l') = true) as ->.
    { apply forallb_Forall. rewrite Hp. by apply forallb_Forall. }
    by rewrite stableSort_sorted_id.
Qed.

Lemma resolveCategory_elem (e : PromptCategory * list t) w cs :
  resolveCategory e = Some (w, cs) → w ∈ e.2.
Proof.
  unfold resolveCategory. destruct e as [c ps]. cbn [fst snd].
  destruct ps as [|p [|q ps]].
  - done.
  - intros [= <- _]. by left.
  - destruct (sortDescending (p :: q :: ps)) as [sorted|] eqn:Hs; [|done].
    cbn. destruct sorted as [|s rest]; [done|]. intros [= <- _].
    rewrite <- (sortDescending_perm _ _ Hs). by left.
Qed.

Lemma resolveEntries_elems G resolved conflicts :
  resolveEntries G = Some (resolved, conflicts) →
  Forall2 (λ e w, w ∈ e.2) G resolved.
Proof.
  revert resolved conflicts. induction G as [|e G IH]; intros resolved conflicts.
  - intros [= <- _]. constructor.
  - cbn [resolveEntries].
    destruct (resolveCategory e) as [[w cs]|] eqn:He; [|done]. cbn.
    destruct (resolveEntries G) as [[ws css]|] eqn:HG; [|done]. cbn.
    intros [= <- _]. constructor; [by eapply resolveCategory_elem|by eapply IH].
Qed.

(** The survivors are one per entry of the category map, in its order. *)
Lemma resolveConflicts_categories l resolved conflicts :
  resolveConflicts l = Some (resolved, conflicts) →
  categoryOf <$> resolved = (groupByCategory l).*1 ∧
  Forall (λ w, w ∈ l) resolved.
Proof.
  intros H. apply resolveEntries_elems in H.
  destruct (groupByCategory_spec l) as (_ & Hent & _).
  induction H as [|e w G ws Hw H IH]; [done|].
  inversion Hent as [|?? He Hent']; subst.
  destruct (IH Hent') as [IH1 IH2].
  rewrite He in Hw. apply elem_of_inCategory in Hw as [Hc Hl].
  split; [cbn; by rewrite Hc, IH1|by constructor].
Qed.

Lemma firstOccurrences_filter {A} `{EqDecision A} (P : A → Prop)
    `{!∀ x, Decision (P x)} (l : list A) :
  firstOccurrences (filter P l) = filter P (firstOccurrences l).
Proof.
  induction l as [|x l IH]; [done|].
  destruct (decide (P x)) as [Hx|Hx].
  - rewrite filter_cons_True by done. cbn [firstOccurrences].
    rewrite filter_cons_True by done. f_equal. rewrite IH.
    rewrite !list_filter_filter. apply list_filter_iff. tauto.
  - rewrite filter_cons_False by done. cbn [firstOccurrences].
    rewrite filter_cons_False by done. rewrite IH.
    rewrite list_filter_filter. apply list_filter_iff.
    intros y. split; [|tauto]. intros Hy. split; [done|]. by intros ->.
Qed.

Lemma firstOccurrences_elem {A} `{EqDecision A} (l : list A) x :
  x ∈ firstOccurrences l ↔ x ∈ l.
Proof.
  induction l as [|y l IH]; [done|]. cbn [firstOccurrences].
  rewrite !elem_of_cons, list_elem_of_filter, IH.
  destruct (decide (x = y)) as [->|Hxy]; [by split; left|].
  split.
  - intros [?|[_ ?]]; [done|by right].
  - intros [?|?]; [done|by right].
Qed.

Lemma firstOccurrences_snoc {A} `{EqDecision A} (l : list A) x :
  firstOccurrences (l ++ [x]) =
  if decide (x ∈ l) then firstOccurrences l else firstOccurrences l ++ [x].
Proof.
  induction l as [|y l IH].
  - cbn. rewrite decide_False; [done|]. by apply not_elem_of_nil.
  - cbn [app firstOccurrences]. rewrite IH.
    destruct (decide (x = y)) as [->|Hxy].
    + rewrite (decide_True (P := y ∈ y :: l)) by left.
      destruct (decide (y ∈ l)); [done|].
      rewrite filter_app, filter_cons_False, filter_nil, app_nil_r; [done|].
      by intros H'.
    + destruct (decide (x ∈ l)) as [Hx|Hx].
      * rewrite decide_True by (by right). done.
      * rewrite decide_False by (by intros [?|?]%elem_of_cons).
        by rewrite filter_app, filter_cons_True, filter_nil.
Qed.

(** The keys of the category map are the categories of the input, each at
    its first occurrence. *)
Lemma groupByCategory_keys l :
  (groupByCategory l).*1 = firstOccurrences (categoryOf <$> l).
Proof.
  induction l as [|p l IH] using rev_ind; [done|].
  rewrite groupByCategory_snoc, pushToCategory_keys, fmap_app.
  change (categoryOf <$> [p]) with [categoryOf p].
  rewrite firstOccurrences_snoc, IH.
  destruct (decide (categoryOf p ∈ firstOccurrences (categoryOf <$> l))) as [H'|H'];
    rewrite firstOccurrences_elem in H'.
  - by rewrite decide_True.
  - by rewrite decide_False.
Qed.

Lemma pushName_new c (n : jsstring) (M : list (PromptCategory * list jsstring)) :
  c ∉ M.*1 → pushName c n M = M ++ [(c, [n])].
Proof.
  induction M as [|[c' ns] M IH]; [done|]. cbn [pushName fmap list_fmap fst].
  rewrite not_elem_of_cons. intros [Hc HM].
  rewrite decide_False by done. cbn [app]. by rewrite IH.
Qed.

Lemma pushToCategory_new c p G :
  c ∉ G.*1 → pushToCategory c p G = G ++ [(c, [p])].
Proof.
  induction G as [|[c' ps] G IH]; [done|]. cbn [pushToCategory fmap list_fmap fst].
  rewrite not_elem_of_cons. intros [Hc HG].
  rewrite decide_False by done. cbn [app]. by rewrite IH.
Qed.

(** Configs of distinct categories go one to a group. *)
Lemma groupNames_distinct l :
  NoDup (categoryOf <$> l) →
  groupNames l = (λ p, (categoryOf p, [PromptBlock.name (block p)])) <$> l.
Proof.
  unfold groupNames. intros Hnd.
  enough (∀ M : list (PromptCategory * list jsstring),
             (∀ p, p ∈ l → categoryOf p ∉ M.*1) →
             foldl (λ m p, pushName (categoryOf p) (PromptBlock.name (block p)) m) M l
             = M ++ ((λ p, (categoryOf p, [PromptBlock.name (block p)])) <$> l)) as H.
  { apply (H []). intros p _. apply not_elem_of_nil. }
  induction l as [|q l IH]; intros M HM.
  - by rewrite app_nil_r.
  - cbn [foldl fmap list_fmap]. apply NoDup_cons in Hnd as [Hq Hnd].
    rewrite pushName_new by (apply HM; left).
    rewrite IH; [by rewrite <- app_assoc|done|].
    intros p Hp. rewrite fmap_app, elem_of_app. intros [H'|H'].
    + by apply (HM p); [right|].
    + cbn in H'. apply list_elem_of_singleton in H'. apply Hq. rewrite <- H'.
      by apply list_elem_of_fmap_2.
Qed.

Lemma groupByCategory_distinct l :
  NoDup (categoryOf <$> l) →
  groupByCategory l = (λ p, (categoryOf p, [p])) <$> l.
Proof.
  unfold groupByCategory. intros Hnd.
  enough (∀ G, (∀ p, p ∈ l → categoryOf p ∉ G.*1) →
               foldl (λ m p, pushToCategory (categoryOf p) p m) G l
               = G ++ ((λ p, (categoryOf p, [p])) <$> l)) as H.
  { apply (H []). intros p _. apply not_elem_of_nil. }
  induction l as [|q l IH]; intros G HG.
  - by rewrite app_nil_r.
  - cbn [foldl fmap list_fmap]. apply NoDup_cons in Hnd as [Hq Hnd].
    rewrite pushToCategory_new by (apply HG; left).
    rewrite IH; [by rewrite <- app_assoc|done|].
    intros p Hp. rewrite fmap_app, elem_of_app. intros [H'|H'].
    + by apply (HG p); [right|].
    + cbn in H'. apply list_elem_of_singleton in H'. apply Hq. rewrite <- H'.
      by apply list_elem_of_fmap_2.
Qed.

Lemma resolveEntries_singletons l :
  resolveEntries ((λ p, (categoryOf p, [p])) <$> l) = Some (l, []).
Proof. induction l as [|p l IH]; [done|]. cbn. rewrite IH. done. Qed.

Lemma resolveConflicts_NoDup l resolved conflicts :
  resolveConflicts l = Some (resolved, conflicts) → NoDup (categoryOf <$> resolved).
Proof.
  intros H. apply resolveConflicts_categories in H as [-> _].
  by destruct (groupByCategory_spec l) as (Hnd & _).
Qed.

(** What [execute] has computed when it returns. *)
Lemma execute_inv (original : jsstring) l r :
  execute original l = Some (Value r) →
  ∃ resolved,
    resolveConflicts l = Some (resolved, conflictResolution r) ∧
    sortByPriority resolved = Some (appliedPrompts r) ∧
    concatenatePrompts original (appliedPrompts r) = Some (Value (enhancedPrompt r)) ∧
    originalPrompt r = original ∧
    totalLength r = Z.of_nat (length (enhancedPrompt r)) ∧
    addedLength r = (Z.of_nat (length (enhancedPrompt r))
                     - Z.of_nat (length original))%Z.
Proof.
  unfold execute.
  destruct (resolveConflicts l) as [[resolved conflicts]|]; [|done]. cbn.
  destruct (sortByPriority resolved) as [sorted|] eqn:Hs; [|done]. cbn.
  destruct (concatenatePrompts original sorted) as [[e|]|] eqn:He; [|done..]. cbn.
  intros [= <-]. cbn. by exists resolved.
Qed.

Lemma join_singletons (names : list jsstring) (f : jsstring → jsstring) :
  (λ n, f (join (js ", ") [n])) <$> names = f <$> names.
Proof. done. Qed.

(** X8.  The summary names the applied prompts.  When [execute] returns
    for a non-empty list of configs, [generatePromptSummary] returns, for
    the same configs, one part per applied prompt, made of the display
    name of its category and the name of its block, never two names under
    one category; the parts are in the order in which the categories first
    occur among the configs (the applied prompts themselves are in
    priority order), joined by [" | "]. *)
Theorem generatePromptSummary_names_applied_prompts (original : jsstring) l r :
  l ≠ [] →
  execute original l = Some (Value r) →
  ∃ resolved,
    resolved ≡ₚ appliedPrompts r ∧
    categoryOf <$> resolved = firstOccurrences (categoryOf <$> l) ∧
    generatePromptSummary l = Some (join (js " | ") (summaryLine <$> resolved)).
Proof.
  intros Hne Hex.
  destruct (execute_inv _ _ _ Hex) as (resolved & Hres & Hsort & _).
  exists resolved. split; [|split].
  - symmetry. by apply sortDescending_perm.
  - destruct (resolveConflicts_categories _ _ _ Hres) as [-> _].
    apply groupByCategory_keys.
  - unfold generatePromptSummary. destruct l as [|p l]; [done|].
    rewrite Hres. cbn [mbind option_bind fst].
    rewrite groupNames_distinct by (by eapply resolveConflicts_NoDup).
    by rewrite <- list_fmap_compose.
Qed.

Lemma generatePromptSummary_names_applied_prompts_witness :
  ∃ resolved,
    resolved ≡ₚ [chartBlock; blockA] ∧
    categoryOf <$> resolved = [ANALYSIS; VISUALIZATION] ∧
    generatePromptSummary [blockA; chartBlock; blockB]
    = Some (join (js " | ") (summaryLine <$> resolved)).
Proof.
  apply (generatePromptSummary_names_applied_prompts (js "You are an AI assistant.")
           [blockA; chartBlock; blockB]
           (match execute (js "You are an AI assistant.")
                    [blockA; chartBlock; blockB] with
            | Some (Value r) => r
            | _ => {| originalPrompt := []; enhancedPrompt := [];
                      appliedPrompts := []; conflictResolution := [];
                      totalLength := 0; addedLength := 0 |}
            end)).
  - done.
  - vm_compute. reflexivity.
Defined.

(** X9.  The applied prompts are a fixed point of the composer.  Given its
    own applied prompts, [execute] applies them all, in the same order,
    reports no conflict and returns the same enhanced prompt and
    lengths. *)
Theorem execute_applied_prompts_fixed_point (original : jsstring) l r :
  execute original l = Some (Value r) →
  execute original (appliedPrompts r) = Some (Value (withoutConflicts r)).
Proof.
  intros Hex.
  destruct (execute_inv _ _ _ Hex) as (resolved & Hres & Hsort & Hcat & Ho & Ht & Ha).
  assert (NoDup (categoryOf <$> appliedPrompts r)) as Hnd.
  { rewrite (sortDescending_perm _ _ Hsort). by eapply resolveConflicts_NoDup. }
  unfold execute, resolveConflicts.
  rewrite (groupByCategory_distinct _ Hnd), resolveEntries_singletons.
  cbn [mbind option_bind fst snd].
  unfold sortByPriority in *. rewrite (sortDescending_twice _ _ Hsort).
  cbn [mbind option_bind]. rewrite Hcat. cbn [mbind option_bind].
  unfold withoutConflicts. by rewrite Ho, Ht, Ha.
Qed.

Lemma execute_applied_prompts_fixed_point_witness :
  ∃ r, execute (js "You are an AI assistant.") [blockA; chartBlock; blockB] = Some (Value r) ∧
       appliedPrompts r = [chartBlock; blockA] ∧
       execute (js "You are an AI assistant.") (appliedPrompts r)
       = Some (Value (withoutConflicts r)).
Proof.
  eexists. split; [reflexivity|]. split; [reflexivity|].
  apply (execute_applied_prompts_fixed_point (js "You are an AI assistant.")
           [blockA; chartBlock; blockB]).
  reflexivity.
Defined.

Lemma appendPrompts_inv (enhanced text : jsstring) l :
  appendPrompts enhanced l = Some (Value text) →
  text = enhanced ++ concat ((λ p, separator ++ trim (resolvedBody p)) <$> l).
Proof.
  revert enhanced. induction l as [|p l IH]; intros enhanced.
  - intros [= <-]. by rewrite app_nil_r.
  - cbn [appendPrompts].
    destruct (PromptBlock.resolvePrompt (block p) (variables p)) as [[body|]|] eqn:E;
      [|done..].
    intros H. rewrite (IH _ H), fmap_cons. cbn [concat].
    assert (resolvedBody p = body) as -> by (unfold resolvedBody; by rewrite E).
    by rewrite <- !app_assoc.
Qed.

Lemma length_concat_sum {A} (ls : list (list A)) :
  length (concat ls) = sum_list (length <$> ls).
Proof. induction ls as [|x ls IH]; [done|]. cbn. by rewrite length_app, IH. Qed.

(** X10.  The lengths [execute] reports.  For a non-empty list of configs
    the total length is the length of the trimmed original prompt plus,
    for each applied prompt, two for the separator and the length of its
    trimmed body; the added length is the total less the length of the
    original prompt as it was given, so that it counts the white space
    trimmed from the original as negative; for an original prompt without
    white space at its ends it is the length of the appended text. *)
Theorem execute_lengths (original : jsstring) l r :
  l ≠ [] →
  execute original l = Some (Value r) →
  appliedPrompts r ≠ [] ∧
  totalLength r =
    Z.of_nat (length (trim original)
              + sum_list ((λ p, 2 + length (trim (resolvedBody p)))%nat
                            <$> appliedPrompts r))%nat ∧
  addedLength r = (totalLength r - Z.of_nat (length original))%Z ∧
  (trim original = original →
   addedLength r =
     Z.of_nat (sum_list ((λ p, 2 + length (trim (resolvedBody p)))%nat <$> appliedPrompts r))).
Proof.
  intros Hne Hex.
  destruct (execute_inv _ _ _ Hex) as (resolved & Hres & Hsort & Hcat & Ho & Ht & Ha).
  assert (appliedPrompts r ≠ []) as Hap.
  { intros Hnil. apply sortDescending_perm in Hsort. rewrite Hnil in Hsort.
    apply Permutation_nil_l in Hsort. subst resolved.
    destruct (resolveConflicts_categories _ _ _ Hres) as [Hk _].
    rewrite groupByCategory_keys in Hk. by destruct l. }
  assert (totalLength r =
    Z.of_nat (length (trim original)
              + sum_list ((λ p, 2 + length (trim (resolvedBody p)))%nat
                            <$> appliedPrompts r))%nat)
    as Htot.
  { rewrite Ht. f_equal. unfold concatenatePrompts in Hcat.
    destruct (appliedPrompts r) as [|p ps] eqn:Eap; [done|].
    rewrite (appendPrompts_inv _ _ _ Hcat), length_app, length_concat_sum.
    f_equal. f_equal. rewrite <- list_fmap_compose. apply list_fmap_ext.
    intros _ q _. reflexivity. }
  split; [done|]. split; [done|]. split; [by rewrite Ha, Ht|].
  intros Hid. rewrite Ha, <- Ht, Htot, Hid. lia.
Qed.

Lemma execute_lengths_witness :
  ∃ r, execute (js "  You are an AI assistant. ") [blockA; chartBlock; blockB] = Some (Value r) ∧
       totalLength r = 61%Z ∧ addedLength r = 34%Z ∧
       totalLength r =
         Z.of_nat (length (trim (js "  You are an AI assistant. "))
                   + sum_list ((λ p, 2 + length (trim (resolvedBody p)))%nat
                                 <$> appliedPrompts r))%nat.
Proof.
  eexists. split; [reflexivity|].
  split; [vm_compute; reflexivity|]. split; [vm_compute; reflexivity|].
  apply (execute_lengths (js "  You are an AI assistant. ") [blockA; chartBlock; blockB]).
  - done.
  - reflexivity.
Defined.

Lemma sortDescending_stable (k : Z) l l' :
  sortDescending l = Some l' →
  filter (λ p, priorityValue p = k) l' = filter (λ p, priorityValue p = k) l.
Proof.
  unfold sortDescending. destruct l as [|p [|q l]]; try (by intros [= <-]).
  destruct (forallb hasPriority (p :: q :: l)); [|done].
  intros [= <-]. apply (stableSort_stable k (p :: q :: l)).
Qed.

(** X29.  The order of the applied prompts.  They are in descending order
    of priority, and those of one priority are in the order in which their
    categories first occur among the configs. *)
Theorem execute_orders_ties_by_category_occurrence (original : jsstring) l r :
  execute original l = Some (Value r) →
  StronglySorted (λ a b, (priorityValue b ≤ priorityValue a)%Z) (appliedPrompts r) ∧
  ∃ resolved,
    categoryOf <$> resolved = firstOccurrences (categoryOf <$> l) ∧
    ∀ k, filter (λ p, priorityValue p = k) (appliedPrompts r)
         = filter (λ p, priorityValue p = k) resolved.
Proof.
  intros Hex.
  destruct (execute_inv _ _ _ Hex) as (resolved & Hres & Hsort & _).
  split; [by eapply sortDescending_sorted|].
  exists resolved. split.
  - destruct (resolveConflicts_categories _ _ _ Hres) as [-> _].
    apply groupByCategory_keys.
  - intros k. by apply sortDescending_stable.
Qed.

Lemma execute_orders_ties_by_category_occurrence_witness :
  ∃ r, execute (js "You are an AI assistant.") [blockA; chartBlock; blockB] = Some (Value r) ∧
       StronglySorted (λ a b, (priorityValue b ≤ priorityValue a)%Z) (appliedPrompts r) ∧
       ∃ resolved,
         categoryOf <$> resolved
         = firstOccurrences (categoryOf <$> [blockA; chartBlock; blockB]) ∧
         ∀ k, filter (λ p, priorityValue p = k) (appliedPrompts r)
              = filter (λ p, priorityValue p = k) resolved.
Proof.
  eexists. split; [reflexivity|].
  apply (execute_orders_ties_by_category_occurrence (js "You are an AI assistant.")
           [blockA; chartBlock; blockB]).
  reflexivity.
Defined.

End ComposerExtra.

(** ** The file-system repository: scans, names, memo *)

Section RepositoryExtra.
Import FileSystemPromptBlockRepository.

Implicit Types (this : t) (M : list (jsstring * PromptBlock.t))
  (b : PromptBlock.t) (k name : jsstring) (sp : SearchPath).

Lemma elem_of_concat {A} (x : A) (ls : list (list A)) :
  x ∈ concat ls ↔ ∃ l, x ∈ l ∧ l ∈ ls.
Proof.
  induction ls as [|l' ls IH]; cbn [concat].
  - split; [by intros ?%not_elem_of_nil|]. by intros (l & _ & ?%not_elem_of_nil).
  - rewrite elem_of_app, IH. split.
    + intros [H|(l & H1 & H2)]; [exists l'; split; [done|by left]|].
      exists l. split; [done|by right].
    + intros (l & H1 & [->|H2]%elem_of_cons); [by left|]. right. by exists l.
Qed.

Lemma loadBlockFromFile_success this file src b :
  (success (loadBlockFromFile this file src) = true ∧
   block (loadBlockFromFile this file src) = Some b) ↔
  ∃ content data,
    readFile (host this) file = Fulfilled content ∧
    parseFromContent (host this) content file = Fulfilled data ∧
    PromptBlock.create data = Returns b.
Proof.
  unfold loadBlockFromFile. split.
  - destruct (readFile (host this) file) as [content|m]; [|by intros [? _]].
    destruct (parseFromContent (host this) content file) as [data|m] eqn:Hp;
      [|by intros [? _]].
    destruct (PromptBlock.create data) as [b'|e] eqn:Hc; [|by intros [? _]].
    cbn. intros [_ [= ->]]. by exists content, data.
  - intros (content & data & -> & -> & ->). done.
Qed.

Lemma loadedBlock_elem (r : BlockLoadResult) b :
  b ∈ loadedBlock r ↔ success r = true ∧ block r = Some b.
Proof.
  unfold loadedBlock. destruct (success r).
  - destruct (block r) as [b'|]; cbn.
    + rewrite list_elem_of_singleton. split; [by intros ->|by intros [_ [= ->]]].
    + split; [by intros ?%not_elem_of_nil|by intros [_ ?]].
  - split; [by intros ?%not_elem_of_nil|by intros [? _]].
Qed.

(** The blocks of a directory scan are those of the YAML files of the
    listing that load; the other files leave no trace. *)
Lemma loadBlocksFromDirectory_elem this sp bs b :
  loadBlocksFromDirectory this (path sp) (pathSource sp) = Fulfilled bs →
  b ∈ bs ↔ ∃ filename, fileYields this sp filename b.
Proof.
  unfold loadBlocksFromDirectory, fileYields.
  destruct (isDirectory (host this) (path sp)); cbn [negb].
  - destruct (readdir (host this) (path sp)) as [files|m]; [|done].
    intros [= <-]. rewrite elem_of_concat. split.
    + intros (x & Hb & Hx). apply list_elem_of_fmap in Hx as (f & -> & Hf).
      apply list_elem_of_In, filter_In in Hf as [Hf Hy]. apply list_elem_of_In in Hf.
      apply loadedBlock_elem, loadBlockFromFile_success in Hb.
      exists f. split; [done|]. split; [by exists files|]. by split.
    + intros (f & _ & (files' & [= <-] & Hf) & Hy & Hload).
      eexists. split; [|apply list_elem_of_fmap; exists f; split; [reflexivity|]].
      * by apply loadedBlock_elem, loadBlockFromFile_success.
      * apply list_elem_of_In, filter_In. by rewrite <- list_elem_of_In.
  - intros [= <-]. split; [by intros ?%not_elem_of_nil|].
    by intros (f & ? & _).
Qed.

Lemma mapSet_keeps_keys k b M k' : k' ∈ M.*1 → k' ∈ (mapSet k b M).*1.
Proof.
  rewrite mapSet_keys. case_decide; [done|]. intros ?. apply elem_of_app. by left.
Qed.

Lemma mapSet_has_key k b M : k ∈ (mapSet k b M).*1.
Proof.
  rewrite mapSet_keys. case_decide; [done|]. apply elem_of_app. right. by left.
Qed.

Lemma merge_keeps_keys (bs : list PromptBlock.t) M k :
  k ∈ M.*1 → k ∈ (foldl (λ m b, mapSet (PromptBlock.name b) b m) M bs).*1.
Proof.
  revert M. induction bs as [|b bs IH]; intros M Hk; [done|].
  cbn [foldl]. by apply IH, mapSet_keeps_keys.
Qed.

Lemma merge_has_names (bs : list PromptBlock.t) M b :
  b ∈ bs → PromptBlock.name b ∈ (foldl (λ m b, mapSet (PromptBlock.name b) b m) M bs).*1.
Proof.
  revert M. induction bs as [|b' bs IH]; intros M Hb; [by apply not_elem_of_nil in Hb|].
  cbn [foldl]. apply elem_of_cons in Hb as [->|Hb]; [|by apply IH].
  apply merge_keeps_keys, mapSet_has_key.
Qed.

Lemma mergeSource_keeps_keys this M sp k : k ∈ M.*1 → k ∈ (mergeSource this M sp).*1.
Proof.
  unfold mergeSource.
  destruct (loadBlocksFromDirectory this (path sp) (pathSource sp)); [|done].
  apply merge_keeps_keys.
Qed.

Lemma mergeSources_keeps_keys this (sps : list SearchPath) M k :
  k ∈ M.*1 → k ∈ (foldl (mergeSource this) M sps).*1.
Proof.
  revert M. induction sps as [|sp sps IH]; intros M Hk; [done|].
  cbn [foldl]. by apply IH, mergeSource_keeps_keys.
Qed.

(** Every name a source yields is a key of the merged map. *)
Lemma mergeSources_has_names this (sps : list SearchPath) M sp bs b :
  sp ∈ sps →
  loadBlocksFromDirectory this (path sp) (pathSource sp) = Fulfilled bs →
  b ∈ bs →
  PromptBlock.name b ∈ (foldl (mergeSource this) M sps).*1.
Proof.
  revert M. induction sps as [|sp' sps IH]; intros M Hsp Hscan Hb;
    [by apply not_elem_of_nil in Hsp|].
  cbn [foldl]. apply elem_of_cons in Hsp as [<-|Hsp]; [|by apply IH].
  apply mergeSources_keeps_keys. unfold mergeSource. rewrite Hscan.
  by apply merge_has_names.
Qed.

(** Every block of the merged map was in the map or comes from a scan. *)
Lemma mergeSources_origin this (sps : list SearchPath) M k b :
  keyed M →
  (k, b) ∈ foldl (mergeSource this) M sps →
  (k, b) ∈ M ∨
  ∃ sp bs, sp ∈ sps ∧
           loadBlocksFromDirectory this (path sp) (pathSource sp) = Fulfilled bs ∧
           b ∈ bs.
Proof.
  revert M. induction sps as [|sp sps IH]; intros M HM Hin; [by left|].
  cbn [foldl] in Hin. apply IH in Hin as [Hin|(sp' & bs & Hsp & Hscan & Hb)];
    [|right; exists sp', bs; split; [by right|done]|by apply mergeSource_keyed].
  unfold mergeSource in Hin.
  destruct (loadBlocksFromDirectory this (path sp) (pathSource sp)) as [bs|m] eqn:Hscan;
    [|by left].
  apply merge_origin in Hin as [Hb|Hin]; [|by left|done].
  right. exists sp, bs. split; [by left|done].
Qed.

Lemma keyed_names M : keyed M → PromptBlock.name <$> M.*2 = M.*1.
Proof.
  intros [_ Hk]. induction Hk as [|[k b] M Hb Hk IH]; [done|].
  cbn in *. by rewrite Hb, IH.
Qed.

Lemma keyed_nil : keyed [].
Proof. split; [constructor|constructor]. Qed.

(** X11.  [loadAll] returns one block for every name that a source
    yields.  No two of the blocks it returns have the same name; and when
    a YAML file of the directory of any search path is read, parsed and
    accepted by [PromptBlock.create], a block of the name of the created
    block is returned, whatever the other files and the other search paths
    give, be it unreadable directories or files that do not parse. *)
Theorem loadAll_one_block_per_name this :
  NoDup (PromptBlock.name <$> loadAll this) ∧
  ∀ sp filename b,
    sp ∈ getSearchPaths this →
    fileYields this sp filename b →
    ∃ b', b' ∈ loadAll this ∧ PromptBlock.name b' = PromptBlock.name b.
Proof.
  unfold loadAll.
  pose proof (mergeSources_keyed this (reverse (getSearchPaths this)) [] keyed_nil) as HM.
  split.
  - rewrite (keyed_names _ HM). apply HM.
  - intros sp filename b Hsp Hy.
    assert (∃ bs, loadBlocksFromDirectory this (path sp) (pathSource sp) = Fulfilled bs)
      as [bs Hscan].
    { destruct Hy as (Hd & (files & Hr & _) & _). unfold loadBlocksFromDirectory.
      rewrite Hd, Hr. by eexists. }
    assert (b ∈ bs) as Hb.
    { apply (loadBlocksFromDirectory_elem _ _ _ _ Hscan). by exists filename. }
    pose proof (mergeSources_has_names this (reverse (getSearchPaths this)) [] sp bs b) as Hk.
    rewrite elem_of_reverse in Hk. specialize (Hk Hsp Hscan Hb).
    apply list_elem_of_fmap in Hk as ([k b'] & Hname & Hin). cbn in Hname. subst k.
    exists b'. split.
    + apply list_elem_of_fmap. by exists (PromptBlock.name b, b').
    + destruct HM as [_ HM]. rewrite Forall_forall in HM. apply (HM _ Hin).
Qed.

(** X12.  [loadAll] returns nothing but blocks of files.  Each block it
    returns is the block that [PromptBlock.create] has made of the data
    the parser returned for a YAML file in the listing of the directory of
    a search path, for data of the declared type [PromptBlockData]: no
    block comes from the memo of [loadByName] or from a file that is not
    listed. *)
Theorem loadAll_blocks_come_from_files this b :
  b ∈ loadAll this →
  ∃ sp filename, sp ∈ getSearchPaths this ∧ fileYields this sp filename b.
Proof.
  unfold loadAll. intros Hb.
  apply list_elem_of_fmap in Hb as ([k b'] & -> & Hin). cbn [snd].
  apply mergeSources_origin in Hin as [Hin|(sp & bs & Hsp & Hscan & Hb)];
    [by apply not_elem_of_nil in Hin| |apply keyed_nil].
  rewrite elem_of_reverse in Hsp.
  apply (loadBlocksFromDirectory_elem _ _ _ _ Hscan) in Hb as [filename Hy].
  by exists sp, filename.
Qed.

Lemma loadAll_blocks_come_from_files_witness :
  ∃ sp filename, sp ∈ getSearchPaths collisionRepository ∧
                 fileYields collisionRepository sp filename (blockX "Workspace version.").
Proof.
  apply (loadAll_blocks_come_from_files collisionRepository).
  vm_compute. left.
Defined.

Lemma matchesNameFormat_foreign_char name (c : N) :
  c ∈ name → PromptBlock.isNameChar c = false → PromptBlock.matchesNameFormat name = false.
Proof.
  intros Hc Hn. unfold PromptBlock.matchesNameFormat.
  apply andb_false_iff. right. apply not_true_is_false. intros H.
  apply forallb_Forall in H. rewrite Forall_forall in H. specialize (H c Hc).
  by rewrite Hn in H.
Qed.

(** X13.  A name with a code unit outside letters, digits, underscore and
    hyphen, such as a dot or a path separator, is answered without a look
    at the file system or at the memo: [loadByName] returns the same
    failure in every environment and leaves the repository as it is, and
    [exists] is false. *)
Theorem loadByName_rejects_malformed_name this name (c : N) (now later : Z) :
  c ∈ name → PromptBlock.isNameChar c = false →
  loadByName this name now later = (invalidName, this) ∧
  exists_ this name now later = (false, this).
Proof.
  intros Hc Hn. pose proof (matchesNameFormat_foreign_char _ _ Hc Hn) as Hf.
  unfold exists_, loadByName. by rewrite Hf.
Qed.

Lemma loadByName_rejects_malformed_name_witness :
  loadByName collisionRepository (js "../x") 0 1 = (invalidName, collisionRepository) ∧
  exists_ collisionRepository (js "../x") 0 1 = (false, collisionRepository).
Proof.
  apply (loadByName_rejects_malformed_name collisionRepository (js "../x") 47).
  - vm_compute. right. right. left.
  - reflexivity.
Defined.

Lemma cacheResult_loadBlockFromFile this key file src (later : Z) :
  let r := loadBlockFromFile this file src in
  (success r = true ∧
   ∃ b, block r = Some b ∧
        cacheResult this key r file later = cacheBlock this key b file later) ∨
  (success r = false ∧ cacheResult this key r file later = this).
Proof.
  unfold loadBlockFromFile, cacheResult.
  destruct (readFile (host this) file) as [content|m]; [|by right].
  destruct (parseFromContent (host this) content file) as [data|m]; [|by right].
  destruct (PromptBlock.create data) as [b|e]; [|by right].
  left. split; [done|]. by exists b.
Qed.

(** The state after the search loop: the memo has taken the block of a
    successful load under the key and is otherwise as it was. *)
Lemma searchByName_state this name key (later : Z) (sps : list SearchPath) :
  let r := (searchByName this name key later sps).1 in
  let this' := (searchByName this name key later sps).2 in
  (success r = true ∧
   ∃ b file, block r = Some b ∧ this' = cacheBlock this key b file later) ∨
  (success r = false ∧ this' = this).
Proof.
  induction sps as [|sp sps IH]; [by right|].
  cbn [searchByName].
  destruct (fileExistsAtPath _ (pathJoin _ _ (name ++ js ".yaml"))); cbn [negb].
  - destruct (cacheResult_loadBlockFromFile this key
                (pathJoin (host this) (path sp) (name ++ js ".yaml"))
                (pathSource sp) later) as [(Hs & b & Hb & Hc)|[Hs Hc]].
    + left. split; [done|]. by exists b, (pathJoin (host this) (path sp) (name ++ js ".yaml")).
    + by right.
  - destruct (fileExistsAtPath _ (pathJoin _ _ (name ++ js ".yml"))); cbn [negb]; [|done].
    destruct (cacheResult_loadBlockFromFile this key
                (pathJoin (host this) (path sp) (name ++ js ".yml"))
                (pathSource sp) later) as [(Hs & b & Hb & Hc)|[Hs Hc]].
    + left. split; [done|]. by exists b, (pathJoin (host this) (path sp) (name ++ js ".yml")).
    + by right.
Qed.

(** The answer of the search loop does not depend on the memo. *)
Lemma searchByName_result_any_cache this (c : gmap jsstring CachedBlock) name key
    (later : Z) (sps : list SearchPath) :
  (searchByName (withCache this c) name key later sps).1
  = (searchByName this name key later sps).1.
Proof.
  induction sps as [|sp sps IH]; [done|].
  cbn [searchByName host withCache].
  destruct (fileExistsAtPath _ (pathJoin _ _ (name ++ js ".yaml"))); cbn [negb]; [done|].
  by destruct (fileExistsAtPath _ (pathJoin _ _ (name ++ js ".yml"))).
Qed.

(** X14.  The memo after a lookup.  A lookup of a well-formed name leaves
    the memo of every other name as it was; after it the memo holds an
    entry for the name exactly when the lookup has succeeded, and the entry
    holds the block that was returned: a failed lookup is not memoized and
    removes what the memo held for the name. *)
Theorem loadByName_memo_after_lookup this name (now later : Z) :
  PromptBlock.matchesNameFormat name = true →
  let r := (loadByName this name now later).1 in
  let this' := (loadByName this name now later).2 in
  (∀ k, k ≠ js "name:" ++ name → cache this' !! k = cache this !! k) ∧
  (success r = false → cache this' !! (js "name:" ++ name) = None) ∧
  (success r = true →
   ∃ e, cache this' !! (js "name:" ++ name) = Some e ∧ block r = Some (cachedBlock e)).
Proof.
  intros Hf. unfold loadByName. rewrite Hf. cbn [negb].
  generalize (js "name:" ++ name). intros key.
  assert (∀ this0 : t,
    cache this0 = delete key (cache this) →
    let r := (searchByName this0 name key later (getSearchPaths this0)).1 in
    let this' := (searchByName this0 name key later (getSearchPaths this0)).2 in
    (∀ k, k ≠ key → cache this' !! k = cache this !! k) ∧
    (success r = false → cache this' !! key = None) ∧
    (success r = true → ∃ e, cache this' !! key = Some e ∧ block r = Some (cachedBlock e)))
    as Hsearch.
  { intros this0 H0.
    destruct (searchByName_state this0 name key later (getSearchPaths this0))
      as [(Hs & b & file & Hb & Hst)|[Hs Hst]]; cbn zeta; rewrite Hs, Hst.
    - unfold cacheBlock. cbn [cache withCache]. rewrite H0.
      split; [|split; [done|]].
      + intros k Hk. by rewrite lookup_insert_ne, lookup_delete_ne.
      + intros _. exists (mkCachedBlock b later file).
        rewrite lookup_insert, decide_True by done. by split.
    - rewrite H0. split; [|split; [|done]].
      + intros k Hk. by rewrite lookup_delete_ne.
      + intros _. by rewrite lookup_delete, decide_True. }
  unfold getCachedBlock.
  destruct (cache this !! key) as [cached|] eqn:Hc.
  - destruct (now - timestamp cached <? cacheTimeout)%Z.
    + cbn [fst snd success block]. split; [done|]. split; [done|].
      intros _. by exists cached.
    + by apply Hsearch.
  - by apply Hsearch.
Qed.

Lemma loadByName_memo_after_lookup_witness :
  let r := (loadByName collisionRepository (js "x") 0 1).1 in
  let this' := (loadByName collisionRepository (js "x") 0 1).2 in
  (∀ k, k ≠ js "name:" ++ js "x" → cache this' !! k = cache collisionRepository !! k) ∧
  (success r = false → cache this' !! (js "name:" ++ js "x") = None) ∧
  (success r = true →
   ∃ e, cache this' !! (js "name:" ++ js "x") = Some e ∧ block r = Some (cachedBlock e)).
Proof.
  apply (loadByName_memo_after_lookup collisionRepository (js "x") 0 1). reflexivity.
Defined.

Lemma getSearchPaths_any_cache this (c : gmap jsstring CachedBlock) :
  getSearchPaths (withCache this c) = getSearchPaths this.
Proof. done. Qed.

(** X15.  The time to live of the memo.  After a successful lookup that
    was not answered from the memo, a lookup of the same name less than
    five minutes after the block was memoized returns that block without a
    look at the file system: the answer is the same in every environment,
    also one where the file has changed or is gone.  From five minutes on
    the entry is not used: the answer is the one of a repository with an
    empty memo. *)
Theorem loadByName_memo_time_to_live this name (now later : Z)
    (h : Host) (now2 later2 : Z) :
  PromptBlock.matchesNameFormat name = true →
  (getCachedBlock this (js "name:" ++ name) now).1 = None →
  success (loadByName this name now later).1 = true →
  let this1 := withHost (loadByName this name now later).2 h in
  ((now2 - later < cacheTimeout)%Z →
   success (loadByName this1 name now2 later2).1 = true ∧
   block (loadByName this1 name now2 later2).1 = block (loadByName this name now later).1 ∧
   (loadByName this1 name now2 later2).2 = this1) ∧
  ((cacheTimeout ≤ now2 - later)%Z →
   (loadByName this1 name now2 later2).1
   = (loadByName (clearCache this1) name now2 later2).1).
Proof.
  intros Hf Hmiss Hs. unfold loadByName in *. rewrite Hf in *. cbn [negb] in *.
  revert Hmiss Hs. generalize (js "name:" ++ name). intros key Hmiss Hs.
  rewrite (getCachedBlock_miss _ _ _ Hmiss) in *.
  set (this0 := withCache this (delete key (cache this))) in *.
  destruct (searchByName_state this0 name key later (getSearchPaths this0))
    as [(_ & b & file & Hb & Hst)|[Hs' _]]; [|by rewrite Hs in Hs'].
  rewrite Hst, Hb. cbn zeta.
  set (this1 := withHost (cacheBlock this0 key b file later) h).
  assert (cache this1 !! key = Some (mkCachedBlock b later file)) as Hk.
  { unfold this1, withHost, cacheBlock. cbn [cache withCache].
    by rewrite lookup_insert, decide_True. }
  split.
  - intros Hlt. unfold getCachedBlock. rewrite Hk. cbn [timestamp].
    apply Z.ltb_lt in Hlt. rewrite Hlt. done.
  - intros Hge. unfold getCachedBlock. rewrite Hk. cbn [timestamp].
    apply Z.ltb_ge in Hge. rewrite Hge.
    unfold clearCache. cbn [cache withCache]. rewrite lookup_empty.
    rewrite !getSearchPaths_any_cache, !searchByName_result_any_cache. done.
Qed.

Lemma loadByName_memo_time_to_live_witness :
  let this1 := withHost (loadByName collisionRepository (js "x") 0 1).2 globalHost in
  ((299999 - 1 < cacheTimeout)%Z →
   success (loadByName this1 (js "x") 299999 300000).1 = true ∧
   block (loadByName this1 (js "x") 299999 300000).1
   = block (loadByName collisionRepository (js "x") 0 1).1 ∧
   (loadByName this1 (js "x") 299999 300000).2 = this1) ∧
  ((cacheTimeout ≤ 299999 - 1)%Z →
   (loadByName this1 (js "x") 299999 300000).1
   = (loadByName (clearCache this1) (js "x") 299999 300000).1).
Proof.
  apply (loadByName_memo_time_to_live collisionRepository (js "x") 0 1 globalHost
           299999 300000); reflexivity.
Defined.

(** *** The order of [sort()] *)

Lemma stringLess_irrefl (a : jsstring) : stringLess a a = false.
Proof.
  induction a as [|x a IH]; [done|]. cbn [stringLess].
  by rewrite N.ltb_irrefl, N.eqb_refl, IH.
Qed.

Lemma stringLess_trans (a b c : jsstring) :
  stringLess a b = true → stringLess b c = true → stringLess a c = true.
Proof.
  revert b c. induction a as [|x a IH]; intros [|y b] [|z c]; cbn [stringLess]; try done.
  rewrite !orb_true_iff, !andb_true_iff, !N.ltb_lt, !N.eqb_eq.
  intros [Hxy|[-> Hab]] [Hyz|[-> Hbc]].
  - left. lia.
  - by left.
  - by left.
  - right. split; [done|]. by eapply IH.
Qed.

Lemma stringLess_total (a b : jsstring) :
  stringLess a b = true ∨ a = b ∨ stringLess b a = true.
Proof.
  revert b. induction a as [|x a IH]; intros [|y b]; cbn [stringLess].
  - right. by left.
  - by left.
  - right. by right.
  - rewrite !orb_true_iff, !andb_true_iff, !N.ltb_lt, !N.eqb_eq.
    destruct (N.lt_trichotomy x y) as [?|[->|?]].
    + left. by left.
    + destruct (IH b) as [?|[->|?]].
      * left. by right.
      * right. by left.
      * right. right. by right.
    + right. right. by left.
Qed.

Lemma stringLess_asym (a b : jsstring) :
  stringLess a b = true → stringLess b a = false.
Proof.
  intros Hab. apply not_true_is_false. intros Hba.
  pose proof (stringLess_trans _ _ _ Hab Hba) as H. by rewrite stringLess_irrefl in H.
Qed.

Lemma notLess_trans (a b c : jsstring) :
  stringLess b a = false → stringLess c b = false → stringLess c a = false.
Proof.
  intros Hab Hbc. apply not_true_is_false. intros Hca.
  destruct (stringLess_total a b) as [H|[->|H]].
  - pose proof (stringLess_trans _ _ _ Hca H) as H'. by rewrite Hbc in H'.
  - by rewrite Hbc in Hca.
  - by rewrite Hab in H.
Qed.

Lemma insertString_perm (x : jsstring) (l : list jsstring) : insertString x l ≡ₚ x :: l.
Proof.
  induction l as [|y l IH]; [done|]. cbn [insertString].
  destruct (stringLess y x); [|done]. by rewrite IH, Permutation_swap.
Qed.

Lemma sortStrings_perm (l : list jsstring) : sortStrings l ≡ₚ l.
Proof.
  induction l as [|x l IH]; [done|]. unfold sortStrings in *. cbn [foldr].
  by rewrite insertString_perm, IH.
Qed.

Lemma insertString_sorted (x : jsstring) (l : list jsstring) :
  StronglySorted (λ u v, stringLess v u = false) l →
  StronglySorted (λ u v, stringLess v u = false) (insertString x l).
Proof.
  induction 1 as [|y l Hl IH Hy]; [repeat constructor|].
  cbn [insertString]. destruct (stringLess y x) eqn:Hyx.
  - constructor; [done|]. rewrite insertString_perm. constructor; [|done].
    by apply stringLess_asym.
  - constructor; [by constructor|]. constructor; [done|].
    eapply Forall_impl; [exact Hy|]. intros z Hz. by eapply notLess_trans.
Qed.

Lemma sortStrings_sorted (l : list jsstring) :
  StronglySorted (λ u v, stringLess v u = false) (sortStrings l).
Proof.
  induction l as [|x l IH]; [constructor|]. by apply insertString_sorted.
Qed.

(** A sorted array without duplicates is strictly ascending. *)
Lemma sorted_NoDup_strict (l : list jsstring) :
  NoDup l →
  StronglySorted (λ u v, stringLess v u = false) l →
  StronglySorted (λ u v, stringLess u v = true) l.
Proof.
  intros Hnd. induction 1 as [|x l Hl IH Hx]; [constructor|].
  apply NoDup_cons in Hnd as [Hxl Hnd]. constructor; [by apply IH|].
  rewrite Forall_forall in Hx |- *. intros y Hy.
  destruct (stringLess_total x y) as [H|[->|H]]; [done|done|].
  by rewrite (Hx y Hy) in H.
Qed.

(** *** The names of the files *)

Lemma setAdd_NoDup (x : jsstring) (s : list jsstring) : NoDup s → NoDup (setAdd x s).
Proof.
  unfold setAdd. case_decide; [done|]. intros Hs. apply NoDup_app.
  split; [done|]. split; [|apply NoDup_singleton].
  by intros y Hy ->%list_elem_of_singleton.
Qed.

Lemma setAdd_elem (x y : jsstring) (s : list jsstring) : y ∈ setAdd x s ↔ y = x ∨ y ∈ s.
Proof.
  unfold setAdd. case_decide.
  - split; [by right|]. by intros [->|?].
  - rewrite elem_of_app, list_elem_of_singleton. tauto.
Qed.

Lemma addNames_spec (stem : jsstring → jsstring) (names files : list jsstring) :
  NoDup names →
  NoDup (addNames stem names files) ∧
  ∀ n, n ∈ addNames stem names files ↔
       n ∈ names ∨ ∃ file, file ∈ files ∧ isYamlFile file = true ∧ stem file = n.
Proof.
  unfold addNames. revert names.
  induction files as [|f files IH]; intros names Hnd.
  - split; [done|]. intros n. split; [by left|].
    intros [?|(file & ?%not_elem_of_nil & _)]; done.
  - cbn [foldl]. destruct (isYamlFile f) eqn:Hf.
    + destruct (IH (setAdd (stem f) names)) as [IH1 IH2]; [by apply setAdd_NoDup|].
      split; [done|]. intros n. rewrite IH2, setAdd_elem. split.
      * intros [[->|?]|(file & Hin & Hy & Hs)].
        -- right. exists f. split; [left|done].
        -- by left.
        -- right. exists file. split; [by right|done].
      * intros [?|(file & [->|Hin]%elem_of_cons & Hy & Hs)].
        -- left. by right.
        -- left. by left.
        -- right. by exists file.
    + destruct (IH names Hnd) as [IH1 IH2]. split; [done|].
      intros n. rewrite IH2. split.
      * intros [?|(file & Hin & Hy & Hs)]; [by left|].
        right. exists file. split; [by right|done].
      * intros [?|(file & [->|Hin]%elem_of_cons & Hy & Hs)]; [by left| |].
        -- by rewrite Hf in Hy.
        -- right. by exists file.
Qed.

(** A file of a listing that counts for [getAvailableNames]. *)
Lemma scanNames_spec this (stem : jsstring → jsstring) (names : list jsstring)
    (sps : list SearchPath) :
  NoDup names →
  NoDup (foldl (scanNames this stem) names sps) ∧
  ∀ n, n ∈ foldl (scanNames this stem) names sps ↔
       n ∈ names ∨
       ∃ sp files file,
         sp ∈ sps ∧ isDirectory (host this) (path sp) = true ∧
         readdir (host this) (path sp) = Fulfilled files ∧
         file ∈ files ∧ isYamlFile file = true ∧ stem file = n.
Proof.
  revert names. induction sps as [|sp sps IH]; intros names Hnd.
  - split; [done|]. intros n. split; [by left|].
    intros [?|(sp & ? & ? & ?%not_elem_of_nil & _)]; done.
  - cbn [foldl].
    assert (NoDup (scanNames this stem names sp) ∧
            ∀ n, n ∈ scanNames this stem names sp ↔
                 n ∈ names ∨
                 ∃ files file,
                   isDirectory (host this) (path sp) = true ∧
                   readdir (host this) (path sp) = Fulfilled files ∧
                   file ∈ files ∧ isYamlFile file = true ∧ stem file = n) as [H1 H2].
    { unfold scanNames. destruct (isDirectory (host this) (path sp)); cbn [negb].
      - destruct (readdir (host this) (path sp)) as [files|m].
        + destruct (addNames_spec stem names files Hnd) as [Ha Hb]. split; [done|].
          intros n. rewrite Hb. split.
          * intros [?|(file & ? & ? & ?)]; [by left|]. right. by exists files, file.
          * intros [?|(files' & file & _ & [= <-] & ? & ? & ?)]; [by left|].
            right. by exists file.
        + split; [done|]. intros n. split; [by left|].
          by intros [?|(files' & file & _ & ? & _)].
      - split; [done|]. intros n. split; [by left|].
        by intros [?|(files' & file & ? & _)]. }
    destruct (IH _ H1) as [IH1 IH2]. split; [done|]. intros n. rewrite IH2, H2. split.
    + intros [[?|(files & file & ? & ? & ? & ? & ?)]|(sp' & files & file & ? & ?)].
      * by left.
      * right. exists sp, files, file. split; [left|done].
      * right. exists sp', files, file. split; [by right|done].
    + intros [?|(sp' & files & file & [->|?]%elem_of_cons & ?)].
      * left. by left.
      * left. right. by exists files, file.
      * right. by exists sp', files, file.
Qed.

(** X16.  [getAvailableNames] returns, in strictly ascending order of
    their code units and so without repetition, the names of the YAML
    files in the listings of the search paths that are directories and can
    be read; a path that is not a directory or cannot be read adds
    nothing, and no file is opened. *)
Theorem getAvailableNames_sorted_names_of_files this (stem : jsstring → jsstring) :
  StronglySorted (λ u v, stringLess u v = true) (getAvailableNames this stem) ∧
  ∀ n, n ∈ getAvailableNames this stem ↔
       ∃ sp files file,
         sp ∈ getSearchPaths this ∧ isDirectory (host this) (path sp) = true ∧
         readdir (host this) (path sp) = Fulfilled files ∧
         file ∈ files ∧ isYamlFile file = true ∧ stem file = n.
Proof.
  unfold getAvailableNames.
  destruct (scanNames_spec this stem [] (getSearchPaths this)) as [Hnd Hel];
    [constructor|].
  split.
  - apply sorted_NoDup_strict; [by rewrite sortStrings_perm|apply sortStrings_sorted].
  - intros n. rewrite sortStrings_perm, Hel. split; [|by right].
    by intros [?%not_elem_of_nil|?].
Qed.

End RepositoryExtra.

(** The names of a workspace with two YAML files and a text file, and of
    defaults with two YAML files, one of the same name. *)
Example getAvailableNames_sample :
  FileSystemPromptBlockRepository.getAvailableNames disabledWorkspaceRepository
    dropExtension
  = [js "chart"; js "draft"; js "x"].
Proof. vm_compute. reflexivity. Qed.

(** ** The load use case: versions, enabled blocks, time to live, counts *)

Section LoadExtra.
Import LoadPromptBlocks.
Context {R : Type} `{!IPromptBlockRepository R}.

Implicit Types (this : t R) (key : jsstring) (now later : Z).

Lemma currentVersions_getCachedBlocks this key now :
  currentVersions this → currentVersions (getCachedBlocks key now this).2.
Proof.
  intros Hinv. destruct (getCachedBlocks key now this).1 as [e|] eqn:He.
  - by rewrite (getCachedBlocks_hit_state _ _ _ _ He).
  - rewrite (getCachedBlocks_miss_state _ _ _ He).
    intros k e Hk. cbn [cache withCache] in Hk.
    apply lookup_delete_Some in Hk as [_ Hk]. by apply (Hinv k).
Qed.

Lemma currentVersions_resume this key loaded start later :
  currentVersions this → currentVersions (resume key loaded start later this).2.
Proof.
  intros Hinv k e. unfold resume, cacheBlocks, newArray, withCache.
  cbn [fst snd cache cacheVersion]. rewrite lookup_insert. case_decide.
  - by intros [= <-].
  - apply Hinv.
Qed.

Lemma currentVersions_step this (e : Event R) :
  currentVersions this → currentVersions (step this e).
Proof.
  intros Hinv. destruct e as [now later|c now later|k loaded start later| |r|r content];
    cbn [step].
  - unfold execute.
    pose proof (currentVersions_getCachedBlocks this (js "all") now Hinv) as Hinv'.
    destruct (getCachedBlocks (js "all") now this) as [[cached|] this1];
      cbn [snd] in Hinv'; [done|].
    destruct (repositoryLoadAll (repository this1)) as [loaded repo].
    by apply currentVersions_resume.
  - unfold executeByCategory.
    pose proof (currentVersions_getCachedBlocks this
                  (js "category:" ++ categoryValue c) now Hinv) as Hinv'.
    destruct (getCachedBlocks _ now this) as [[cached|] this1];
      cbn [snd] in Hinv'; [done|].
    destruct (repositoryLoadByCategory c (repository this1)) as [loaded repo].
    by apply currentVersions_resume.
  - by apply currentVersions_resume.
  - intros k e. cbn. by rewrite lookup_empty.
  - done.
  - done.
Qed.

Lemma currentVersions_run this (events : list (Event R)) :
  currentVersions this → currentVersions (run this events).
Proof.
  revert this. induction events as [|e events IH]; intros this Hinv; [done|].
  cbn [run foldl]. by apply IH, currentVersions_step.
Qed.

(** X17.  The version test of the cache never fails.  Starting from an
    empty cache, whatever calls, completions of pending loads,
    invalidations, changes of the repository and writes of callers happen,
    every entry of the cache carries the current version: an entry is put
    in the cache with the version of the moment it is stored, and the
    version changes only when the cache is emptied.  So an entry is served
    exactly while it is younger than the time to live; in particular the
    result of a load that was pending during an invalidation is cached as
    current. *)
Theorem cache_entries_carry_current_version this (events : list (Event R))
    key now cached :
  cache this = ∅ →
  (cache (run this events) !! key = Some cached →
   version cached = cacheVersion (run this events)) ∧
  ((getCachedBlocks key now (run this events)).1 = Some cached ↔
   cache (run this events) !! key = Some cached ∧
   (now - timestamp cached < cacheTimeout)%Z).
Proof.
  intros Hempty.
  assert (currentVersions (run this events)) as Hinv.
  { apply currentVersions_run. intros k e. by rewrite Hempty, lookup_empty. }
  split; [apply Hinv|].
  rewrite getCachedBlocks_served. split; [by intros (? & ? & _)|].
  intros [Hk Hage]. split; [done|]. split; [done|]. by apply (Hinv key).
Qed.

Lemma filter_isEnabled (l : list PromptBlock.t) :
  Forall (λ b, PromptBlock.isEnabled b = true) (List.filter PromptBlock.isEnabled l).
Proof.
  apply Forall_forall. intros b Hb. by apply list_elem_of_In, filter_In in Hb as [_ Hb].
Qed.

Lemma contents_app_lt this (more : list (list PromptBlock.t)) (r : ref) (this' : t R) :
  arrays this' = arrays this ++ more →
  (r < length (arrays this))%nat →
  contents this' r = contents this r.
Proof.
  intros Ha Hr. unfold contents. by rewrite Ha, lookup_app_l.
Qed.

Lemma cachesEnabled_getCachedBlocks this key now :
  cachesEnabled this → cachesEnabled (getCachedBlocks key now this).2.
Proof.
  intros Hinv. destruct (getCachedBlocks key now this).1 as [e|] eqn:He.
  - by rewrite (getCachedBlocks_hit_state _ _ _ _ He).
  - rewrite (getCachedBlocks_miss_state _ _ _ He).
    intros k e Hk. cbn [cache withCache] in Hk.
    apply lookup_delete_Some in Hk as [_ Hk]. by apply (Hinv k).
Qed.

(** What [resume] returns and leaves behind: the caller's array and the
    array of the cache entry are new, and both hold the enabled blocks of
    the answer of the repository. *)
Lemma resume_spec this key loaded start later :
  let res := resume key loaded start later this in
  resultBlocks res.1 = length (arrays this) ∧
  arrays res.2 = arrays this ++ [List.filter PromptBlock.isEnabled loaded;
                                 List.filter PromptBlock.isEnabled loaded] ∧
  cache res.2 = <[key := mkCacheEntry (S (length (arrays this))) later (cacheVersion this)]>
                  (cache this) ∧
  cacheVersion res.2 = cacheVersion this ∧
  repository res.2 = repository this ∧
  contents res.2 (resultBlocks res.1) = List.filter PromptBlock.isEnabled loaded ∧
  contents res.2 (S (length (arrays this))) = List.filter PromptBlock.isEnabled loaded.
Proof.
  unfold resume, cacheBlocks, newArray, withCache, contents.
  cbn [fst snd arrays cache cacheVersion repository resultBlocks].
  rewrite !List.length_app. cbn [length].
  rewrite lookup_app_r, Nat.sub_diag by done. cbn [lookup list_lookup default from_option id].
  rewrite <- (app_assoc (arrays this) [_] [_]). cbn [app].
  replace (length (arrays this) + 1)%nat with (S (length (arrays this))) by lia.
  split; [done|]. split; [done|]. split; [done|]. split; [done|]. split; [done|].
  split.
  - by rewrite (list_lookup_middle (arrays this) _ _ (length (arrays this)) eq_refl).
  - rewrite (lookup_app_r (arrays this)) by lia.
    replace (S (length (arrays this)) - length (arrays this))%nat with 1%nat by lia.
    done.
Qed.

Lemma cachesEnabled_resume this key loaded start later :
  cachesEnabled this → cachesEnabled (resume key loaded start later this).2.
Proof.
  intros Hinv.
  destruct (resume_spec this key loaded start later)
    as (_ & Ha & Hc & _ & _ & _ & Hcopy).
  intros k e. rewrite Hc, lookup_insert. case_decide.
  - intros [= <-]. cbn [blocks]. rewrite Hcopy. split; [|apply filter_isEnabled].
    rewrite Ha, List.length_app. cbn. lia.
  - intros Hk. destruct (Hinv k e Hk) as [Hlt Hen]. split.
    + rewrite Ha, List.length_app. lia.
    + by rewrite (contents_app_lt this _ _ _ Ha Hlt).
Qed.

Lemma cachesEnabled_step this (e : Event R) :
  quiet e → cachesEnabled this → cachesEnabled (step this e).
Proof.
  intros Hq Hinv.
  destruct e as [now later|c now later|k loaded start later| |r|r content];
    cbn [step].
  - unfold execute.
    pose proof (cachesEnabled_getCachedBlocks this (js "all") now Hinv) as Hinv'.
    destruct (getCachedBlocks (js "all") now this) as [[cached|] this1];
      cbn [snd] in Hinv'; [done|].
    destruct (repositoryLoadAll (repository this1)) as [loaded repo].
    by apply cachesEnabled_resume.
  - unfold executeByCategory.
    pose proof (cachesEnabled_getCachedBlocks this
                  (js "category:" ++ categoryValue c) now Hinv) as Hinv'.
    destruct (getCachedBlocks _ now this) as [[cached|] this1];
      cbn [snd] in Hinv'; [done|].
    destruct (repositoryLoadByCategory c (repository this1)) as [loaded repo].
    by apply cachesEnabled_resume.
  - by apply cachesEnabled_resume.
  - intros k e. cbn. by rewrite lookup_empty.
  - done.
  - done.
Qed.

Lemma cachesEnabled_run this (events : list (Event R)) :
  Forall quiet events → cachesEnabled this → cachesEnabled (run this events).
Proof.
  intros Hq. revert this. induction Hq as [|e events He Hq IH]; intros this Hinv; [done|].
  cbn [run foldl]. by apply IH, cachesEnabled_step.
Qed.

(** X18.  [execute] and [executeByCategory] return enabled blocks only.
    Starting from an empty cache, and as long as no caller writes to an
    array it was handed, whatever calls, completions, invalidations and
    changes of the repository happen, the array a call returns holds
    enabled blocks only, be it served from the cache or loaded. *)
Theorem execute_returns_enabled_blocks this (events : list (Event R))
    (c : PromptCategory) now later :
  cache this = ∅ →
  Forall quiet events →
  let all := execute now later (run this events) in
  let byCategory := executeByCategory c now later (run this events) in
  Forall (λ b, PromptBlock.isEnabled b = true) (contents all.2 (resultBlocks all.1)) ∧
  Forall (λ b, PromptBlock.isEnabled b = true)
         (contents byCategory.2 (resultBlocks byCategory.1)).
Proof.
  intros Hempty Hq.
  assert (cachesEnabled (run this events)) as Hinv.
  { apply cachesEnabled_run; [done|]. intros k e. by rewrite Hempty, lookup_empty. }
  revert Hinv. generalize (run this events). clear. intros this Hinv.
  assert (∀ key (load : R → list PromptBlock.t * R),
    let res :=
      match getCachedBlocks key now this with
      | (Some cached, this1) => (hit cached now later this1, this1)
      | (None, this1) =>
          let (loaded, repo) := load (repository this1) in
          resume key loaded now later (withRepository this1 repo)
      end in
    Forall (λ b, PromptBlock.isEnabled b = true) (contents res.2 (resultBlocks res.1)))
    as Hcall.
  { intros key load.
    destruct (getCachedBlocks key now this) as [[cached|] this1] eqn:Hg.
    - assert ((getCachedBlocks key now this).1 = Some cached) as Hc by by rewrite Hg.
      pose proof (getCachedBlocks_hit_state _ _ _ _ Hc) as Hst. rewrite Hg in Hst.
      cbn [snd] in Hst. subst this1.
      apply getCachedBlocks_served in Hc as [Hc _]. cbn. by apply (Hinv key).
    - destruct (load (repository this1)) as [loaded repo]. cbn zeta.
      destruct (resume_spec (withRepository this1 repo) key loaded now later)
        as (_ & _ & _ & _ & _ & -> & _).
      apply filter_isEnabled. }
  split.
  - apply (Hcall (js "all") repositoryLoadAll).
  - apply (Hcall (js "category:" ++ categoryValue c) (repositoryLoadByCategory c)).
Qed.

Lemma execute_on_miss this now later :
  (getCachedBlocks (js "all") now this).1 = None →
  execute now later this
  = resume (js "all") (repositoryLoadAll (repository this)).1 now later
      (withRepository (withCache this (delete (js "all") (cache this)))
                      (repositoryLoadAll (repository this)).2).
Proof.
  intros Hmiss. unfold execute.
  pose proof (getCachedBlocks_miss_state _ _ _ Hmiss) as Hst.
  destruct (getCachedBlocks (js "all") now this) as [o this1]. cbn [fst snd] in *.
  subst o this1. cbn [repository withCache].
  by destruct (repositoryLoadAll (repository this)).
Qed.

Lemma execute_on_hit this now later cached :
  (getCachedBlocks (js "all") now this).1 = Some cached →
  execute now later this = (hit cached now later this, this).
Proof.
  intros Hhit. unfold execute.
  pose proof (getCachedBlocks_hit_state _ _ _ _ Hhit) as Hst.
  destruct (getCachedBlocks (js "all") now this) as [o this1]. cbn [fst snd] in *.
  by subst o this1.
Qed.

(** X19.  The time to live of the load cache.  After a load, a call of
    [execute] less than five minutes after the blocks were stored is
    answered from the cache with the enabled blocks of that load: the
    repository is not asked, so that a change of the files in between is
    not seen.  From five minutes on the repository is asked again and the
    call returns the enabled blocks it holds then. *)
Theorem execute_serves_cache_until_expiry this now later (changed : R) now2 later2 :
  (getCachedBlocks (js "all") now this).1 = None →
  let first := execute now later this in
  let second := execute now2 later2 (withRepository first.2 changed) in
  ((now2 - later < cacheTimeout)%Z →
   fromCache second.1 = true ∧
   contents second.2 (resultBlocks second.1)
   = List.filter PromptBlock.isEnabled (repositoryLoadAll (repository this)).1 ∧
   repository second.2 = changed) ∧
  ((cacheTimeout ≤ now2 - later)%Z →
   fromCache second.1 = false ∧
   contents second.2 (resultBlocks second.1)
   = List.filter PromptBlock.isEnabled (repositoryLoadAll changed).1).
Proof.
  intros Hmiss. cbn zeta. rewrite (execute_on_miss this now later Hmiss).
  set (loaded := (repositoryLoadAll (repository this)).1).
  set (this1 := withRepository (withCache this (delete (js "all") (cache this)))
                               (repositoryLoadAll (repository this)).2).
  destruct (resume_spec this1 (js "all") loaded now later)
    as (_ & Ha & Hc & Hv & _ & _ & Hcopy).
  set (this2 := withRepository (resume (js "all") loaded now later this1).2 changed).
  set (entry := mkCacheEntry (S (length (arrays this))) later (cacheVersion this)).
  assert (cache this2 !! js "all" = Some entry) as Hk.
  { unfold this2. cbn [cache withRepository]. rewrite Hc.
    by rewrite lookup_insert, decide_True. }
  assert (cacheVersion this2 = cacheVersion this) as Hv2 by exact Hv.
  split.
  - intros Hlt.
    assert ((getCachedBlocks (js "all") now2 this2).1 = Some entry) as Hhit.
    { apply getCachedBlocks_served. split; [done|]. split; [done|]. by rewrite Hv2. }
    rewrite (execute_on_hit this2 now2 later2 entry Hhit).
    cbn [fst snd hit resultBlocks blocks fromCache entry].
    split; [done|]. split; [exact Hcopy|done].
  - intros Hge.
    assert ((getCachedBlocks (js "all") now2 this2).1 = None) as Hmiss2.
    { destruct (getCachedBlocks (js "all") now2 this2).1 as [e|] eqn:He; [|done].
      apply getCachedBlocks_served in He as (He & Hage & _).
      rewrite Hk in He. injection He as <-. cbn [timestamp entry] in Hage. lia. }
    rewrite (execute_on_miss this2 now2 later2 Hmiss2).
    change (repository this2) with changed.
    destruct (resume_spec
                (withRepository (withCache this2 (delete (js "all") (cache this2)))
                                (repositoryLoadAll changed).2)
                (js "all") (repositoryLoadAll changed).1 now2 later2)
      as (_ & _ & _ & _ & _ & -> & _).
    done.
Qed.

(** X20.  The counts [execute] reports.  On a load, [loadedCount] is the
    number of enabled blocks the repository has returned and [errorCount]
    the number of disabled ones: it counts the blocks that were filtered
    out, not the files that failed to load.  On an answer from the cache
    [errorCount] is zero and [loadedCount] the length of the cached
    array. *)
Theorem execute_counts this now later :
  let res := execute now later this in
  match (getCachedBlocks (js "all") now this).1 with
  | None =>
      let loaded := (repositoryLoadAll (repository this)).1 in
      fromCache res.1 = false ∧
      loadedCount res.1 = Z.of_nat (length (List.filter PromptBlock.isEnabled loaded)) ∧
      errorCount res.1
      = Z.of_nat (length (List.filter (λ b, negb (PromptBlock.isEnabled b)) loaded)) ∧
      (loadedCount res.1 + errorCount res.1)%Z = Z.of_nat (length loaded)
  | Some cached =>
      fromCache res.1 = true ∧
      errorCount res.1 = 0%Z ∧
      loadedCount res.1 = Z.of_nat (length (contents this (blocks cached)))
  end.
Proof.
  cbn zeta.
  destruct (getCachedBlocks (js "all") now this).1 as [cached|] eqn:Hg.
  - by rewrite (execute_on_hit this now later cached Hg).
  - rewrite (execute_on_miss this now later Hg).
    set (loaded := (repositoryLoadAll (repository this)).1).
    set (this1 := withRepository (withCache this (delete (js "all") (cache this)))
                                 (repositoryLoadAll (repository this)).2).
    pose proof (resume_spec this1 (js "all") loaded now later) as Hspec.
    cbn zeta in Hspec. destruct Hspec as (_ & _ & _ & _ & _ & Hres & _).
    assert (loadedCount (resume (js "all") loaded now later this1).1
            = Z.of_nat (length (List.filter PromptBlock.isEnabled loaded))) as Hl.
    { rewrite <- Hres. reflexivity. }
    assert (errorCount (resume (js "all") loaded now later this1).1
            = (Z.of_nat (length loaded)
               - Z.of_nat (length (List.filter PromptBlock.isEnabled loaded)))%Z) as He.
    { rewrite <- Hres. reflexivity. }
    assert (length loaded
            = (length (List.filter PromptBlock.isEnabled loaded)
               + length (List.filter (λ b, negb (PromptBlock.isEnabled b)) loaded))%nat)
      as Hsplit.
    { clear. induction loaded as [|b l IH]; [done|]. cbn.
      destruct (PromptBlock.isEnabled b); cbn; lia. }
    split; [done|]. rewrite Hl, He. split; [done|]. split; lia.
Qed.

End LoadExtra.

Lemma cache_entries_carry_current_version_witness :
  let cached := LoadPromptBlocks.mkCacheEntry 3 5 1 in
  (LoadPromptBlocks.cache (LoadPromptBlocks.run freshUseCase sampleHistory) !! js "all"
   = Some cached →
   LoadPromptBlocks.version cached
   = LoadPromptBlocks.cacheVersion (LoadPromptBlocks.run freshUseCase sampleHistory)) ∧
  ((LoadPromptBlocks.getCachedBlocks (js "all") 6
      (LoadPromptBlocks.run freshUseCase sampleHistory)).1 = Some cached ↔
   LoadPromptBlocks.cache (LoadPromptBlocks.run freshUseCase sampleHistory) !! js "all"
   = Some cached ∧
   (6 - LoadPromptBlocks.timestamp cached < LoadPromptBlocks.cacheTimeout)%Z).
Proof.
  apply (cache_entries_carry_current_version freshUseCase sampleHistory (js "all") 6).
  reflexivity.
Defined.

(** The history evaluated: the entry of the pending load is served. *)
Example sampleHistory_serves_pending_load :
  let after := LoadPromptBlocks.run freshUseCase sampleHistory in
  let res := LoadPromptBlocks.execute 6 7 after in
  LoadPromptBlocks.cacheVersion after = 1%Z ∧
  LoadPromptBlocks.cache after !! js "all" = Some (LoadPromptBlocks.mkCacheEntry 3 5 1) ∧
  LoadPromptBlocks.fromCache res.1 = true ∧
  LoadPromptBlocks.contents res.2 (LoadPromptBlocks.resultBlocks res.1)
  = [blockX "Defaults version."].
Proof. vm_compute. done. Qed.

Lemma execute_returns_enabled_blocks_witness :
  let all := LoadPromptBlocks.execute 6 7 (LoadPromptBlocks.run freshUseCase sampleHistory) in
  let byCategory :=
    LoadPromptBlocks.executeByCategory ANALYSIS 6 7
      (LoadPromptBlocks.run freshUseCase sampleHistory) in
  Forall (λ b, PromptBlock.isEnabled b = true)
         (LoadPromptBlocks.contents all.2 (LoadPromptBlocks.resultBlocks all.1)) ∧
  Forall (λ b, PromptBlock.isEnabled b = true)
         (LoadPromptBlocks.contents byCategory.2
            (LoadPromptBlocks.resultBlocks byCategory.1)).
Proof.
  apply (execute_returns_enabled_blocks freshUseCase sampleHistory ANALYSIS 6 7).
  - reflexivity.
  - repeat constructor.
Defined.

Lemma execute_serves_cache_until_expiry_witness :
  let first := LoadPromptBlocks.execute 0 1 freshUseCase in
  let second :=
    LoadPromptBlocks.execute 300000 300002
      (LoadPromptBlocks.withRepository first.2 [blockX "Defaults version."]) in
  ((300000 - 1 < LoadPromptBlocks.cacheTimeout)%Z →
   LoadPromptBlocks.fromCache second.1 = true ∧
   LoadPromptBlocks.contents second.2 (LoadPromptBlocks.resultBlocks second.1)
   = List.filter PromptBlock.isEnabled
       (repositoryLoadAll (LoadPromptBlocks.repository freshUseCase)).1 ∧
   LoadPromptBlocks.repository second.2 = [blockX "Defaults version."]) ∧
  ((LoadPromptBlocks.cacheTimeout ≤ 300000 - 1)%Z →
   LoadPromptBlocks.fromCache second.1 = false ∧
   LoadPromptBlocks.contents second.2 (LoadPromptBlocks.resultBlocks second.1)
   = List.filter PromptBlock.isEnabled
       (repositoryLoadAll [blockX "Defaults version."]).1).
Proof.
  apply (execute_serves_cache_until_expiry freshUseCase 0 1
           [blockX "Defaults version."] 300000 300002).
  reflexivity.
Defined.

Section LookupExtra.
Import FileSystemPromptBlockRepository.

(** X21.  [executeByName] over the file-system repository.  For a
    well-formed name that the memo does not answer, the first search path
    with a file for the name decides: when that file loads to a block,
    [executeByName] returns the block if it is enabled and [null] if it is
    disabled, whatever the search paths behind it hold, so that a disabled
    block in the workspace hides an enabled block of the same name in the
    defaults.  The use case does not cache the answer: its own cache, its
    version and its arrays are as before. *)
Theorem executeByName_first_file_decides (now later : Z) (stem : jsstring → jsstring)
    (this : LoadPromptBlocks.t t) (pre post : list SearchPath) (sp : SearchPath)
    (name file : jsstring) (b : PromptBlock.t) :
  let lookup := FileSystemPromptBlockRepository_lookup now later stem in
  let res := @LoadPromptBlocks.executeByName _ lookup name this in
  let repo := LoadPromptBlocks.repository this in
  PromptBlock.matchesNameFormat name = true →
  (getCachedBlock repo (js "name:" ++ name) now).1 = None →
  getSearchPaths repo = pre ++ sp :: post →
  Forall (λ q, candidateFile (host repo) (path q) name = None) pre →
  candidateFile (host repo) (path sp) name = Some file →
  loadBlockFromFile repo file (pathSource sp) = loaded b (pathSource sp) file →
  res.1 = (if PromptBlock.isEnabled b then Some b else None) ∧
  LoadPromptBlocks.cache res.2 = LoadPromptBlocks.cache this ∧
  LoadPromptBlocks.cacheVersion res.2 = LoadPromptBlocks.cacheVersion this ∧
  LoadPromptBlocks.arrays res.2 = LoadPromptBlocks.arrays this.
Proof.
  cbn zeta. intros Hf Hmiss Hpaths Hpre Hfile Hload.
  unfold LoadPromptBlocks.executeByName. cbn [repositoryLoadByName
    FileSystemPromptBlockRepository_lookup].
  assert ((loadByName (LoadPromptBlocks.repository this) name now later).1
          = loaded b (pathSource sp) file) as Hres.
  { unfold loadByName. rewrite Hf. cbn [negb].
    rewrite (getCachedBlock_miss _ _ _ Hmiss).
    rewrite getSearchPaths_any_cache, Hpaths, searchByName_result_any_cache.
    rewrite searchByName_skip by done.
    by rewrite (searchByName_head _ _ _ _ _ _ file). }
  destruct (loadByName (LoadPromptBlocks.repository this) name now later) as [r repo'].
  cbn [fst] in Hres. subst r. cbn [fst snd success block loaded].
  done.
Qed.

Lemma executeByName_first_file_decides_witness :
  let lookup := FileSystemPromptBlockRepository_lookup 0 1 dropExtension in
  let res := @LoadPromptBlocks.executeByName _ lookup (js "x")
               (useCaseOver disabledWorkspaceRepository) in
  res.1 = (if PromptBlock.isEnabled disabledBlockX then Some disabledBlockX else None) ∧
  LoadPromptBlocks.cache res.2 = LoadPromptBlocks.cache (useCaseOver disabledWorkspaceRepository) ∧
  LoadPromptBlocks.cacheVersion res.2
  = LoadPromptBlocks.cacheVersion (useCaseOver disabledWorkspaceRepository) ∧
  LoadPromptBlocks.arrays res.2 = LoadPromptBlocks.arrays (useCaseOver disabledWorkspaceRepository).
Proof.
  apply (executeByName_first_file_decides 0 1 dropExtension
           (useCaseOver disabledWorkspaceRepository) []
           [mkSearchPath (js "/ext/prompts") (js "defaults")]
           (mkSearchPath (js "/ws/prompts") (js "workspace"))
           (js "x") (js "/ws/prompts/x.yaml") disabledBlockX);
    try (vm_compute; reflexivity).
  constructor.
Defined.

End LookupExtra.

(** ** The YAML parser: cleaning and validation *)

Section ParserExtra.
Import IPromptBlockValidator YamlPromptBlockParser.

Lemma replaceProblematic_clean (c x : N) :
  x ∈ replaceProblematic c → isProblematic x = false.
Proof.
  unfold replaceProblematic. destruct (isProblematic c) eqn:Hc; cbn [negb].
  - repeat (match goal with
            | |- context [if ?b then _ else _] => destruct b
            end);
      intros Hx; try (by apply not_elem_of_nil in Hx);
      apply list_elem_of_singleton in Hx; by subst x.
  - intros Hx. apply list_elem_of_singleton in Hx. by subst x.
Qed.

Lemma replaceProblematic_id (c : N) : isProblematic c = false → replaceProblematic c = [c].
Proof. unfold replaceProblematic. by intros ->. Qed.

Lemma replace_clean_id (s : jsstring) :
  Forall (λ c, isProblematic c = false) s → concat (replaceProblematic <$> s) = s.
Proof.
  induction 1 as [|c s Hc Hs IH]; [done|].
  cbn. by rewrite (replaceProblematic_id _ Hc), IH.
Qed.

Lemma replace_clean (s : jsstring) :
  Forall (λ c, isProblematic c = false) (concat (replaceProblematic <$> s)).
Proof.
  apply Forall_forall. intros x Hx. apply elem_of_concat in Hx as (l & Hx & Hl).
  apply list_elem_of_fmap in Hl as (c & -> & _). by eapply replaceProblematic_clean.
Qed.

Lemma trim_sublist (s : jsstring) (P : N → Prop) : Forall P s → Forall P (trim s).
Proof.
  intros H. destruct (trim_spec s) as (front & back & Hs & _).
  rewrite Hs in H. by apply Forall_app in H as [_ [H _]%Forall_app].
Qed.

(** X22.  [cleanYamlContent] yields a normal form.  Its result holds none
    of the problematic characters and has no white space, and so no byte
    order mark, at either end; cleaning is idempotent, and a content that
    is already of this form is returned as it is. *)
Theorem cleanYamlContent_normal_form (content : jsstring) :
  let cleaned := cleanYamlContent content in
  Forall (λ c, isProblematic c = false) cleaned ∧
  match cleaned with [] => True | c :: _ => isWhiteSpace c = false end ∧
  match rev cleaned with [] => True | c :: _ => isWhiteSpace c = false end ∧
  cleanYamlContent cleaned = cleaned ∧
  (Forall (λ c, isProblematic c = false) content → trim content = content →
   cleaned = content).
Proof.
  cbn zeta.
  assert (∀ s, Forall (λ c, isProblematic c = false) s → trim s = s →
               cleanYamlContent s = s) as Hid.
  { intros s Hs Ht. unfold cleanYamlContent.
    assert (match s with
            | c :: rest => if c =? 65279 then rest else s
            | [] => s
            end = s) as ->.
    { destruct s as [|c rest]; [done|]. destruct (c =? 65279) eqn:Hc; [|done].
      apply N.eqb_eq in Hc. subst c. destruct (trim_no_front_ws (65279 :: rest)) as [H _].
      rewrite Ht in H. done. }
    by rewrite replace_clean_id. }
  assert (Forall (λ c, isProblematic c = false) (cleanYamlContent content)) as Hclean.
  { unfold cleanYamlContent. apply trim_sublist, replace_clean. }
  assert (trim (cleanYamlContent content) = cleanYamlContent content) as Htrim.
  { unfold cleanYamlContent. apply trim_idemp. }
  split; [done|]. split; [|split; [|split]].
  - unfold cleanYamlContent. apply trim_no_front_ws.
  - unfold cleanYamlContent. apply trim_no_front_ws.
  - by apply Hid.
  - apply Hid.
Qed.

Lemma noErrors_app (a b : list ValidationError) :
  noErrors (a ++ b) = noErrors a && noErrors b.
Proof. by destruct a. Qed.

Lemma lengthFindings_default (prompt : jsstring) :
  (lengthFindings (withOptions None) prompt).1 = [].
Proof.
  unfold lengthFindings. cbn [withOptions getDefaultOptions maxPromptLength strict limit flag].
  cbn. by destruct (_ <? _)%Z.
Qed.

Lemma variableErrors_typed (index : nat) (v : PromptVariable.t) :
  variableErrors index (variableValue v)
  = if truthy (PromptVariable.name v) then []
    else [ {| field := itemField "variables" index ".name";
              message := js "Variable name is required and must be a string";
              code := js "INVALID_VARIABLE_NAME" |} ].
Proof.
  destruct v as [name description required [defaultValue|]];
    unfold variableErrors, variableValue; cbn [PromptVariable.name
      PromptVariable.description PromptVariable.required PromptVariable.defaultValue
      fmap option_fmap option_map optionalMember app];
    by destruct name.
Qed.

Lemma validateVariables_typed (vs : list PromptVariable.t) :
  isValid (validateVariables (JArray (variableValue <$> vs))) = true ↔
  Forall (λ v, truthy (PromptVariable.name v) = true) vs.
Proof.
  unfold validateVariables, resultOf. cbn [isValid].
  enough (∀ n, noErrors (concat (imap (λ i, variableErrors (n + i)) (variableValue <$> vs)))
               = true ↔ Forall (λ v, truthy (PromptVariable.name v) = true) vs) as H
    by apply (H 0%nat).
  induction vs as [|v vs IH]; intros n; [done|].
  cbn [fmap list_fmap imap concat]. rewrite noErrors_app, andb_true_iff, Forall_cons.
  rewrite variableErrors_typed.
  assert (imap ((λ i, variableErrors (n + i)) ∘ S) (variableValue <$> vs)
          = imap (λ i, variableErrors (S n + i)) (variableValue <$> vs)) as ->.
  { apply imap_ext. intros i x _. cbn. f_equal. lia. }
  rewrite (IH (S n)). by destruct (truthy (PromptVariable.name v)).
Qed.

Lemma dataValue_members (d : PromptBlockData.t) :
  getProperty (js "name") (dataValue d) = JString (PromptBlockData.name d) ∧
  getProperty (js "prompt") (dataValue d) = JString (PromptBlockData.prompt d) ∧
  getProperty (js "category") (dataValue d) = JString (PromptBlockData.category d) ∧
  getProperty (js "priority") (dataValue d)
  = from_option (λ z, JNumber (integer z)) JUndefined (PromptBlockData.priority d) ∧
  getProperty (js "variables") (dataValue d)
  = from_option (λ l, JArray (variableValue <$> l)) JUndefined
      (PromptBlockData.variables d).
Proof.
  destruct d as [n [de|] c [t|] p [v|] [o|] [pr|] [e|]]; repeat split; reflexivity.
Qed.

Lemma create_accepts (d : PromptBlockData.t) :
  acceptable d ↔ ∃ b, PromptBlock.create d = Returns b.
Proof.
  split.
  - intros (Hf & Hp & Hc & Hr & Hv). unfold PromptBlock.create.
    rewrite (matchesNameFormat_not_blank _ Hf), Hp, Hf, Hv.
    destruct (isValidCategory_inv _ Hc) as [c Hcv]. rewrite Hcv.
    rewrite categoryValue_not_blank, asPromptCategory_value. cbn [negb].
    assert (((default 50 (PromptBlockData.priority d) <? 0)%Z
             || (100 <? default 50 (PromptBlockData.priority d))%Z) = false) as ->.
    { apply orb_false_iff. split; apply Z.ltb_ge; lia. }
    by eexists.
  - intros [b Hb]. apply create_Returns_inv in Hb as (Hn & Hp & Hc & Hf & Hv & Hr & _).
    repeat split; try done; try lia.
    apply not_false_iff_true. intros Hnc. apply asPromptCategory_None in Hnc.
    by rewrite Hnc in Hc.
Qed.

Lemma noErrors_if (b : bool) (e : ValidationError) :
  noErrors (if b then [e] else []) = negb b.
Proof. by destruct b. Qed.

Lemma promptLengthFindings_default (prompt : JsValue) :
  (promptLengthFindings getDefaultOptions prompt).1 = [].
Proof.
  destruct prompt as [| | | |s| |]; try done. cbn [promptLengthFindings].
  destruct (truthy s); [|done]. apply (lengthFindings_default s).
Qed.

(** The order of integers as numbers. *)
Lemma lessThan_integer (x y : Z) : lessThan (integer x) (integer y) = (x <? y)%Z.
Proof.
  unfold lessThan, integer. destruct (Z.ltb_spec x y) as [H|H].
  - apply bool_decide_eq_true_2. apply (proj1 (Z2Qc_inj_lt x y)). exact H.
  - apply bool_decide_eq_false_2. intros Hlt%Z2Qc_inj_lt. lia.
Qed.

Lemma priorityFindings_typed (priority : option Z) :
  noErrors (priorityFindings
              (from_option (λ z, JNumber (integer z)) JUndefined priority)) = true ↔
  (0 ≤ default 50 priority ≤ 100)%Z.
Proof.
  destruct priority as [z|]; cbn [from_option default id priorityFindings]; [|done].
  rewrite !lessThan_integer.
  destruct (Z.ltb_spec z 0), (Z.ltb_spec 100 z); cbn; split; try done; lia.
Qed.

Lemma variablesFindings_typed (variables : option (list PromptVariable.t)) :
  noErrors (errors (variablesFindings
                      (from_option (λ l, JArray (variableValue <$> l)) JUndefined variables)))
  = true ↔
  Forall (λ v, truthy (PromptVariable.name v) = true) (default [] variables).
Proof.
  destruct variables as [vs|]; [|done].
  cbn [from_option default id]. unfold variablesFindings. cbn [toBoolean].
  apply validateVariables_typed.
Qed.

(** [validate] on data of the declared type. *)
Lemma validate_typed (d : PromptBlockData.t) :
  ∃ r, validate (dataValue d) None = Some r ∧
       (isValid r = true ↔
        PromptBlock.blank (PromptBlockData.name d) = false ∧
        PromptBlock.blank (PromptBlockData.prompt d) = false ∧
        PromptBlock.blank (PromptBlockData.category d) = false ∧
        PromptBlock.matchesNameFormat (PromptBlockData.name d) = true ∧
        isValidCategory (PromptBlockData.category d) = true ∧
        (0 ≤ default 50 (PromptBlockData.priority d) ≤ 100)%Z ∧
        Forall (λ v, truthy (PromptVariable.name v) = true)
               (default [] (PromptBlockData.variables d))).
Proof.
  destruct (dataValue_members d) as (Hn & Hp & Hc & Hpr & Hv).
  unfold validate.
  assert (∃ ps, dataValue d = JObject ps) as [ps Hps] by (by eexists).
  rewrite Hps in *. rewrite Hn, Hp, Hc, Hpr, Hv.
  cbn [missingText withOptions getDefaultOptions requireDescription requireTags flag andb].
  eexists. split; [reflexivity|].
  unfold resultOf. cbn [isValid].
  rewrite !noErrors_app, !noErrors_if, promptLengthFindings_default, !andb_true_iff.
  rewrite priorityFindings_typed, variablesFindings_typed.
  cbn [nameFormatFindings categoryFindings].
  set (name := PromptBlockData.name d). set (prompt := PromptBlockData.prompt d).
  set (category := PromptBlockData.category d).
  rewrite !noErrors_if, !negb_true_iff.
  assert (∀ (x : jsstring) (ok : bool),
            PromptBlock.blank x = false → (truthy x && negb ok = false ↔ ok = true))
    as Htest.
  { intros x ok Hb. assert (truthy x = true) as ->
      by (unfold PromptBlock.blank in Hb; by destruct x).
    by destruct ok. }
  split.
  - intros (H1 & H2 & H3 & H4 & H5 & H6 & _ & H8).
    split; [done|]. split; [done|]. split; [done|].
    split; [by apply (Htest name _ H1)|]. split; [by apply (Htest category _ H3)|]. done.
  - intros (H1 & H2 & H3 & H4 & H5 & H6 & H8).
    split; [done|]. split; [done|]. split; [done|].
    split; [by apply (Htest name _ H1)|]. split; [by apply (Htest category _ H3)|]. done.
Qed.

(** X23.  [validate] and [PromptBlock.create] on data of the declared
    type.  With the default options [validate] returns for such data, and
    [create] accepts the data exactly when [validate] finds it valid and
    no variable has a name of white space only: the two agree on the name,
    the prompt, the category and the priority, and differ on the names of
    the variables, which [validate] requires to be non-empty and [create]
    to be non-blank. *)
Theorem create_accepts_what_validate_accepts (d : PromptBlockData.t) :
  ∃ r, validate (dataValue d) None = Some r ∧
       ((∃ b, PromptBlock.create d = Returns b) ↔
        isValid r = true ∧
        PromptBlock.variablesNamed (PromptBlockData.variables d) = true).
Proof.
  destruct (validate_typed d) as (r & Hr & Hvalid). exists r. split; [done|].
  rewrite <- create_accepts, Hvalid. unfold acceptable. split.
  - intros (Hf & Hp & Hc & Hpr & Hv). split; [|done].
    split; [by apply matchesNameFormat_not_blank|]. split; [done|].
    split.
    { destruct (isValidCategory_inv _ Hc) as [c ->]. apply categoryValue_not_blank. }
    split; [done|]. split; [done|]. split; [done|].
    destruct (PromptBlockData.variables d) as [vs|]; [|constructor].
    cbn in *. apply forallb_Forall in Hv. eapply Forall_impl; [exact Hv|].
    intros v Hb. cbn in Hb. unfold PromptBlock.blank in Hb.
    apply negb_true_iff, negb_false_iff in Hb.
    destruct (PromptVariable.name v); [|done].
    by vm_compute in Hb.
  - by intros ((_ & Hp & _ & Hf & Hc & Hpr & _) & Hv).
Qed.

(** *** The schema *)

Lemma hasProperty_false_get (k : jsstring) (v : JsValue) :
  hasProperty k v = false → getProperty k v = JUndefined.
Proof.
  destruct v as [| | | | | |ps]; try done. cbn.
  destruct (lookupProperty k ps); [|done]. intros H.
  apply bool_decide_eq_false in H. exfalso. apply H. by eexists.
Qed.

Lemma notOfType_false (t : string) (v : JsValue) :
  notOfType t v = false ↔ typeOf v = js t.
Proof.
  unfold notOfType. rewrite bool_decide_eq_false. split.
  - intros H. by destruct (decide (typeOf v = js t)).
  - intros Ht Hn. by apply Hn.
Qed.

Lemma isDefined_false (v : JsValue) : isDefined v = false ↔ v = JUndefined.
Proof. by destruct v. Qed.

Lemma typeError_accepts (optional : bool) (t member text : string) (v : JsValue) :
  noErrors (typeError optional t member text v) = true ↔ memberOfType t optional member v.
Proof.
  unfold typeError, memberOfType.
  destruct (hasProperty (js member) v); cbn [andb]; [|split; [by left|done]].
  destruct optional; cbn [negb orb].
  - destruct (isDefined (getProperty (js member) v)) eqn:Hd; cbn [andb].
    + destruct (notOfType t (getProperty (js member) v)) eqn:Ht; cbn.
      * split; [done|]. intros [?|[[_ Hu]|Hty]]; [done| |].
        -- by rewrite Hu in Hd.
        -- apply notOfType_false in Hty. by rewrite Hty in Ht.
      * split; [|done]. intros _. right. right. by apply notOfType_false.
    + split; [|done]. intros _. right. left. split; [done|]. by apply isDefined_false.
  - destruct (notOfType t (getProperty (js member) v)) eqn:Ht; cbn.
    + split; [done|]. intros [?|[[? _]|Hty]]; [done|done|].
      apply notOfType_false in Hty. by rewrite Hty in Ht.
    + split; [|done]. intros _. right. right. by apply notOfType_false.
Qed.

Lemma itemErrors_accept {A} (test : A → bool) (mk : nat → A → ValidationError)
    (l : list A) :
  noErrors (concat (imap (λ i x, if test x then [mk i x] else []) l)) = true ↔
  Forall (λ x, test x = false) l.
Proof.
  revert mk. induction l as [|x l IH]; intros mk; [done|].
  cbn [imap concat]. rewrite noErrors_app, andb_true_iff, Forall_cons.
  change (imap ((λ i x0, if test x0 then [mk i x0] else []) ∘ S) l)
    with (imap (λ i x0, if test x0 then [mk (S i) x0] else []) l).
  by rewrite (IH (λ i, mk (S i))), noErrors_if, negb_true_iff.
Qed.

Lemma tagsErrors_accepts (v : JsValue) :
  noErrors (tagsErrors v) = true ↔ tagsOfStrings v.
Proof.
  unfold tagsErrors, tagsOfStrings.
  destruct (hasProperty (js "tags") v); cbn [andb]; [|split; [by left|done]].
  destruct (getProperty (js "tags") v) as [| |b|z|s|tags|ps] eqn:Hg; cbn [isDefined].
  - split; [|done]. intros _. right. by left.
  - split; [done|]. by intros [?|[?|(tags & ? & _)]].
  - split; [done|]. by intros [?|[?|(tags & ? & _)]].
  - split; [done|]. by intros [?|[?|(tags & ? & _)]].
  - split; [done|]. by intros [?|[?|(tags & ? & _)]].
  - rewrite (itemErrors_accept (notOfType "string")). split.
    + intros H. right. right. exists tags. split; [done|].
      eapply Forall_impl; [exact H|]. intros tag. by rewrite notOfType_false.
    + intros [?|[?|(tags' & [= <-] & H)]]; [done..|].
      eapply Forall_impl; [exact H|]. intros tag. by rewrite notOfType_false.
  - split; [done|]. by intros [?|[?|(tags & ? & _)]].
Qed.

(** The findings of [validateSchema], member by member. *)
Lemma validateSchema_valid (v : JsValue) :
  isValid (validateSchema v) = true ↔
  notAnObject v = false ∧
  memberOfType "string" false "name" v ∧
  memberOfType "string" false "prompt" v ∧
  memberOfType "string" false "category" v ∧
  memberOfType "string" true "description" v ∧
  tagsOfStrings v ∧
  memberOfType "boolean" true "enabled" v ∧
  memberOfType "number" true "priority" v.
Proof.
  unfold validateSchema. destruct (notAnObject v); [by split; [|intros [? _]]|].
  unfold resultOf. cbn [isValid].
  rewrite !noErrors_app, !andb_true_iff, !typeError_accepts, tagsErrors_accepts.
  tauto.
Qed.

(** X24.  What [validateSchema] accepts.  A value passes exactly when it
    is an object (or array) and each of the members [name], [prompt] and
    [category] that is present is a string, [description], [enabled] and
    [priority] are absent, [undefined] or of their type, and [tags] is
    absent, [undefined] or an array of strings.  A required member may be
    missing; a member that is [null] is rejected; [variables] and
    [outputs] are not looked at. *)
Theorem validateSchema_accepts (v : JsValue) :
  isValid (validateSchema v) = true ↔
  notAnObject v = false ∧
  memberOfType "string" false "name" v ∧
  memberOfType "string" false "prompt" v ∧
  memberOfType "string" false "category" v ∧
  memberOfType "string" true "description" v ∧
  tagsOfStrings v ∧
  memberOfType "boolean" true "enabled" v ∧
  memberOfType "number" true "priority" v.
Proof. exact (validateSchema_valid v). Qed.

(** The schema on two objects: an empty description, which the YAML parser
    gives as [null], is rejected; a number as [outputs] is not. *)
Example validateSchema_null_description :
  message <$> errors (validateSchema nullDescriptionObject)
  = [js "description must be a string if provided"] ∧
  isValid (validateSchema (blockObject (JString (js "x")))) = true.
Proof. split; reflexivity. Qed.

(** *** Parsing *)

Lemma missingText_false (v : JsValue) :
  missingText v = Some false ↔ ∃ s, v = JString s ∧ PromptBlock.blank s = false.
Proof.
  destruct v as [| | | |s| |]; cbn; try (split; [done|by intros (? & ? & _)]).
  split; [intros [= H]; by exists s|]. by intros (s' & [= <-] & ->).
Qed.

Lemma variableErrors_accepts (index : nat) (item : JsValue) :
  noErrors (variableErrors index item) = true →
  notAnObject item = false ∧
  ∃ name, getProperty (js "name") item = JString name ∧ truthy name = true.
Proof.
  unfold variableErrors. destruct (notAnObject item); [done|].
  rewrite noErrors_app, andb_true_iff. intros [H _]. split; [done|].
  destruct (getProperty (js "name") item) as [| |b|z|s|items|ps]; try done.
  - cbn in H. by destruct b.
  - unfold notOfType in H. cbn [typeOf] in H.
    rewrite bool_decide_eq_true_2, orb_true_r in H by done. done.
  - exists s. split; [done|]. by destruct s.
Qed.

Lemma validateVariables_accepts (variables : JsValue) :
  noErrors (errors (validateVariables variables)) = true →
  ∃ items, variables = JArray items ∧
           Forall (λ item, notAnObject item = false ∧
                           ∃ name, getProperty (js "name") item = JString name ∧
                                   truthy name = true) items.
Proof.
  destruct variables as [| | | | |items|]; try done. cbn. intros H.
  exists items. split; [done|].
  enough (∀ n, noErrors (concat (imap (λ i, variableErrors (n + i)) items)) = true →
               Forall (λ item, notAnObject item = false ∧
                               ∃ name, getProperty (js "name") item = JString name ∧
                                       truthy name = true) items) as Hgen
    by apply (Hgen 0%nat H).
  clear H. induction items as [|item items IH]; intros n H; [constructor|].
  cbn [imap concat] in H. rewrite noErrors_app, andb_true_iff in H.
  destruct H as [H1 H2]. constructor; [by eapply variableErrors_accepts|].
  apply (IH (S n)).
  assert (imap ((λ i, variableErrors (n + i)) ∘ S) items
          = imap (λ i, variableErrors (S n + i)) items) as <-; [|done].
  apply imap_ext. intros i x _. cbn. f_equal. lia.
Qed.

Lemma notAnObject_false (v : JsValue) :
  notAnObject v = false → (∃ items, v = JArray items) ∨ ∃ ps, v = JObject ps.
Proof.
  destruct v as [| |b|z|s|items|ps]; try done.
  - unfold notAnObject. by rewrite orb_false_iff; intros [_ ?].
  - unfold notAnObject. by rewrite orb_false_iff; intros [_ ?].
  - unfold notAnObject. by rewrite orb_false_iff; intros [_ ?].
  - intros _. left. by exists items.
  - intros _. right. by exists ps.
Qed.

(** What [validate] has found when it finds a value valid. *)
Lemma validate_accepts (v : JsValue) (r : ValidationResult) :
  notAnObject v = false →
  validate v None = Some r → isValid r = true → validatedObject v.
Proof.
  intros Hobj Hv Hr. unfold validatedObject. split; [done|].
  assert (validate v None
          = match missingText (getProperty (js "name") v),
                  missingText (getProperty (js "prompt") v),
                  missingText (getProperty (js "category") v) with
            | Some noName, Some noPrompt, Some noCategory =>
                Some (resultOf
                  ((if noName then [requiredError "name" "Name is required"] else [])
                   ++ (if noPrompt then [requiredError "prompt" "Prompt is required"]
                       else [])
                   ++ (if noCategory
                       then [requiredError "category" "Category is required"] else [])
                   ++ nameFormatFindings (getProperty (js "name") v)
                   ++ categoryFindings (getProperty (js "category") v)
                   ++ priorityFindings (getProperty (js "priority") v)
                   ++ (promptLengthFindings getDefaultOptions
                         (getProperty (js "prompt") v)).1
                   ++ errors (variablesFindings (getProperty (js "variables") v)))
                  ((promptLengthFindings getDefaultOptions
                      (getProperty (js "prompt") v)).2
                   ++ warnings (variablesFindings (getProperty (js "variables") v))))
            | _, _, _ => None
            end) as Heq.
  { destruct (notAnObject_false v Hobj) as [[items ->]|[ps ->]]; [done|].
    unfold validate.
    cbn [withOptions getDefaultOptions requireDescription requireTags flag andb].
    destruct (missingText (getProperty (js "name") (JObject ps))); [|done].
    destruct (missingText (getProperty (js "prompt") (JObject ps))); [|done].
    by destruct (missingText (getProperty (js "category") (JObject ps))). }
  rewrite Heq in Hv. clear Heq.
  destruct (missingText (getProperty (js "name") v)) as [noName|] eqn:Hn; [|done].
  destruct (missingText (getProperty (js "prompt") v)) as [noPrompt|] eqn:Hp; [|done].
  destruct (missingText (getProperty (js "category") v)) as [noCategory|] eqn:Hc;
    [|done].
  injection Hv as <-. unfold resultOf in Hr. cbn [isValid] in Hr.
  rewrite !noErrors_app, !noErrors_if, !andb_true_iff, !negb_true_iff in Hr.
  destruct Hr as (-> & -> & -> & Hformat & Hcategory & Hpriority & _ & Hvars).
  apply missingText_false in Hn as (name & Hname & Hbn).
  apply missingText_false in Hp as (prompt & Hprompt & Hbp).
  apply missingText_false in Hc as (category & Hcat & Hbc).
  rewrite Hname in Hformat. rewrite Hcat in Hcategory.
  cbn [nameFormatFindings categoryFindings] in *.
  split; [|split; [|split; [|split]]].
  - exists name. split; [done|].
    assert (truthy name = true) as Ht
      by (unfold PromptBlock.blank in Hbn; by destruct name).
    rewrite Ht in Hformat. by destruct (PromptBlock.matchesNameFormat name).
  - by exists prompt.
  - exists category. split; [done|].
    assert (truthy category = true) as Ht
      by (unfold PromptBlock.blank in Hbc; by destruct category).
    rewrite Ht in Hcategory. by destruct (isValidCategory category).
  - destruct (getProperty (js "priority") v) as [| |?|z'|?|?|?];
      try done; try (by left).
    right. exists z'. split; [done|]. cbn [priorityFindings] in Hpriority.
    by destruct (lessThan z' (integer 0)), (lessThan (integer 100) z').
  - unfold variablesFindings in Hvars.
    destruct (toBoolean (getProperty (js "variables") v)); [|by left].
    right. by apply validateVariables_accepts.
Qed.

(** After the schema, [validate] does not throw. *)
Lemma validate_defined (v : JsValue) :
  isValid (validateSchema v) = true → ∃ r, validate v None = Some r.
Proof.
  intros Hs. apply validateSchema_valid in Hs as (Hobj & Hn & Hp & Hc & _).
  assert (∀ member, memberOfType "string" false member v →
                    ∃ b, missingText (getProperty (js member) v) = Some b) as Htext.
  { intros member [Habs|[[? _]|Hty]]; [|done|].
    - rewrite (hasProperty_false_get _ _ Habs). by eexists.
    - destruct (getProperty (js member) v); try done. by eexists. }
  destruct (Htext _ Hn) as [b1 H1], (Htext _ Hp) as [b2 H2], (Htext _ Hc) as [b3 H3].
  destruct (notAnObject_false v Hobj) as [[items ->]|[ps ->]].
  - by eexists.
  - unfold validate.
    cbn [withOptions getDefaultOptions requireDescription requireTags flag andb].
    rewrite H1, H2, H3. by eexists.
Qed.

(** X25.  What [parseFromContent] returns.  With the default options the
    call does not end in a [TypeError]: it returns or rejects with a
    validation error.  When it returns, the value is the one the YAML
    parser gave for the cleaned content, and it is an object whose [name]
    is a string of letters, digits, underscores and hyphens, whose
    [prompt] is a string that is not blank, whose [category] is one of the
    four category values, whose [priority], if it is not [undefined], is a
    number that is neither less than 0 nor greater than 100, which is a
    number from 0 to 100 or [NaN], and whose [variables], if truthy, is an
    array of objects with non-empty strings as names. *)
Theorem parseFromContent_returns_validated_object (yamlParse : jsstring → outcome JsValue)
    (content : jsstring) (filePath : option jsstring) :
  (∃ o, parseFromContent yamlParse content filePath = Some o) ∧
  ∀ v, parseFromContent yamlParse content filePath = Some (Fulfilled v) →
       yamlParse (cleanYamlContent content) = Fulfilled v ∧ validatedObject v.
Proof.
  unfold parseFromContent.
  destruct (yamlParse (cleanYamlContent content)) as [parsed|m];
    [|split; [by eexists|done]].
  destruct (notAnObject parsed) eqn:Hobj; [split; [by eexists|done]|].
  destruct (isValid (validateSchema parsed)) eqn:Hs; cbn [negb];
    [|split; [by eexists|done]].
  destruct (validate_defined _ Hs) as [r Hr]. rewrite Hr. cbn [mbind option_bind].
  destruct (isValid r) eqn:Hv; cbn [negb]; (split; [by eexists|]); [|done].
  intros v [= <-]. split; [done|]. by eapply validate_accepts.
Qed.

(** X26.  The validators of single members.  [validateName] accepts the
    names of letters, digits, underscores and hyphens, the names that
    [PromptBlock.create] and [loadByName] accept; [validateCategory] the
    four category values; [validatePrompt], with the default options, the
    prompts that are not blank, however long. *)
Theorem member_validators_decide_formats (name category prompt : jsstring) :
  isValid (validateName name) = PromptBlock.matchesNameFormat name ∧
  isValid (validateCategory category) = isValidCategory category ∧
  isValid (validatePrompt prompt None) = negb (PromptBlock.blank prompt).
Proof.
  split; [|split].
  - unfold validateName, resultOf. cbn [isValid].
    destruct (PromptBlock.blank name) eqn:Hb.
    + destruct (PromptBlock.matchesNameFormat name) eqn:Hf; [|done].
      by rewrite (matchesNameFormat_not_blank _ Hf) in Hb.
    + by destruct (PromptBlock.matchesNameFormat name).
  - unfold validateCategory, resultOf. cbn [isValid].
    destruct (PromptBlock.blank category) eqn:Hb.
    + destruct (isValidCategory category) eqn:Hc; [|done].
      destruct (isValidCategory_inv _ Hc) as [c ->].
      by rewrite categoryValue_not_blank in Hb.
    + by destruct (isValidCategory category).
  - unfold validatePrompt. destruct (PromptBlock.blank prompt); [done|].
    unfold resultOf. cbn [isValid negb]. by rewrite (lengthFindings_default prompt).
Qed.

End ParserExtra.

(** A variable named by a space: valid for [validate], rejected by
    [create]. *)
Example validate_accepts_blank_variable_name :
  IPromptBlockValidator.isValid
    <$> YamlPromptBlockParser.validate (dataValue blankVariableData) None = Some true ∧
  PromptBlock.create blankVariableData
  = Throws (ValidationError (js "Variable name is required") (Some (js "variables"))).
Proof. split; reflexivity. Qed.

(** [parseFromContent] on four contents: a byte order mark and white space
    around a block; a number as name; a sequence; a content the parser
    rejects. *)
Example parseFromContent_samples :
  YamlPromptBlockParser.parseFromContent sampleParser
    ([65279] ++ js "name: x" ++ [32; 10]) (Some (js "/p/x.yaml"))
  = Some (Fulfilled (blockObject (JString (js "x")))) ∧
  YamlPromptBlockParser.parseFromContent sampleParser (js "name: 5") None
  = Some (Rejected (js "Schema validation failed: name must be a string")) ∧
  YamlPromptBlockParser.parseFromContent sampleParser (js "- x") None
  = Some (Rejected (js "Data validation failed: Name is required; Prompt is required; Category is required")) ∧
  YamlPromptBlockParser.parseFromContent sampleParser (js "{") (Some (js "/p/x.yaml"))
  = Some (Rejected (js "YAML parsing failed in /p/x.yaml: Unexpected token")).
Proof. repeat split; vm_compute; reflexivity. Qed.

(** The range test of the priority: a fraction in the range and [NaN]
    pass, the infinities and a number outside the range do not. *)
Example priorityFindings_samples :
  YamlPromptBlockParser.priorityFindings
    <$> [JNumber (Finite (Q2Qc (101 # 2))); JNumber NaN; JNumber (Infinity false);
         JNumber (Infinity true); JNumber (integer 101); JString (js "50")]
  = [[]; []; [YamlPromptBlockParser.priorityError];
     [YamlPromptBlockParser.priorityError]; [YamlPromptBlockParser.priorityError];
     [YamlPromptBlockParser.priorityError]] ∧
  YamlPromptBlockParser.parseFromContent sampleParser (js "priority: .nan") None
  = Some (Fulfilled nanPriorityObject).
Proof. split; vm_compute; reflexivity. Qed.

(** Cleaning a content with a byte order mark, typographic quotes, a
    dash, a zero-width space and a no-break space at its end. *)
Example cleanYamlContent_sample :
  YamlPromptBlockParser.cleanYamlContent
    ([65279] ++ js "name: " ++ [8220] ++ js "a" ++ [8211; 8203] ++ js "b" ++ [8221; 160])
  = js "name: " ++ [34] ++ js "a-b" ++ [34].
Proof. vm_compute. reflexivity. Qed.

(** With [strict] the length counts; an option given as [undefined]
    replaces its default. *)
Example validatePrompt_options :
  IPromptBlockValidator.isValid
    (YamlPromptBlockParser.validatePrompt (js "A long prompt.")
       (Some {| IPromptBlockValidator.strict := Some (Some true);
                IPromptBlockValidator.requireDescription := None;
                IPromptBlockValidator.requireTags := None;
                IPromptBlockValidator.maxPromptLength := Some (Some 5%Z) |})) = false ∧
  IPromptBlockValidator.isValid
    (YamlPromptBlockParser.validatePrompt (js "A long prompt.")
       (Some {| IPromptBlockValidator.strict := Some (Some true);
                IPromptBlockValidator.requireDescription := None;
                IPromptBlockValidator.requireTags := None;
                IPromptBlockValidator.maxPromptLength := Some None |})) = true.
Proof. split; reflexivity. Qed.

(** ** The utilities of the webview *)

Section WebviewExtra.

Implicit Types (command : PromptBlockSlashCommand.t)
  (commands : list PromptBlockSlashCommand.t) (s : CommandSection)
  (G : list (CommandSection * list PromptBlockSlashCommand.t)).

(** X27.  The category names of the webview and of the core agree.  For
    each of the four category values the webview shows the display name
    of the core behind the pictograph of the category and a space; a
    string that is no category value is shown as it is. *)
Theorem webview_display_name_extends_core :
  (∀ c, WebviewPromptBlocks.getCategoryDisplayName (categoryValue c)
        = categoryIcon c ++ [32] ++ getCategoryDisplayName c) ∧
  (∀ category, isValidCategory category = false →
               WebviewPromptBlocks.getCategoryDisplayName category = category).
Proof.
  split.
  - by intros [].
  - intros category Hc. unfold WebviewPromptBlocks.getCategoryDisplayName.
    assert (∀ c, category ≠ categoryValue c) as Hne.
    { intros c ->. apply not_true_iff_false in Hc. apply Hc.
      unfold isValidCategory. apply bool_decide_eq_true.
      apply list_elem_of_fmap. exists c. split; [done|]. destruct c; set_solver. }
    rewrite decide_False by apply (Hne ANALYSIS).
    rewrite decide_False by apply (Hne VISUALIZATION).
    rewrite decide_False by apply (Hne REPORTING).
    by rewrite decide_False by apply (Hne METHODOLOGY).
Qed.

Lemma inSection_snoc s commands command :
  inSection s (commands ++ [command]) =
  inSection s commands
  ++ (if decide (PromptBlockSlashCommand.section command = s) then [command] else []).
Proof.
  unfold inSection. by rewrite filter_app.
Qed.

Lemma pushCommand_known s command (keys : list CommandSection)
    (f g : CommandSection → list PromptBlockSlashCommand.t) :
  s ∈ keys → NoDup keys →
  g s = f s ++ [command] → (∀ s', s' ≠ s → g s' = f s') →
  WebviewPromptBlocks.pushCommand s command ((λ k, (k, f k)) <$> keys)
  = (λ k, (k, g k)) <$> keys.
Proof.
  intros Hin Hnd Hs Hother. induction keys as [|k keys IH]; [by apply not_elem_of_nil in Hin|].
  apply NoDup_cons in Hnd as [Hk Hnd]. cbn [fmap list_fmap WebviewPromptBlocks.pushCommand].
  destruct (decide (k = s)) as [->|Hne].
  - rewrite Hs. f_equal. apply fmap_ext_elem. intros k' Hk'.
    rewrite Hother; [done|]. by intros ->.
  - rewrite (Hother k Hne). f_equal. apply IH; [|done].
    by apply elem_of_cons in Hin as [->|?].
Qed.

Lemma pushCommand_new s command G :
  s ∉ G.*1 → WebviewPromptBlocks.pushCommand s command G = G ++ [(s, [command])].
Proof.
  induction G as [|[s' cs] G IH]; [done|].
  cbn [WebviewPromptBlocks.pushCommand fmap list_fmap fst].
  rewrite not_elem_of_cons. intros [Hs HG].
  rewrite decide_False by done. cbn [app]. by rewrite IH.
Qed.

Lemma firstOccurrences_NoDup {A} `{EqDecision A} (l : list A) :
  NoDup (firstOccurrences l).
Proof.
  induction l as [|x l IH]; [constructor|]. cbn [firstOccurrences].
  apply NoDup_cons. split; [|by apply NoDup_filter].
  rewrite list_elem_of_filter. by intros [? _].
Qed.

(** X28.  [groupSlashCommands] groups without loss and in order.  The
    object it returns has one member for each section that occurs among
    the commands, the members being in the order in which the sections
    first occur, and the member of a section holds the commands of that
    section in the order of the input.  The commands made of prompt
    blocks by [promptBlocksToSlashCommands] all go, in the order of the
    blocks, to the one member [prompts]. *)
Theorem groupSlashCommands_by_section commands (blocks : list PromptBlockInfo.t) :
  WebviewPromptBlocks.groupSlashCommands commands
  = (λ s, (s, inSection s commands))
      <$> firstOccurrences (PromptBlockSlashCommand.section <$> commands) ∧
  WebviewPromptBlocks.groupSlashCommands
    (WebviewPromptBlocks.promptBlocksToSlashCommands blocks)
  = match blocks with
    | [] => []
    | _ => [(PROMPTS, WebviewPromptBlocks.promptBlocksToSlashCommands blocks)]
    end.
Proof.
  assert (∀ commands,
    WebviewPromptBlocks.groupSlashCommands commands
    = (λ s, (s, inSection s commands))
        <$> firstOccurrences (PromptBlockSlashCommand.section <$> commands)) as Hgen.
  { clear. intros commands. unfold WebviewPromptBlocks.groupSlashCommands.
    induction commands as [|command commands IH] using rev_ind; [done|].
    rewrite foldl_app. cbn [foldl]. rewrite IH, fmap_app.
    change (PromptBlockSlashCommand.section <$> [command])
      with [PromptBlockSlashCommand.section command].
    rewrite firstOccurrences_snoc.
    set (s := PromptBlockSlashCommand.section command).
    destruct (decide (s ∈ PromptBlockSlashCommand.section <$> commands)) as [Hin|Hni].
    - apply pushCommand_known.
      + by apply firstOccurrences_elem.
      + apply firstOccurrences_NoDup.
      + rewrite inSection_snoc. by rewrite decide_True.
      + intros s' Hs'. rewrite inSection_snoc. rewrite decide_False by done.
        by rewrite app_nil_r.
    - rewrite pushCommand_new.
      + rewrite fmap_app. f_equal.
        * apply fmap_ext_elem. intros s' Hs'. rewrite inSection_snoc.
          rewrite decide_False; [by rewrite app_nil_r|].
          intros Heq. apply Hni. fold s in Heq. rewrite Heq.
          by apply firstOccurrences_elem.
        * cbn. rewrite inSection_snoc. rewrite decide_True by done.
          assert (inSection s commands = []) as ->; [|done].
          apply filter_nil_Forall. apply Forall_forall. intros c Hc Hs. apply Hni.
          rewrite <- Hs. by apply list_elem_of_fmap_2.
      + rewrite <- list_fmap_compose. cbn. rewrite list_fmap_id.
        by rewrite firstOccurrences_elem. }
  split; [apply Hgen|]. rewrite Hgen.
  destruct blocks as [|block blocks]; [done|].
  assert (∀ bs, Forall (λ c, PromptBlockSlashCommand.section c = PROMPTS)
                       (WebviewPromptBlocks.promptBlocksToSlashCommands bs)) as Hall.
  { intros bs. apply Forall_forall. intros c Hc.
    apply list_elem_of_fmap in Hc as (b & -> & _). done. }
  set (cs := WebviewPromptBlocks.promptBlocksToSlashCommands (block :: blocks)).
  assert (firstOccurrences (PromptBlockSlashCommand.section <$> cs) = [PROMPTS]) as ->.
  { unfold cs. cbn [WebviewPromptBlocks.promptBlocksToSlashCommands fmap list_fmap
      firstOccurrences PromptBlockSlashCommand.section]. f_equal.
    apply filter_nil_Forall. apply Forall_forall. intros s Hs.
    apply firstOccurrences_elem, list_elem_of_fmap in Hs as (c & -> & Hc).
    apply list_elem_of_fmap in Hc as (b & -> & _). by intros H. }
  cbn [fmap list_fmap]. f_equal. f_equal. unfold inSection.
  specialize (Hall (block :: blocks)). fold cs in Hall.
  clear -Hall. induction Hall as [|c l Hc Hl IH]; [done|].
  by rewrite filter_cons_True, IH.
Qed.

End WebviewExtra.
